(** * OpenRoboRL: actuation/sensing pipeline and domain randomization

    A shallow embedding of
    - [envs/quadruped_robot/robots/minitaur.py]  (class [Minitaur]),
    - [robots/quadruped.py]                       (class [Quadruped]),
    - [envs/utilities/randomizer/controllable_env_randomizer_from_config.py]
      (class [ControllableEnvRandomizerFromConfig]),
    followed by the properties proved about them.

    Numbers.  Python floats and numpy float arrays are embedded as exact
    rationals ([Q]) and lists of rationals: the arithmetic of the source is
    kept operation by operation.  Computed values are compared with [==]
    ([Qeq]); values that the code copies without arithmetic are compared
    with [=].  The three computations whose results the properties compare
    for equality (the delayed observation, the interpolated action and the
    randomizer's transform) are also embedded over an arbitrary arithmetic
    (module [Arith]) and read in IEEE 754 double precision, where every
    operation rounds.

    Exceptions.  A method that may raise returns a [result]; the setters whose
    partial effects matter return the state reached together with the
    exception, if any. *)

From Stdlib Require Import QArith ZArith Qround Qabs Lia Lqa String DecimalString.
From Stdlib Require Import Permutation SpecFloat.
From stdpp Require Import base list gmap strings sorting.

Open Scope Q_scope.

(** ** Python and numpy prelude *)

Module Py.

Inductive exn : Type :=
| IndexError
| KeyError (key : string)
| TypeError
| ValueError (msg : string)
| ZeroDivisionError
| OverflowError
| AttributeError (name : string).

Inductive result (A : Type) : Type :=
| Ok (a : A)
| Raise (e : exn).
Arguments Ok {A} a.
Arguments Raise {A} e.

#[global] Instance result_ret : MRet result := fun _ a => Ok a.
#[global] Instance result_bind : MBind result := fun _ _ k m =>
  match m with
  | Ok a => k a
  | Raise e => Raise e
  end.

Definition Qltb (x y : Q) : bool := negb (Qle_bool y x).

(** [int(x)] on a float: truncation toward zero. *)
Definition int (x : Q) : Z := Z.quot (Qnum x) (Zpos (Qden x)).

(** [x / y] on floats. *)
Definition truediv (x y : Q) : result Q :=
  if Qeq_bool y 0 then Raise ZeroDivisionError else Ok (x / y).

(** [l[i]] for a list, a tuple or a deque: negative indices count from the
    end, anything outside [-len, len) raises. *)
Definition index {A : Type} (l : list A) (i : Z) : result A :=
  let len := Z.of_nat (length l) in
  let j := if (i <? 0)%Z then (len + i)%Z else i in
  if (j <? 0)%Z then Raise IndexError
  else match l !! Z.to_nat j with
       | Some a => Ok a
       | None => Raise IndexError
       end.

(** [l[a:b]] with [0 <= a], [0 <= b]. *)
Definition slice {A : Type} (l : list A) (a b : nat) : list A :=
  take (b - a) (drop a l).

(** A [for] loop whose body may raise. *)
Fixpoint for_each {A S : Type} (body : A -> S -> result S) (l : list A)
    (s : S) : result S :=
  match l with
  | [] => Ok s
  | a :: l' => s' ← body a s; for_each body l' s'
  end.

(** Decimal rendering of a length, as [str.format] prints an [int]. *)
Definition str_of_nat (n : nat) : string :=
  NilEmpty.string_of_uint (Nat.to_uint n).

End Py.

Module Np.
Import Py.

(** One-dimensional float arrays.  A binary operator broadcasts: equal
    lengths combine pointwise, a one-element array is stretched, any other
    pair of shapes raises [ValueError]. *)
Definition array := list Q.

Fixpoint zip_with (f : Q -> Q -> Q) (x y : array) : array :=
  match x, y with
  | a :: x', b :: y' => f a b :: zip_with f x' y'
  | _, _ => []
  end.

Definition shape_error : exn :=
  ValueError "operands could not be broadcast together".

Definition binop (f : Q -> Q -> Q) (x y : array) : result array :=
  if (length x =? length y)%nat then Ok (zip_with f x y)
  else match x, y with
       | [a], _ => Ok (map (f a) y)
       | _, [b] => Ok (map (fun a => f a b) x)
       | _, _ => Raise shape_error
       end.

Definition add := binop Qplus.

(** [x += y] in place: the result keeps the shape of [x]. *)
Definition iadd (x y : array) : result array :=
  if (length x =? length y)%nat then Ok (zip_with Qplus x y)
  else match y with
       | [b] => Ok (map (fun a => a + b) x)
       | _ => Raise shape_error
       end.
Definition sub := binop Qminus.
Definition multiply := binop Qmult.

(** scalar [*] array, array [+]/[-] scalar *)
Definition scale (c : Q) (x : array) : array := map (Qmult c) x.
Definition add_scalar (x : array) (c : Q) : array := map (fun a => a + c) x.
Definition sub_scalar (x : array) (c : Q) : array := map (fun a => a - c) x.

(** [np.clip(x, lo, hi)] is [minimum(maximum(x, lo), hi)]. *)
Definition maximum := binop (fun a b => if Qle_bool a b then b else a).
Definition minimum := binop (fun a b => if Qle_bool a b then a else b).
Definition clip (x lo hi : array) : result array :=
  m ← maximum x lo; minimum m hi.

(** Two-dimensional arrays, row by row.  [reshape3 x n] is
    [np.reshape(x, (n, 3))]; [multiply2] is [*] on two arrays with the same
    number of rows. *)
Fixpoint rows3 (x : array) (n : nat) : list array :=
  match n with
  | O => []
  | S n' => take 3 x :: rows3 (drop 3 x) n'
  end.

Definition reshape3 (x : array) (n : nat) : result (list array) :=
  if (length x =? n * 3)%nat then Ok (rows3 x n)
  else Raise (ValueError "cannot reshape array").

Fixpoint multiply_rows (x y : list array) : result (list array) :=
  match x, y with
  | [], [] => Ok []
  | r :: x', s :: y' =>
      p ← multiply r s; ps ← multiply_rows x' y'; Ok (p :: ps)
  | _, _ => Raise shape_error
  end.
Definition multiply2 := multiply_rows.

(** [x[start:stop] = c] with the index rules of Python slices. *)
Definition slice_bound (len i : Z) : Z :=
  Z.max 0 (Z.min len (if (i <? 0)%Z then (i + len)%Z else i)).

Definition slice_assign (x : array) (start stop : Z) (c : Q) : array :=
  let len := Z.of_nat (length x) in
  let a := slice_bound len start in
  let b := slice_bound len stop in
  imap (fun k v => if ((a <=? Z.of_nat k) && (Z.of_nat k <? b))%Z
                   then c else v) x.

Definition zeros (n : nat) : array := replicate n 0.
Definition ones (n : nat) : array := replicate n 1.

(** Pointwise equality of computed arrays. *)
Definition eqv (x y : array) : Prop := Forall2 Qeq x y.

End Np.

(** ** Collaborators of the robot classes

    The physics engine, the motor model ([minitaur_motor] / [robot_motor]) and
    the Butterworth filter ([action_filter]) are separate components; only
    what the robot classes exchange with them is represented. *)

Module Bullet.

(** The answers of the engine to the queries of [receive_obs]:
    [getJointStates] (position, velocity per motor), the base orientation
    relative to the initial one (the result of [multiplyTransforms]) and the
    angular velocity in the base frame. *)
Record SimReading : Type := {
  getJointStates : list (Q * Q);
  relative_base_orientation : list Q;
  local_angular_velocity : list Q
}.

(** The engine as the robot sees it: the current readings, the dynamics
    parameters written by [changeDynamics], and the last array of forces
    sent with [setJointMotorControlArray] in [TORQUE_CONTROL]. *)
Record BulletClient : Type := {
  reading : SimReading;
  link_mass : gmap Z Q;
  link_inertia : gmap Z (list Q);
  torque_control : list Z * list Q
}.

Definition with_reading (r : SimReading) (c : BulletClient) : BulletClient :=
  {| reading := r; link_mass := link_mass c;
     link_inertia := link_inertia c; torque_control := torque_control c |}.

(** [changeDynamics(body, link, mass=m)] *)
Definition changeDynamics_mass (link : Z) (m : Q) (c : BulletClient)
  : BulletClient :=
  {| reading := reading c; link_mass := <[link := m]> (link_mass c);
     link_inertia := link_inertia c; torque_control := torque_control c |}.

(** [changeDynamics(body, link, localInertiaDiagonal=v)] *)
Definition changeDynamics_inertia (link : Z) (v : list Q) (c : BulletClient)
  : BulletClient :=
  {| reading := reading c; link_mass := link_mass c;
     link_inertia := <[link := v]> (link_inertia c);
     torque_control := torque_control c |}.

(** [setJointMotorControlArray(..., controlMode=TORQUE_CONTROL, forces=...)] *)
Definition setJointMotorControlArray (ids : list Z) (forces : list Q)
    (c : BulletClient) : BulletClient :=
  {| reading := reading c; link_mass := link_mass c;
     link_inertia := link_inertia c; torque_control := (ids, forces) |}.

End Bullet.

Module Motor.

Inductive MotorControlMode : Type := POSITION | TORQUE | HYBRID.

(** The bound method [convert_to_torque] of the motor model the robot
    currently holds: from the commands, the delayed angles and velocities,
    the true velocities and the control mode to the pair
    (actual torque, observed torque). *)
Definition MotorModel : Type :=
  Np.array -> Np.array -> Np.array -> Np.array -> MotorControlMode ->
  Np.array * Np.array.

End Motor.

Module ActionFilter.

(** The calls the robot makes on its [ActionFilterButter], oldest first. *)
Inductive call : Type :=
| reset
| init_history (default_action : Np.array)
| filter (action : Np.array).

(** The filter object: the calls received since construction, and the value
    [filter] returns after a given sequence of calls (the last of which is
    that [filter] call). *)
Record ActionFilterButter : Type := {
  calls : list call;
  response : list call -> Np.array
}.

Definition send (c : call) (f : ActionFilterButter) : ActionFilterButter :=
  {| calls := calls f ++ [c]; response := response f |}.

Definition do_filter (action : Np.array) (f : ActionFilterButter)
  : Np.array * ActionFilterButter :=
  let f' := send (filter action) f in (response f' (calls f'), f').

End ActionFilter.

(** ** The robot: [Minitaur] (envs/quadruped_robot/robots/minitaur.py) *)

Module Minitaur.
Import Py.

(** What the constructor copies from the robot module ([laikago],
    [mini_cheetah]) or fixes itself, together with the link and motor ids
    built by [init_robot]; none of the methods below reassigns them.
    [np_random_normal scale size] stands for the draw of
    [np.random.normal(scale=scale, size=size)]. *)
Record Descriptor : Type := {
  num_motors : nat;
  _action_repeat : Z;
  time_step : Q;
  _init_motor_angle : Np.array;
  _motor_direction : Np.array;
  _motor_offset : Np.array;
  _pd_latency : Q;
  _motor_control_mode : Motor.MotorControlMode;
  _overheat_shutdown_tau : Q;
  _overheat_shutdown_time : Q;
  _max_motor_angle_step : Q;
  _observation_noise_stdev : list Q;
  _motor_overheat_protection : bool;
  _enable_action_interpolation : bool;
  _enable_action_filter : bool;
  _enable_randomizer : bool;
  _chassis_link_ids : list Z;
  _leg_link_ids : list Z;
  _motor_link_ids : list Z;
  _motor_id_list : list Z;
  np_random_normal : Q -> nat -> Np.array
}.

Record Minitaur : Type := {
  descriptor : Descriptor;
  _control_latency : Q;
  _pybullet_client : Bullet.BulletClient;
  _motor_model : Motor.MotorModel;
  _action_filter : ActionFilter.ActionFilterButter;
  _joint_states : list (Q * Q);
  _base_orientation : list Q;
  _observed_motor_torques : Np.array;
  _observation_history : list (list Q);
  _control_observation : list Q;
  _overheat_counter : list Z;
  _motor_enabled_list : list bool;
  _filter_action : option Np.array;
  _action : Np.array;
  _last_action : Np.array;
  _state_action_counter : Z;
  step_counter : Z
}.

Coercion descriptor : Minitaur >-> Descriptor.

(** Attribute assignment [self.x = v]: every other attribute is kept. *)
Definition with_control_latency (v : Q) (self : Minitaur) : Minitaur :=
  {| descriptor := descriptor self; _control_latency := v;
  _pybullet_client := _pybullet_client self;
  _motor_model := _motor_model self; _action_filter := _action_filter self;
  _joint_states := _joint_states self;
  _base_orientation := _base_orientation self;
  _observed_motor_torques := _observed_motor_torques self;
  _observation_history := _observation_history self;
  _control_observation := _control_observation self;
  _overheat_counter := _overheat_counter self;
  _motor_enabled_list := _motor_enabled_list self;
  _filter_action := _filter_action self; _action := _action self;
  _last_action := _last_action self;
  _state_action_counter := _state_action_counter self;
  step_counter := step_counter self |}.

Definition with_pybullet_client (v : Bullet.BulletClient) (self : Minitaur) : Minitaur :=
  {| descriptor := descriptor self;
  _control_latency := _control_latency self; _pybullet_client := v;
  _motor_model := _motor_model self; _action_filter := _action_filter self;
  _joint_states := _joint_states self;
  _base_orientation := _base_orientation self;
  _observed_motor_torques := _observed_motor_torques self;
  _observation_history := _observation_history self;
  _control_observation := _control_observation self;
  _overheat_counter := _overheat_counter self;
  _motor_enabled_list := _motor_enabled_list self;
  _filter_action := _filter_action self; _action := _action self;
  _last_action := _last_action self;
  _state_action_counter := _state_action_counter self;
  step_counter := step_counter self |}.

Definition with_action_filter (v : ActionFilter.ActionFilterButter) (self : Minitaur) : Minitaur :=
  {| descriptor := descriptor self;
  _control_latency := _control_latency self;
  _pybullet_client := _pybullet_client self;
  _motor_model := _motor_model self; _action_filter := v;
  _joint_states := _joint_states self;
  _base_orientation := _base_orientation self;
  _observed_motor_torques := _observed_motor_torques self;
  _observation_history := _observation_history self;
  _control_observation := _control_observation self;
  _overheat_counter := _overheat_counter self;
  _motor_enabled_list := _motor_enabled_list self;
  _filter_action := _filter_action self; _action := _action self;
  _last_action := _last_action self;
  _state_action_counter := _state_action_counter self;
  step_counter := step_counter self |}.

Definition with_joint_states (v : list (Q * Q)) (self : Minitaur) : Minitaur :=
  {| descriptor := descriptor self;
  _control_latency := _control_latency self;
  _pybullet_client := _pybullet_client self;
  _motor_model := _motor_model self; _action_filter := _action_filter self;
  _joint_states := v; _base_orientation := _base_orientation self;
  _observed_motor_torques := _observed_motor_torques self;
  _observation_history := _observation_history self;
  _control_observation := _control_observation self;
  _overheat_counter := _overheat_counter self;
  _motor_enabled_list := _motor_enabled_list self;
  _filter_action := _filter_action self; _action := _action self;
  _last_action := _last_action self;
  _state_action_counter := _state_action_counter self;
  step_counter := step_counter self |}.

Definition with_base_orientation (v : list Q) (self : Minitaur) : Minitaur :=
  {| descriptor := descriptor self;
  _control_latency := _control_latency self;
  _pybullet_client := _pybullet_client self;
  _motor_model := _motor_model self; _action_filter := _action_filter self;
  _joint_states := _joint_states self; _base_orientation := v;
  _observed_motor_torques := _observed_motor_torques self;
  _observation_history := _observation_history self;
  _control_observation := _control_observation self;
  _overheat_counter := _overheat_counter self;
  _motor_enabled_list := _motor_enabled_list self;
  _filter_action := _filter_action self; _action := _action self;
  _last_action := _last_action self;
  _state_action_counter := _state_action_counter self;
  step_counter := step_counter self |}.

Definition with_observed_motor_torques (v : Np.array) (self : Minitaur) : Minitaur :=
  {| descriptor := descriptor self;
  _control_latency := _control_latency self;
  _pybullet_client := _pybullet_client self;
  _motor_model := _motor_model self; _action_filter := _action_filter self;
  _joint_states := _joint_states self;
  _base_orientation := _base_orientation self; _observed_motor_torques := v;
  _observation_history := _observation_history self;
  _control_observation := _control_observation self;
  _overheat_counter := _overheat_counter self;
  _motor_enabled_list := _motor_enabled_list self;
  _filter_action := _filter_action self; _action := _action self;
  _last_action := _last_action self;
  _state_action_counter := _state_action_counter self;
  step_counter := step_counter self |}.

Definition with_observation_history (v : list (list Q)) (self : Minitaur) : Minitaur :=
  {| descriptor := descriptor self;
  _control_latency := _control_latency self;
  _pybullet_client := _pybullet_client self;
  _motor_model := _motor_model self; _action_filter := _action_filter self;
  _joint_states := _joint_states self;
  _base_orientation := _base_orientation self;
  _observed_motor_torques := _observed_motor_torques self;
  _observation_history := v;
  _control_observation := _control_observation self;
  _overheat_counter := _overheat_counter self;
  _motor_enabled_list := _motor_enabled_list self;
  _filter_action := _filter_action self; _action := _action self;
  _last_action := _last_action self;
  _state_action_counter := _state_action_counter self;
  step_counter := step_counter self |}.

Definition with_control_observation (v : list Q) (self : Minitaur) : Minitaur :=
  {| descriptor := descriptor self;
  _control_latency := _control_latency self;
  _pybullet_client := _pybullet_client self;
  _motor_model := _motor_model self; _action_filter := _action_filter self;
  _joint_states := _joint_states self;
  _base_orientation := _base_orientation self;
  _observed_motor_torques := _observed_motor_torques self;
  _observation_history := _observation_history self;
  _control_observation := v; _overheat_counter := _overheat_counter self;
  _motor_enabled_list := _motor_enabled_list self;
  _filter_action := _filter_action self; _action := _action self;
  _last_action := _last_action self;
  _state_action_counter := _state_action_counter self;
  step_counter := step_counter self |}.

Definition with_overheat_counter (v : list Z) (self : Minitaur) : Minitaur :=
  {| descriptor := descriptor self;
  _control_latency := _control_latency self;
  _pybullet_client := _pybullet_client self;
  _motor_model := _motor_model self; _action_filter := _action_filter self;
  _joint_states := _joint_states self;
  _base_orientation := _base_orientation self;
  _observed_motor_torques := _observed_motor_torques self;
  _observation_history := _observation_history self;
  _control_observation := _control_observation self; _overheat_counter := v;
  _motor_enabled_list := _motor_enabled_list self;
  _filter_action := _filter_action self; _action := _action self;
  _last_action := _last_action self;
  _state_action_counter := _state_action_counter self;
  step_counter := step_counter self |}.

Definition with_motor_enabled_list (v : list bool) (self : Minitaur) : Minitaur :=
  {| descriptor := descriptor self;
  _control_latency := _control_latency self;
  _pybullet_client := _pybullet_client self;
  _motor_model := _motor_model self; _action_filter := _action_filter self;
  _joint_states := _joint_states self;
  _base_orientation := _base_orientation self;
  _observed_motor_torques := _observed_motor_torques self;
  _observation_history := _observation_history self;
  _control_observation := _control_observation self;
  _overheat_counter := _overheat_counter self; _motor_enabled_list := v;
  _filter_action := _filter_action self; _action := _action self;
  _last_action := _last_action self;
  _state_action_counter := _state_action_counter self;
  step_counter := step_counter self |}.

Definition with_filter_action (v : option Np.array) (self : Minitaur) : Minitaur :=
  {| descriptor := descriptor self;
  _control_latency := _control_latency self;
  _pybullet_client := _pybullet_client self;
  _motor_model := _motor_model self; _action_filter := _action_filter self;
  _joint_states := _joint_states self;
  _base_orientation := _base_orientation self;
  _observed_motor_torques := _observed_motor_torques self;
  _observation_history := _observation_history self;
  _control_observation := _control_observation self;
  _overheat_counter := _overheat_counter self;
  _motor_enabled_list := _motor_enabled_list self; _filter_action := v;
  _action := _action self; _last_action := _last_action self;
  _state_action_counter := _state_action_counter self;
  step_counter := step_counter self |}.

Definition with_action (v : Np.array) (self : Minitaur) : Minitaur :=
  {| descriptor := descriptor self;
  _control_latency := _control_latency self;
  _pybullet_client := _pybullet_client self;
  _motor_model := _motor_model self; _action_filter := _action_filter self;
  _joint_states := _joint_states self;
  _base_orientation := _base_orientation self;
  _observed_motor_torques := _observed_motor_torques self;
  _observation_history := _observation_history self;
  _control_observation := _control_observation self;
  _overheat_counter := _overheat_counter self;
  _motor_enabled_list := _motor_enabled_list self;
  _filter_action := _filter_action self; _action := v;
  _last_action := _last_action self;
  _state_action_counter := _state_action_counter self;
  step_counter := step_counter self |}.

Definition with_last_action (v : Np.array) (self : Minitaur) : Minitaur :=
  {| descriptor := descriptor self;
  _control_latency := _control_latency self;
  _pybullet_client := _pybullet_client self;
  _motor_model := _motor_model self; _action_filter := _action_filter self;
  _joint_states := _joint_states self;
  _base_orientation := _base_orientation self;
  _observed_motor_torques := _observed_motor_torques self;
  _observation_history := _observation_history self;
  _control_observation := _control_observation self;
  _overheat_counter := _overheat_counter self;
  _motor_enabled_list := _motor_enabled_list self;
  _filter_action := _filter_action self; _action := _action self;
  _last_action := v; _state_action_counter := _state_action_counter self;
  step_counter := step_counter self |}.

Definition with_state_action_counter (v : Z) (self : Minitaur) : Minitaur :=
  {| descriptor := descriptor self;
  _control_latency := _control_latency self;
  _pybullet_client := _pybullet_client self;
  _motor_model := _motor_model self; _action_filter := _action_filter self;
  _joint_states := _joint_states self;
  _base_orientation := _base_orientation self;
  _observed_motor_torques := _observed_motor_torques self;
  _observation_history := _observation_history self;
  _control_observation := _control_observation self;
  _overheat_counter := _overheat_counter self;
  _motor_enabled_list := _motor_enabled_list self;
  _filter_action := _filter_action self; _action := _action self;
  _last_action := _last_action self; _state_action_counter := v;
  step_counter := step_counter self |}.

Definition with_step_counter (v : Z) (self : Minitaur) : Minitaur :=
  {| descriptor := descriptor self;
  _control_latency := _control_latency self;
  _pybullet_client := _pybullet_client self;
  _motor_model := _motor_model self; _action_filter := _action_filter self;
  _joint_states := _joint_states self;
  _base_orientation := _base_orientation self;
  _observed_motor_torques := _observed_motor_torques self;
  _observation_history := _observation_history self;
  _control_observation := _control_observation self;
  _overheat_counter := _overheat_counter self;
  _motor_enabled_list := _motor_enabled_list self;
  _filter_action := _filter_action self; _action := _action self;
  _last_action := _last_action self;
  _state_action_counter := _state_action_counter self; step_counter := v |}.

(** *** Observation history and delayed observations *)

(** [collections.deque(maxlen=100).appendleft]: the entry pushed out at the
    right end is the oldest one. *)
Definition deque_maxlen : nat := 100.
Definition appendleft (x : list Q) (d : list (list Q)) : list (list Q) :=
  take deque_maxlen (x :: d).

Definition _get_delay_obs (self : Minitaur) (latency : Q)
  : result (list Q) :=
  let history := _observation_history self in
  if Qle_bool latency 0 || (length history =? 1)%nat then
    index history 0
  else
    steps ← truediv latency (time_step self);
    let n_steps_ago := int steps in
    if (Z.of_nat (length history) <=? n_steps_ago + 1)%Z then
      index history (-1)
    else
      let remaining_latency :=
        latency - inject_Z n_steps_ago * time_step self in
      blend_alpha ← truediv remaining_latency (time_step self);
      newer ← index history n_steps_ago;
      older ← index history (n_steps_ago + 1);
      Np.add (Np.scale (1 - blend_alpha) newer) (Np.scale blend_alpha older).

Definition _get_pd_obs (self : Minitaur) : result (Np.array * Np.array) :=
  pd_delayed_observation ← _get_delay_obs self (_pd_latency self);
  let q := slice pd_delayed_observation 0 (num_motors self) in
  let qdot :=
    slice pd_delayed_observation (num_motors self) (2 * num_motors self) in
  Ok (q, qdot).

Definition _get_ctrl_obs (self : Minitaur) : result (list Q) :=
  _get_delay_obs self (_control_latency self).

Definition _add_sensor_noise (self : Minitaur) (sensor_values : Np.array)
    (noise_stdev : Q) : result Np.array :=
  if Qle_bool noise_stdev 0 then Ok sensor_values
  else Np.add sensor_values
         (np_random_normal self noise_stdev (length sensor_values)).

Definition set_ctrl_latency (self : Minitaur) (latency : Q) : Minitaur :=
  with_control_latency latency self.

Definition get_time_since_reset (self : Minitaur) : Q :=
  inject_Z (_state_action_counter self) * time_step self.

(** *** True and reported motor readings *)

Definition get_true_motor_angles (self : Minitaur) : result Np.array :=
  let motor_angles := map fst (_joint_states self) in
  shifted ← Np.sub motor_angles (_motor_offset self);
  Np.multiply shifted (_motor_direction self).

Definition get_true_motor_vel (self : Minitaur) : result Np.array :=
  let motor_velocities := map snd (_joint_states self) in
  Np.multiply motor_velocities (_motor_direction self).

Definition get_true_motor_tau (self : Minitaur) : Np.array :=
  _observed_motor_torques self.

Definition get_true_base_orientation (self : Minitaur) : list Q :=
  _base_orientation self.

(** The engine is asked for the angular velocity and transforms it to the
    base frame. *)
Definition get_true_base_rpy_rate (self : Minitaur) : list Q :=
  Bullet.local_angular_velocity (Bullet.reading (_pybullet_client self)).

Definition get_true_obs (self : Minitaur) : result (list Q) :=
  angles ← get_true_motor_angles self;
  vel ← get_true_motor_vel self;
  Ok (angles ++ vel ++ get_true_motor_tau self
        ++ get_true_base_orientation self ++ get_true_base_rpy_rate self).

Definition receive_obs (self : Minitaur) : result Minitaur :=
  let sim := Bullet.reading (_pybullet_client self) in
  let self := with_joint_states (Bullet.getJointStates sim) self in
  let self :=
    with_base_orientation (Bullet.relative_base_orientation sim) self in
  obs ← get_true_obs self;
  let self :=
    with_observation_history (appendleft obs (_observation_history self))
      self in
  ctrl ← _get_ctrl_obs self;
  Ok (with_control_observation ctrl self).

(** [math.pi] is the double 3.141592653589793. *)
Definition math_pi : Q := 884279719003555 # 281474976710656.
Definition TWO_PI : Q := 2 * math_pi.

(** [math.fmod(x, y)]: the remainder has the sign of [x]. *)
Definition fmod (x y : Q) : Q := x - inject_Z (int (x / y)) * y.

(** Modelled from the spec: [pose3d.MapToMinusPiToPi] is code of the
    repository that is not under src/.  The docstring of [get_motor_angles]
    says the reported angles are mapped to [-pi, pi]; the body below is the
    loop that [Quadruped.GetMotorAngles] (robots/quadruped.py) runs in its
    place: the remainder of the division by [TWO_PI], moved by one turn when
    it falls outside [-pi, pi). *)
Definition MapToMinusPiToPi (angles : Np.array) : Np.array :=
  map (fun angle =>
         let mapped := fmod angle TWO_PI in
         if Qle_bool math_pi mapped then mapped - TWO_PI
         else if Qltb mapped (- math_pi) then mapped + TWO_PI
         else mapped) angles.

Definition get_motor_angles (self : Minitaur) : result Np.array :=
  stdev ← index (_observation_noise_stdev self) 0;
  motor_angles ←
    _add_sensor_noise self
      (slice (_control_observation self) 0 (num_motors self)) stdev;
  Ok (MapToMinusPiToPi motor_angles).

(** *** Action shaping *)

Definition process_action (self : Minitaur) (action : Np.array)
    (substep_count : Z) : result Np.array :=
  if _enable_action_interpolation self then
    prev_action ← match _filter_action self with
                  | Some a => Ok a
                  | None => get_motor_angles self
                  end;
    lerp ← truediv (inject_Z (substep_count + 1))
             (inject_Z (_action_repeat self));
    delta ← Np.sub action prev_action;
    Np.add prev_action (Np.scale lerp delta)
  else Ok action.

Definition _clip_motor_commands (self : Minitaur) (motor_commands : Np.array)
  : result Np.array :=
  let max_angle_change := _max_motor_angle_step self in
  current_motor_angles ← get_motor_angles self;
  Np.clip motor_commands
    (Np.sub_scalar current_motor_angles max_angle_change)
    (Np.add_scalar current_motor_angles max_angle_change).

Definition _reset_action_filter (self : Minitaur) : Minitaur :=
  with_action_filter
    (ActionFilter.send ActionFilter.reset (_action_filter self)) self.

Definition _filter (self : Minitaur) (action : Np.array)
  : result (Np.array * Minitaur) :=
  self ← (if (_state_action_counter self =? 0)%Z then
            default_action ← get_motor_angles self;
            Ok (with_action_filter
                  (ActionFilter.send (ActionFilter.init_history default_action)
                     (_action_filter self)) self)
          else Ok self);
  let '(filtered_action, f) :=
    ActionFilter.do_filter action (_action_filter self) in
  Ok (filtered_action, with_action_filter f self).

Definition set_act (self : Minitaur) (action : Np.array) : result Minitaur :=
  action ← Np.iadd action (_init_motor_angle self);
  let self := with_last_action action self in
  if _enable_action_filter self then
    '(filtered, self) ← _filter self action;
    Ok (with_action filtered self)
  else Ok self.

(** *** Safety monitor *)

(** One pass of the loop body of [_apply_overheat_protection], for motor
    [i], on the pair ([_overheat_counter], [_motor_enabled_list]). *)
Definition overheat_body (self : Minitaur) (actual_torque : Np.array)
    (i : nat) (s : list Z * list bool) : result (list Z * list bool) :=
  let '(counter, enabled) := s in
  torque ← index actual_torque (Z.of_nat i);
  c ← index counter (Z.of_nat i);
  let c' := if Qltb (_overheat_shutdown_tau self) (Qabs torque)
            then (c + 1)%Z else 0%Z in
  let counter := <[i := c']> counter in
  limit ← truediv (_overheat_shutdown_time self) (time_step self);
  if Qltb limit (inject_Z c') then
    if (i <? length enabled)%nat then Ok (counter, <[i := false]> enabled)
    else Raise IndexError
  else Ok (counter, enabled).

Definition _apply_overheat_protection (self : Minitaur)
    (actual_torque : Np.array) : result Minitaur :=
  if _motor_overheat_protection self then
    '(counter, enabled) ←
      for_each (overheat_body self actual_torque)
        (seq 0 (num_motors self))
        (_overheat_counter self, _motor_enabled_list self);
    Ok (with_motor_enabled_list enabled (with_overheat_counter counter self))
  else Ok self.

(** The loop of [apply_action] over
    [zip(_motor_id_list, _applied_motor_torque, _motor_enabled_list)]. *)
Fixpoint gated_torques (ids : list Z) (applied : Np.array)
    (enabled : list bool) : list Z * list Q :=
  match ids, applied, enabled with
  | motor_id :: ids', motor_torque :: applied', motor_enabled :: enabled' =>
      let '(motor_ids, motor_torques) := gated_torques ids' applied' enabled' in
      if motor_enabled then (motor_id :: motor_ids, motor_torque :: motor_torques)
      else (motor_id :: motor_ids, 0 :: motor_torques)
  | _, _, _ => ([], [])
  end.

Definition _set_motor_tau_by_ids (self : Minitaur) (motor_ids : list Z)
    (torques : list Q) : Minitaur :=
  with_pybullet_client
    (Bullet.setJointMotorControlArray motor_ids torques
       (_pybullet_client self)) self.

Definition apply_action (self : Minitaur) (motor_commands : Np.array)
    (motor_control_mode : option Motor.MotorControlMode) : result Minitaur :=
  motor_commands ← _clip_motor_commands self motor_commands;
  let control_mode :=
    match motor_control_mode with
    | Some m => m
    | None => _motor_control_mode self
    end in
  '(q, qdot) ← _get_pd_obs self;
  qdot_true ← get_true_motor_vel self;
  let '(actual_torque, observed_torque) :=
    _motor_model self motor_commands q qdot qdot_true control_mode in
  self ← _apply_overheat_protection self actual_torque;
  let self := with_observed_motor_torques observed_torque self in
  applied_motor_torque ← Np.multiply actual_torque (_motor_direction self);
  let '(motor_ids, motor_torques) :=
    gated_torques (_motor_id_list self) applied_motor_torque
      (_motor_enabled_list self) in
  Ok (_set_motor_tau_by_ids self motor_ids motor_torques).

Definition robot_step (self : Minitaur) (i : Z) : result Minitaur :=
  proc_action ← process_action self (_action self) i;
  self ← apply_action self proc_action None;
  let self :=
    with_state_action_counter (_state_action_counter self + 1)%Z self in
  if (i =? _action_repeat self - 1)%Z then
    Ok (with_step_counter (step_counter self + 1)%Z
          (with_filter_action (Some (_action self)) self))
  else Ok self.

(** The engine answers the three reset calls ([resetBasePositionAndOrientation],
    [resetBaseVelocity], [reset_pose]) with the readings [after_reset].
    [randomize_env] stands for the loop over [self._randomizers]; the
    sensors' [on_reset] callbacks read the robot and are left out. *)
Definition reset (self : Minitaur) (after_reset : Bullet.SimReading)
    (randomize_env : Minitaur -> result Minitaur) : result Minitaur :=
  let self :=
    with_pybullet_client
      (Bullet.with_reading after_reset (_pybullet_client self)) self in
  let self := with_overheat_counter (replicate (num_motors self) 0%Z) self in
  let self := with_motor_enabled_list (replicate (num_motors self) true) self in
  let self := with_observation_history [] self in
  let self := with_step_counter 0%Z self in
  let self := with_state_action_counter 0%Z self in
  let self := with_filter_action None self in
  let self := with_last_action (Np.zeros (num_motors self)) self in
  receive_obs self ≫= fun self : Minitaur =>
  let self :=
    if _enable_action_filter self then _reset_action_filter self else self in
  if _enable_randomizer self then randomize_env self else Ok self.

(** *** Mass and inertia setters

    A setter returns the robot it leaves behind together with the exception
    it raised, if any. *)

Definition base_mass_length_error (given expected : nat) : exn :=
  ValueError ("The length of base_mass " +:+ str_of_nat given +:+
              " and self._chassis_link_ids " +:+ str_of_nat expected +:+
              " are not the same.").

Definition leg_mass_length_error : exn :=
  ValueError ("The number of values passed to set_leg_mass are " +:+
              "different than number of leg links and motors.").

Definition base_inertia_length_error (given expected : nat) : exn :=
  ValueError ("The length of base_inertias " +:+ str_of_nat given +:+
              " and self._chassis_link_ids " +:+ str_of_nat expected +:+
              " are not the same.").

Definition negative_inertia_error : exn :=
  ValueError "Values in inertia matrix should be non-negative.".

Fixpoint change_masses (ids : list Z) (masses : list Q)
    (client : Bullet.BulletClient) : Bullet.BulletClient :=
  match ids, masses with
  | link_id :: ids', m :: masses' =>
      change_masses ids' masses' (Bullet.changeDynamics_mass link_id m client)
  | _, _ => client
  end.

Definition set_base_mass (self : Minitaur) (base_mass : list Q)
  : Minitaur * option exn :=
  if negb (length base_mass =? length (_chassis_link_ids self))%nat then
    (self, Some (base_mass_length_error (length base_mass)
                   (length (_chassis_link_ids self))))
  else
    (with_pybullet_client
       (change_masses (_chassis_link_ids self) base_mass
          (_pybullet_client self)) self, None).

Definition set_leg_mass (self : Minitaur) (leg_masses : list Q)
  : Minitaur * option exn :=
  if negb (length leg_masses =?
           length (_leg_link_ids self) + length (_motor_link_ids self))%nat
  then (self, Some leg_mass_length_error)
  else
    let client :=
      change_masses (_leg_link_ids self) leg_masses (_pybullet_client self) in
    let motor_masses := drop (length (_leg_link_ids self)) leg_masses in
    (with_pybullet_client
       (change_masses (_motor_link_ids self) motor_masses client) self, None).

(** [(np.asarray(v) < 0).any()] for a scalar and for a row. *)
Definition negative (v : Q) : bool := Qltb v 0.
Definition any_negative (row : list Q) : bool := existsb negative row.

(** The loops over [zip(ids, inertias)]: [rejected inertia] is the outcome
    of the inner loop that guards the write of [inertia]. *)
Fixpoint change_inertias (rejected : list Q -> bool) (ids : list Z)
    (inertias : list (list Q)) (client : Bullet.BulletClient)
  : Bullet.BulletClient * option exn :=
  match ids, inertias with
  | link_id :: ids', inertia :: inertias' =>
      if rejected inertia then (client, Some negative_inertia_error)
      else change_inertias rejected ids' inertias'
             (Bullet.changeDynamics_inertia link_id inertia client)
  | _, _ => (client, None)
  end.

Definition set_base_inertia (self : Minitaur) (base_inertias : list (list Q))
  : Minitaur * option exn :=
  if negb (length base_inertias =? length (_chassis_link_ids self))%nat then
    (self, Some (base_inertia_length_error (length base_inertias)
                   (length (_chassis_link_ids self))))
  else
    let '(client, e) :=
      change_inertias any_negative (_chassis_link_ids self) base_inertias
        (_pybullet_client self) in
    (with_pybullet_client client self, e).

(** In both loops the inner [for] ranges over the whole list being zipped
    ([leg_inertias], then [motor_inertias]), not over the current row. *)
Definition set_leg_inertia (self : Minitaur) (leg_inertias : list (list Q))
  : Minitaur * option exn :=
  if negb (length leg_inertias =?
           length (_leg_link_ids self) + length (_motor_link_ids self))%nat
  then (self, Some leg_mass_length_error)
  else
    let '(client, e) :=
      change_inertias (fun _ => existsb any_negative leg_inertias)
        (_leg_link_ids self) leg_inertias (_pybullet_client self) in
    match e with
    | Some _ => (with_pybullet_client client self, e)
    | None =>
        let motor_inertias := drop (length (_leg_link_ids self)) leg_inertias in
        let '(client, e) :=
          change_inertias (fun _ => existsb any_negative motor_inertias)
            (_motor_link_ids self) motor_inertias client in
        (with_pybullet_client client self, e)
    end.

(** *** An episode

    What the environment and the randomizer do with the robot between two
    resets, one call at a time.  [stepSimulation] moves the engine to new
    readings before [receive_obs]; the setters of battery voltage, viscous
    damping and motor strength act on the motor model only, which leaves
    the robot with another [convert_to_torque]. *)

Inductive call : Type :=
| step_and_receive_obs (sim : Bullet.SimReading)
| call_set_act (action : Np.array)
| call_robot_step (i : Z)
| call_apply_action (motor_commands : Np.array)
    (motor_control_mode : option Motor.MotorControlMode)
| call_set_ctrl_latency (latency : Q)
| call_set_base_mass (base_mass : list Q)
| call_set_leg_mass (leg_masses : list Q)
| call_set_base_inertia (base_inertias : list (list Q))
| call_set_leg_inertia (leg_inertias : list (list Q))
| motor_model_setter (model : Motor.MotorModel).

Definition is_setter (c : call) : bool :=
  match c with
  | call_set_ctrl_latency _ | call_set_base_mass _ | call_set_leg_mass _
  | call_set_base_inertia _ | call_set_leg_inertia _ | motor_model_setter _ =>
      true
  | _ => false
  end.

(** The calls of a sub-step that is not the last one of its control step:
    [robot_step(i)] with [i] other than [_action_repeat - 1], and the
    simulation step followed by [receive_obs]. *)
Definition is_substep_call (action_repeat : Z) (c : call) : bool :=
  match c with
  | step_and_receive_obs _ => true
  | call_robot_step i => negb (i =? action_repeat - 1)%Z
  | _ => false
  end.

Definition raise_if_any (outcome : Minitaur * option exn) : result Minitaur :=
  match outcome with
  | (self, None) => Ok self
  | (_, Some e) => Raise e
  end.

Definition with_motor_model (v : Motor.MotorModel) (self : Minitaur)
  : Minitaur :=
  {| descriptor := descriptor self; _control_latency := _control_latency self;
     _pybullet_client := _pybullet_client self; _motor_model := v;
     _action_filter := _action_filter self;
     _joint_states := _joint_states self;
     _base_orientation := _base_orientation self;
     _observed_motor_torques := _observed_motor_torques self;
     _observation_history := _observation_history self;
     _control_observation := _control_observation self;
     _overheat_counter := _overheat_counter self;
     _motor_enabled_list := _motor_enabled_list self;
     _filter_action := _filter_action self; _action := _action self;
     _last_action := _last_action self;
     _state_action_counter := _state_action_counter self;
     step_counter := step_counter self |}.

Definition run_call (c : call) (self : Minitaur) : result Minitaur :=
  match c with
  | step_and_receive_obs sim =>
      receive_obs
        (with_pybullet_client
           (Bullet.with_reading sim (_pybullet_client self)) self)
  | call_set_act action => set_act self action
  | call_robot_step i => robot_step self i
  | call_apply_action motor_commands mode =>
      apply_action self motor_commands mode
  | call_set_ctrl_latency latency => Ok (set_ctrl_latency self latency)
  | call_set_base_mass base_mass => raise_if_any (set_base_mass self base_mass)
  | call_set_leg_mass leg_masses => raise_if_any (set_leg_mass self leg_masses)
  | call_set_base_inertia base_inertias =>
      raise_if_any (set_base_inertia self base_inertias)
  | call_set_leg_inertia leg_inertias =>
      raise_if_any (set_leg_inertia self leg_inertias)
  | motor_model_setter model => Ok (with_motor_model model self)
  end.

Definition run (calls : list call) (self : Minitaur) : result Minitaur :=
  for_each run_call calls self.

End Minitaur.

(** ** The randomization engine
    (envs/utilities/randomizer/controllable_env_randomizer_from_config.py) *)

Module Randomizer.
Import Py.

Definition NUM_LEGS : Z := 4.

(** What [_randomization_param_value_dict] holds for a parameter: the
    normalized sample, as a float, a one-dimensional array, or the list
    [[leg_to_weaken, normalized_ratio]] of "leg weaken". *)
Inductive value : Type :=
| Float (x : Q)
| Array (v : Np.array)
| LegRatio (leg_to_weaken : Z) (normalized_ratio : Q).

(** [np.random.RandomState]: the variates of [random_sample] still to come,
    how many were consumed, and the stream each seed starts. *)
Record RandomState : Type := {
  seeded : Z -> nat -> Q;
  stream : nat -> Q;
  drawn : nat
}.

Definition seed (s : Z) (r : RandomState) : RandomState :=
  {| seeded := seeded r; stream := seeded r s; drawn := 0 |}.

Definition random_sample (r : RandomState) : Q * RandomState :=
  (stream r (drawn r),
   {| seeded := seeded r; stream := stream r; drawn := S (drawn r) |}).

(** [uniform(low, high)] is [low + (high - low) * random_sample()]. *)
Definition uniform (low high : Q) (r : RandomState) : Q * RandomState :=
  let '(u, r) := random_sample r in (low + (high - low) * u, r).

(** [uniform([low] * size, [high] * size)] *)
Fixpoint uniform_array (low high : Q) (size : nat) (r : RandomState)
  : Np.array * RandomState :=
  match size with
  | O => ([], r)
  | S size' =>
      let '(x, r) := uniform low high r in
      let '(xs, r) := uniform_array low high size' r in
      (x :: xs, r)
  end.

(** [randint(high)]: an integer of [[0, high)]. *)
Definition randint (high : Z) (r : RandomState) : Z * RandomState :=
  let '(u, r) := random_sample r in (Qfloor (inject_Z high * u), r).

(** The robot as the randomizer uses it: the getters it reads ... *)
Record Robot : Type := {
  get_base_mass_from_urdf : list Q;
  get_leg_mass_from_urdf : list Q;
  get_base_inertia_from_urdf : list (list Q);
  get_leg_inertia_from_urdf : list (list Q);
  get_num_knee_joints : nat;
  num_motors : nat
}.

(** ... and the setters it calls, with the physical values it passes. *)
Inductive setter : Type :=
| set_base_mass (base_mass : Np.array)
| set_leg_mass (leg_masses : Np.array)
| set_base_inertia (base_inertias : list Np.array)
| set_leg_inertia (leg_inertias : list Np.array)
| set_ctrl_latency (latency : Q)
| set_joint_friction (joint_frictions : Np.array)
| set_motor_viscous_damping (viscous_damping : Q)
| set_foot_restitution (foot_restitution : Q)
| set_foot_friction (foot_friction : Q)
| set_battery_voltage (voltage : Q)
| set_motor_strength_ratios (ratios : Np.array).

(** [_randomization_param_dict] and [_rejection_param_range] are dicts
    whose order of insertion matters to [items()]: association lists with
    distinct keys.  [_randomization_function_dict] is rebuilt from the robot
    at every use and is not part of the state. *)
Record ControllableEnvRandomizerFromConfig : Type := {
  _randomization_param_dict : list (string * list Q);
  _randomization_param_value_dict : gmap string value;
  _randomization_seed : option Z;
  _param_bounds : Q * Q;
  _suspend_randomization : bool;
  _np_random : RandomState;
  _rejection_param_range : list (string * (Q * Q))
}.

Definition with_param_value_dict (v : gmap string value)
    (self : ControllableEnvRandomizerFromConfig) :=
  {| _randomization_param_dict := _randomization_param_dict self;
     _randomization_param_value_dict := v;
     _randomization_seed := _randomization_seed self;
     _param_bounds := _param_bounds self;
     _suspend_randomization := _suspend_randomization self;
     _np_random := _np_random self;
     _rejection_param_range := _rejection_param_range self |}.

Definition with_np_random (v : RandomState)
    (self : ControllableEnvRandomizerFromConfig) :=
  {| _randomization_param_dict := _randomization_param_dict self;
     _randomization_param_value_dict := _randomization_param_value_dict self;
     _randomization_seed := _randomization_seed self;
     _param_bounds := _param_bounds self;
     _suspend_randomization := _suspend_randomization self;
     _np_random := v;
     _rejection_param_range := _rejection_param_range self |}.

Definition with_rejection_param_range (v : list (string * (Q * Q)))
    (self : ControllableEnvRandomizerFromConfig) :=
  {| _randomization_param_dict := _randomization_param_dict self;
     _randomization_param_value_dict := _randomization_param_value_dict self;
     _randomization_seed := _randomization_seed self;
     _param_bounds := _param_bounds self;
     _suspend_randomization := _suspend_randomization self;
     _np_random := _np_random self;
     _rejection_param_range := v |}.

Definition with_suspend_randomization (v : bool)
    (self : ControllableEnvRandomizerFromConfig) :=
  {| _randomization_param_dict := _randomization_param_dict self;
     _randomization_param_value_dict := _randomization_param_value_dict self;
     _randomization_seed := _randomization_seed self;
     _param_bounds := _param_bounds self;
     _suspend_randomization := v;
     _np_random := _np_random self;
     _rejection_param_range := _rejection_param_range self |}.

(** [sorted(d.items())]: keys are distinct, so the order is that of the
    keys, compared character by character. *)
Definition key_le {V : Type} (x y : string * V) : Prop :=
  String.leb (fst x) (fst y) = true.

#[global] Instance key_le_dec {V : Type} : RelDecision (@key_le V).
Proof. intros x y. unfold key_le. apply _. Defined.

Definition sorted_items {V : Type} (d : list (string * V))
  : list (string * V) := merge_sort key_le d.

Definition dict_get {V : Type} (d : list (string * V)) (k : string)
  : option V := snd <$> List.find (fun kv => String.eqb (fst kv) k) d.

(** [d[k] = v] keeps the position of a key already present. *)
Fixpoint dict_set {V : Type} (k : string) (v : V) (d : list (string * V))
  : list (string * V) :=
  match d with
  | [] => [(k, v)]
  | (k', v') :: d' =>
      if String.eqb k' k then (k, v) :: d' else (k', v') :: dict_set k v d'
  end.

(** *** The per-parameter methods

    Each one draws the normalized sample unless [parameters] gives it,
    records it under its name, maps it to the target range and hands the
    physical value to the robot.  A method is embedded on samples of the
    shape it draws itself; a replayed parameter of another shape raises
    [TypeError] here. *)

Section Methods.
Variable self : ControllableEnvRandomizerFromConfig.
Variable minitaur : Robot.
Variables lower_bound upper_bound : Q.
Variable parameters : option value.

Let low := fst (_param_bounds self).
Let high := snd (_param_bounds self).

Definition record (name : string) (sample : value)
  : ControllableEnvRandomizerFromConfig :=
  with_param_value_dict
    (<[name := sample]> (_randomization_param_value_dict self)) self.

(** [(sample - bounds[0]) / (bounds[1] - bounds[0])
     * (upper_bound - lower_bound) + lower_bound].  With equal bounds the
    float division raises; on an array numpy would produce inf or nan,
    for which there is no rational, and the embedding raises as well. *)
Definition transform (sample : Q) : result Q :=
  ratio ← truediv (sample - low) (high - low);
  Ok (ratio * (upper_bound - lower_bound) + lower_bound).

Fixpoint transform_array (sample : Np.array) : result Np.array :=
  match sample with
  | [] => Ok []
  | s :: sample' =>
      x ← transform s; xs ← transform_array sample'; Ok (x :: xs)
  end.

(** [sample = uniform(bounds[0], bounds[1])] or [sample = parameters] *)
Definition float_sample : result (Q * RandomState) :=
  match parameters with
  | None => Ok (uniform low high (_np_random self))
  | Some (Float s) => Ok (s, _np_random self)
  | Some _ => Raise TypeError
  end.

(** [sample = uniform([bounds[0]] * dim, [bounds[1]] * dim)] or
    [sample = parameters] *)
Definition array_sample (dim : nat) : result (Np.array * RandomState) :=
  match parameters with
  | None => Ok (uniform_array low high dim (_np_random self))
  | Some (Array s) => Ok (s, _np_random self)
  | Some _ => Raise TypeError
  end.

(** The method ends with [robot.SetTimeSteps(randomized_control_step)].  The
    robot [Minitaur.reset] hands to the randomizer defines [set_time_steps]
    and no [SetTimeSteps], so that call raises [AttributeError], after the
    sample has been stored and the step computed. *)
Definition _randomize_control_step
  : result (ControllableEnvRandomizerFromConfig * list setter) :=
  '(sample, rng) ← float_sample;
  let self := with_np_random rng (record "control step" (Float sample)) in
  randomized_control_step ← transform sample;
  let randomized_control_step := int randomized_control_step in
  Raise (AttributeError "SetTimeSteps").

Definition _randomize_masses
  : result (ControllableEnvRandomizerFromConfig * list setter) :=
  '(sample, rng) ← array_sample 2;
  let self := with_np_random rng (record "mass" (Array sample)) in
  randomized_mass_ratios ← transform_array sample;
  let base_mass := get_base_mass_from_urdf minitaur in
  random_base_ratio ← index randomized_mass_ratios 0;
  let randomized_base_mass := Np.scale random_base_ratio base_mass in
  let leg_masses := get_leg_mass_from_urdf minitaur in
  random_leg_ratio ← index randomized_mass_ratios 1;
  let randomized_leg_masses := Np.scale random_leg_ratio leg_masses in
  Ok (self, [set_base_mass randomized_base_mass;
             set_leg_mass randomized_leg_masses]).

Definition _randomize_individual_masses
  : result (ControllableEnvRandomizerFromConfig * list setter) :=
  let base_mass := get_base_mass_from_urdf minitaur in
  let leg_masses := get_leg_mass_from_urdf minitaur in
  let param_dim := (length base_mass + length leg_masses)%nat in
  '(sample, rng) ← array_sample param_dim;
  let self := with_np_random rng (record "individual mass" (Array sample)) in
  randomized_mass_ratios ← transform_array sample;
  let random_base_ratio :=
    slice randomized_mass_ratios 0 (length base_mass) in
  randomized_base_mass ← Np.multiply random_base_ratio base_mass;
  let random_leg_ratio := drop (length base_mass) randomized_mass_ratios in
  randomized_leg_masses ← Np.multiply random_leg_ratio leg_masses;
  Ok (self, [set_base_mass randomized_base_mass;
             set_leg_mass randomized_leg_masses]).

Definition _randomize_basemass
  : result (ControllableEnvRandomizerFromConfig * list setter) :=
  '(sample, rng) ← float_sample;
  let self := with_np_random rng (record "base mass" (Float sample)) in
  randomized_mass_ratios ← transform sample;
  let base_mass := get_base_mass_from_urdf minitaur in
  let randomized_base_mass := Np.scale randomized_mass_ratios base_mass in
  Ok (self, [set_base_mass randomized_base_mass]).

Definition _randomize_individual_inertia
  : result (ControllableEnvRandomizerFromConfig * list setter) :=
  let base_inertia := get_base_inertia_from_urdf minitaur in
  let leg_inertia := get_leg_inertia_from_urdf minitaur in
  let param_dim := ((length base_inertia + length leg_inertia) * 3)%nat in
  '(sample, rng) ← array_sample param_dim;
  let self :=
    with_np_random rng (record "individual inertia" (Array sample)) in
  randomized_inertia_ratios ← transform_array sample;
  random_base_ratio ←
    Np.reshape3
      (slice randomized_inertia_ratios 0 (length base_inertia * 3))
      (length base_inertia);
  randomized_base_inertia ← Np.multiply2 random_base_ratio base_inertia;
  random_leg_ratio ←
    Np.reshape3 (drop (length base_inertia * 3) randomized_inertia_ratios)
      (length leg_inertia);
  randomized_leg_inertia ← Np.multiply2 random_leg_ratio leg_inertia;
  Ok (self, [set_base_inertia randomized_base_inertia;
             set_leg_inertia randomized_leg_inertia]).

Definition _randomize_inertia
  : result (ControllableEnvRandomizerFromConfig * list setter) :=
  '(sample, rng) ← array_sample 2;
  let self := with_np_random rng (record "inertia" (Array sample)) in
  randomized_inertia_ratios ← transform_array sample;
  let base_inertia := get_base_inertia_from_urdf minitaur in
  random_base_ratio ← index randomized_inertia_ratios 0;
  let randomized_base_inertia :=
    map (Np.scale random_base_ratio) base_inertia in
  let leg_inertia := get_leg_inertia_from_urdf minitaur in
  random_leg_ratio ← index randomized_inertia_ratios 1;
  let randomized_leg_inertia :=
    map (Np.scale random_leg_ratio) leg_inertia in
  Ok (self, [set_base_inertia randomized_base_inertia;
             set_leg_inertia randomized_leg_inertia]).

Definition _randomize_latency
  : result (ControllableEnvRandomizerFromConfig * list setter) :=
  '(sample, rng) ← float_sample;
  let self := with_np_random rng (record "latency" (Float sample)) in
  randomized_latency ← transform sample;
  Ok (self, [set_ctrl_latency randomized_latency]).

Definition _randomize_joint_friction
  : result (ControllableEnvRandomizerFromConfig * list setter) :=
  let num_knee_joints := get_num_knee_joints minitaur in
  '(sample, rng) ← array_sample num_knee_joints;
  let self := with_np_random rng (record "joint friction" (Array sample)) in
  randomized_joint_frictions ← transform_array sample;
  Ok (self, [set_joint_friction randomized_joint_frictions]).

Definition _randomize_motor_friction
  : result (ControllableEnvRandomizerFromConfig * list setter) :=
  '(sample, rng) ← float_sample;
  let self := with_np_random rng (record "motor friction" (Float sample)) in
  randomized_motor_damping ← transform sample;
  Ok (self, [set_motor_viscous_damping randomized_motor_damping]).

Definition _randomize_contact_restitution
  : result (ControllableEnvRandomizerFromConfig * list setter) :=
  '(sample, rng) ← float_sample;
  let self := with_np_random rng (record "restitution" (Float sample)) in
  randomized_restitution ← transform sample;
  Ok (self, [set_foot_restitution randomized_restitution]).

Definition _randomize_contact_friction
  : result (ControllableEnvRandomizerFromConfig * list setter) :=
  '(sample, rng) ← float_sample;
  let self :=
    with_np_random rng (record "lateral friction" (Float sample)) in
  randomized_foot_friction ← transform sample;
  Ok (self, [set_foot_friction randomized_foot_friction]).

Definition _randomize_battery_level
  : result (ControllableEnvRandomizerFromConfig * list setter) :=
  '(sample, rng) ← float_sample;
  let self := with_np_random rng (record "battery" (Float sample)) in
  randomized_battery_voltage ← transform sample;
  Ok (self, [set_battery_voltage randomized_battery_voltage]).

Definition _randomize_global_motor_strength
  : result (ControllableEnvRandomizerFromConfig * list setter) :=
  '(sample, rng) ← float_sample;
  let self :=
    with_np_random rng (record "global motor strength" (Float sample)) in
  randomized_motor_strength_ratio ← transform sample;
  Ok (self, [set_motor_strength_ratios
               (replicate (num_motors minitaur)
                  randomized_motor_strength_ratio)]).

Definition _randomize_motor_strength
  : result (ControllableEnvRandomizerFromConfig * list setter) :=
  '(sample, rng) ← array_sample (num_motors minitaur);
  let self := with_np_random rng (record "motor strength" (Array sample)) in
  randomized_motor_strength_ratios ← transform_array sample;
  Ok (self, [set_motor_strength_ratios randomized_motor_strength_ratios]).

(** [int(minitaur.num_motors / NUM_LEGS)] *)
Definition motor_per_leg : Z := (Z.of_nat (num_motors minitaur) / NUM_LEGS)%Z.

(** [ratios = np.ones(num_motors);
     ratios[leg * motor_per_leg:(leg + 1) * motor_per_leg] = ratio] *)
Definition weakened_ratios (leg_to_weaken : Z) (leg_weaken_ratio : Q)
  : Np.array :=
  Np.slice_assign (Np.ones (num_motors minitaur))
    (leg_to_weaken * motor_per_leg) ((leg_to_weaken + 1) * motor_per_leg)
    leg_weaken_ratio.

Definition _randomize_leg_weakening
  : result (ControllableEnvRandomizerFromConfig * list setter) :=
  '(leg_to_weaken, normalized_ratio, rng) ←
    match parameters with
    | None =>
        let '(leg_to_weaken, rng) := randint NUM_LEGS (_np_random self) in
        let '(normalized_ratio, rng) := uniform low high rng in
        Ok (leg_to_weaken, normalized_ratio, rng)
    | Some (LegRatio leg_to_weaken normalized_ratio) =>
        Ok (leg_to_weaken, normalized_ratio, _np_random self)
    | Some _ => Raise TypeError
    end;
  let self :=
    with_np_random rng
      (record "leg weaken" (LegRatio leg_to_weaken normalized_ratio)) in
  leg_weaken_ratio ← transform normalized_ratio;
  Ok (self, [set_motor_strength_ratios
               (weakened_ratios leg_to_weaken leg_weaken_ratio)]).

Definition _randomize_single_leg_weakening
  : result (ControllableEnvRandomizerFromConfig * list setter) :=
  let leg_to_weaken := 0%Z in
  '(normalized_ratio, rng) ← float_sample;
  let self :=
    with_np_random rng
      (record "single leg weaken" (Float normalized_ratio)) in
  leg_weaken_ratio ← transform normalized_ratio;
  Ok (self, [set_motor_strength_ratios
               (weakened_ratios leg_to_weaken leg_weaken_ratio)]).

End Methods.


(** *** The engine *)

Definition method : Type :=
  ControllableEnvRandomizerFromConfig -> Q -> Q -> option value ->
  result (ControllableEnvRandomizerFromConfig * list setter).

Definition _build_randomization_function_dict (robot : Robot)
  : list (string * method) :=
  [ ("mass", fun self => _randomize_masses self robot);
    ("individual mass", fun self => _randomize_individual_masses self robot);
    ("base mass", fun self => _randomize_basemass self robot);
    ("inertia", fun self => _randomize_inertia self robot);
    ("individual inertia",
      fun self => _randomize_individual_inertia self robot);
    ("latency", fun self => _randomize_latency self);
    ("joint friction", fun self => _randomize_joint_friction self robot);
    ("motor friction", fun self => _randomize_motor_friction self);
    ("restitution", fun self => _randomize_contact_restitution self);
    ("lateral friction", fun self => _randomize_contact_friction self);
    ("battery", fun self => _randomize_battery_level self);
    ("motor strength", fun self => _randomize_motor_strength self robot);
    ("global motor strength",
      fun self => _randomize_global_motor_strength self robot);
    ("control step", fun self => _randomize_control_step self);
    ("leg weaken", fun self => _randomize_leg_weakening self robot);
    ("single leg weaken",
      fun self => _randomize_single_leg_weakening self robot) ].

(** [d[k]] on a dict *)
Definition getitem {V : Type} (d : list (string * V)) (k : string)
  : result V :=
  match dict_get d k with
  | Some v => Ok v
  | None => Raise (KeyError k)
  end.

(** [np.any(value < low) or np.any(value > high)]; comparing the list of
    "leg weaken" with a float is a [TypeError]. *)
Definition outside (randomized_value : value) (low high : Q) : result bool :=
  match randomized_value with
  | Float x => Ok (Qltb x low || Qltb high x)
  | Array v =>
      Ok (existsb (fun x => Qltb x low) v || existsb (fun x => Qltb high x) v)
  | LegRatio _ _ => Raise TypeError
  end.

Fixpoint check_in_rejection_range (values : gmap string value)
    (ranges : list (string * (Q * Q))) : result bool :=
  match ranges with
  | [] => Ok true
  | (param_name, reject_random_range) :: ranges' =>
      randomized_value ←
        match values !! param_name with
        | Some v => Ok v
        | None => Raise (KeyError param_name)
        end;
      out ← outside randomized_value (fst reject_random_range)
              (snd reject_random_range);
      if (out : bool) then Ok false
      else check_in_rejection_range values ranges'
  end.

Definition _check_all_randomization_parameter_in_rejection_range
    (self : ControllableEnvRandomizerFromConfig) : result bool :=
  check_in_rejection_range (_randomization_param_value_dict self)
    (sorted_items (_rejection_param_range self)).

(** [self._randomization_function_dict[param_name](
       lower_bound=random_range[0], upper_bound=random_range[1])];
    the setter calls made so far are carried along. *)
Definition sample_parameter (robot : Robot) (item : string * list Q)
    (s : ControllableEnvRandomizerFromConfig * list setter)
  : result (ControllableEnvRandomizerFromConfig * list setter) :=
  let '(param_name, random_range) := item in
  let '(self, calls) := s in
  f ← getitem (_build_randomization_function_dict robot) param_name;
  lower_bound ← index random_range 0;
  upper_bound ← index random_range 1;
  '(self, new_calls) ← (f : method) self lower_bound upper_bound None;
  Ok (self, calls ++ new_calls).

(** The body of the first loop of [randomize_env]. *)
Definition sample_and_register (robot : Robot) (item : string * list Q)
    (s : ControllableEnvRandomizerFromConfig * list setter)
  : result (ControllableEnvRandomizerFromConfig * list setter) :=
  '(self, calls) ← sample_parameter robot item s;
  let '(param_name, random_range) := item in
  if (length random_range =? 4)%nat then
    reject_low ← index random_range 2;
    reject_high ← index random_range 3;
    Ok (with_rejection_param_range
          (dict_set param_name (reject_low, reject_high)
             (_rejection_param_range self)) self, calls)
  else Ok (self, calls).

(** The [while] loop of [randomize_env]: [None] when [fuel] evaluations of
    the condition were not enough to leave it. *)
Fixpoint rejection_loop (fuel : nat) (robot : Robot)
    (s : ControllableEnvRandomizerFromConfig * list setter)
  : option (result (ControllableEnvRandomizerFromConfig * list setter)) :=
  match fuel with
  | O => None
  | S fuel' =>
      match _check_all_randomization_parameter_in_rejection_range (fst s) with
      | Raise e => Some (Raise e)
      | Ok false => Some (Ok s)
      | Ok true =>
          match for_each (sample_parameter robot)
                  (sorted_items (_randomization_param_dict (fst s))) s with
          | Raise e => Some (Raise e)
          | Ok s' => rejection_loop fuel' robot s'
          end
      end
  end.

(** [self._randomization_function_dict[param_name](
       lower_bound=random_range[0], upper_bound=random_range[1],
       parameters=randomization_parameters[param_name])].
    [randomization_parameters] and [self._randomization_param_value_dict]
    are one and the same dict after the first statement of
    [set_env_from_randomization_parameters], so the parameter is read from
    the current state of the latter. *)
Definition replay_parameter (robot : Robot) (item : string * list Q)
    (s : ControllableEnvRandomizerFromConfig * list setter)
  : result (ControllableEnvRandomizerFromConfig * list setter) :=
  let '(param_name, random_range) := item in
  let '(self, calls) := s in
  f ← getitem (_build_randomization_function_dict robot) param_name;
  lower_bound ← index random_range 0;
  upper_bound ← index random_range 1;
  parameters ←
    match _randomization_param_value_dict self !! param_name with
    | Some v => Ok v
    | None => Raise (KeyError param_name)
    end;
  '(self, new_calls) ←
    (f : method) self lower_bound upper_bound (Some parameters);
  Ok (self, calls ++ new_calls).

Definition set_env_from_randomization_parameters
    (self : ControllableEnvRandomizerFromConfig)
    (randomization_parameters : gmap string value) (robot : Robot)
  : result (ControllableEnvRandomizerFromConfig * list setter) :=
  let self := with_param_value_dict randomization_parameters self in
  for_each (replay_parameter robot) (_randomization_param_dict self)
    (self, []).

Definition get_randomization_parameters
    (self : ControllableEnvRandomizerFromConfig) : gmap string value :=
  _randomization_param_value_dict self.

(** [randomize_env] returns the randomizer it leaves and the setter calls
    it made on the robot, in order. *)
Definition randomize_env (fuel : nat)
    (self : ControllableEnvRandomizerFromConfig) (robot : Robot)
  : option (result (ControllableEnvRandomizerFromConfig * list setter)) :=
  if negb (_suspend_randomization self) then
    let self :=
      match _randomization_seed self with
      | Some s => with_np_random (seed s (_np_random self)) self
      | None => self
      end in
    let self := with_rejection_param_range [] self in
    match for_each (sample_and_register robot)
            (sorted_items (_randomization_param_dict self)) (self, []) with
    | Raise e => Some (Raise e)
    | Ok s =>
        match _rejection_param_range (fst s) with
        | [] => Some (Ok s)
        | _ :: _ => rejection_loop fuel robot s
        end
    end
  else if bool_decide (_randomization_param_value_dict self = ∅) then
    Some (Ok (self, []))
  else
    Some (set_env_from_randomization_parameters self
            (_randomization_param_value_dict self) robot).

End Randomizer.

(** ** The robot: [Quadruped] (robots/quadruped.py)

    The class carries the attributes of [Minitaur] under the same names, with
    [sim_time_step] for [time_step]; the thresholds of the safety monitor and
    the clamp are module constants instead of attributes.  The methods below
    are the ones whose text differs from their [Minitaur] counterparts. *)

Module Quadruped.
Import Py Minitaur.

Definition OVERHEAT_SHUTDOWN_TORQUE : Q := 245 # 100.
Definition OVERHEAT_SHUTDOWN_TIME : Q := 1.
Definition MAX_MOTOR_ANGLE_CHANGE_PER_STEP : Q := 2 # 10.

Abbreviation Quadruped := Minitaur.Minitaur.
Definition sim_time_step (self : Quadruped) : Q := time_step self.

Definition GetMotorAngles (self : Quadruped) : result Np.array :=
  stdev ← index (_observation_noise_stdev self) 0;
  motor_angles ←
    _add_sensor_noise self
      (slice (_control_observation self) 0
         (num_motors self)) stdev;
  Ok (map (fun angle =>
             let mapped := fmod angle TWO_PI in
             if Qle_bool math_pi mapped
             then mapped - TWO_PI
             else if Qltb mapped (- math_pi)
                  then mapped + TWO_PI
                  else mapped) motor_angles).

Definition ProcessAction (self : Quadruped) (action : Np.array)
    (substep_count : Z) : result Np.array :=
  if _enable_action_interpolation self then
    prev_action ← match _filter_action self with
                  | Some a => Ok a
                  | None => GetMotorAngles self
                  end;
    lerp ← truediv (inject_Z (substep_count + 1))
             (inject_Z (_action_repeat self));
    delta ← Np.sub action prev_action;
    Np.add prev_action (Np.scale lerp delta)
  else Ok action.

Definition _ClipMotorCommands (self : Quadruped) (motor_commands : Np.array)
  : result Np.array :=
  let max_angle_change := MAX_MOTOR_ANGLE_CHANGE_PER_STEP in
  current_motor_angles ← GetMotorAngles self;
  Np.clip motor_commands
    (Np.sub_scalar current_motor_angles max_angle_change)
    (Np.add_scalar current_motor_angles max_angle_change).

Definition overheat_body (self : Quadruped) (actual_torque : Np.array)
    (i : nat) (s : list Z * list bool) : result (list Z * list bool) :=
  let '(counter, enabled) := s in
  torque ← index actual_torque (Z.of_nat i);
  c ← index counter (Z.of_nat i);
  let c' := if Qltb OVERHEAT_SHUTDOWN_TORQUE (Qabs torque)
            then (c + 1)%Z else 0%Z in
  let counter := <[i := c']> counter in
  limit ← truediv OVERHEAT_SHUTDOWN_TIME (sim_time_step self);
  if Qltb limit (inject_Z c') then
    if (i <? length enabled)%nat then Ok (counter, <[i := false]> enabled)
    else Raise IndexError
  else Ok (counter, enabled).

Definition _ApplyOverheatProtection (self : Quadruped)
    (actual_torque : Np.array) : result Quadruped :=
  if _motor_overheat_protection self then
    '(counter, enabled) ←
      for_each (overheat_body self actual_torque)
        (seq 0 (num_motors self))
        (_overheat_counter self, _motor_enabled_list self);
    Ok (with_motor_enabled_list enabled
          (with_overheat_counter counter self))
  else Ok self.

End Quadruped.

(** ** Arithmetic: exact and in double precision

    Python floats are IEEE 754 doubles.  The three computations below are
    the ones whose results are compared for equality: they are embedded over
    an arbitrary arithmetic, operation by operation, and read both over the
    rationals and over binary64 (the Standard Library's [spec_float] with a
    53-bit significand, every operation rounded to nearest even).  A function
    takes the attributes of [self] that its body reads. *)

Module Arith.
Import Py.

Class Number (F : Type) : Type := {
  zero : F;                      (* the literal [0] *)
  one : F;                       (* the literal [1.0] *)
  float : Z -> result F;         (* [float(n)], also of an [int] operand *)
  add : F -> F -> F;
  sub : F -> F -> F;
  mul : F -> F -> F;
  div : F -> F -> result F;      (* [x / y] *)
  trunc : F -> result Z;         (* [int(x)] *)
  leb : F -> F -> bool           (* [x <= y] *)
}.

#[global] Instance exact : Number Q := {|
  zero := 0;
  one := 1;
  float := fun n => Ok (inject_Z n);
  add := Qplus;
  sub := Qminus;
  mul := Qmult;
  div := Py.truediv;
  trunc := fun x => Ok (Py.int x);
  leb := Qle_bool
|}.

(** *** binary64 *)

Definition binary64 : Type := spec_float.
Definition prec : Z := 53.
Definition emax : Z := 1024.

(** [float(n)]: the nearest double; [OverflowError] beyond the largest. *)
Definition b64_float (n : Z) : result binary64 :=
  match binary_normalize prec emax n 0 false with
  | S754_infinity _ | S754_nan => Raise OverflowError
  | x => Ok x
  end.

(** [x / y] on Python floats raises on a zero divisor. *)
Definition b64_div (x y : binary64) : result binary64 :=
  match y with
  | S754_zero _ => Raise ZeroDivisionError
  | _ => Ok (SFdiv prec emax x y)
  end.

(** [int(x)]: the significand shifted by the exponent, toward zero. *)
Definition b64_trunc (x : binary64) : result Z :=
  match x with
  | S754_zero _ => Ok 0%Z
  | S754_finite s m e =>
      Ok (cond_Zopp s match e with
                      | Zneg p => Z.shiftr (Zpos m) (Zpos p)
                      | _ => Z.shiftl (Zpos m) e
                      end)
  | S754_infinity _ => Raise OverflowError
  | S754_nan => Raise (ValueError "cannot convert float NaN to integer")
  end.

#[global] Instance double : Number binary64 := {|
  zero := S754_zero false;
  one := S754_finite false 4503599627370496 (-52);
  float := b64_float;
  add := SFadd prec emax;
  sub := SFsub prec emax;
  mul := SFmul prec emax;
  div := b64_div;
  trunc := b64_trunc;
  leb := SFleb
|}.

(** The double a decimal literal [n / d] denotes, for [n] and [d] that are
    doubles themselves: the quotient is rounded once. *)
Definition decimal (n d : Z) : binary64 :=
  SFdiv prec emax (binary_normalize prec emax n 0 false)
    (binary_normalize prec emax d 0 false).

Section Over.
Context {F : Type} `{Number F}.

(** numpy on one-dimensional arrays, as in [Np] *)
Definition binop (f : F -> F -> F) (x y : list F) : result (list F) :=
  if (length x =? length y)%nat then Ok (zip_with f x y)
  else match x, y with
       | [a], _ => Ok (map (f a) y)
       | _, [b] => Ok (map (fun a => f a b) x)
       | _, _ => Raise Np.shape_error
       end.

Definition scale (c : F) (x : list F) : list F := map (mul c) x.

(** [Minitaur._get_delay_obs] *)
Definition _get_delay_obs (time_step : F)
    (_observation_history : list (list F)) (latency : F) : result (list F) :=
  let history := _observation_history in
  if leb latency zero || (length history =? 1)%nat then
    index history 0
  else
    steps ← div latency time_step;
    n_steps_ago ← trunc steps;
    if (Z.of_nat (length history) <=? n_steps_ago + 1)%Z then
      index history (-1)
    else
      n ← float n_steps_ago;
      let remaining_latency := sub latency (mul n time_step) in
      blend_alpha ← div remaining_latency time_step;
      newer ← index history n_steps_ago;
      older ← index history (n_steps_ago + 1);
      binop add (scale (sub one blend_alpha) newer) (scale blend_alpha older).

(** [Minitaur.process_action] and [Quadruped.ProcessAction];
    [get_motor_angles] is the outcome of [self.get_motor_angles()]. *)
Definition process_action (_enable_action_interpolation : bool)
    (_filter_action : option (list F)) (get_motor_angles : result (list F))
    (_action_repeat : Z) (action : list F) (substep_count : Z)
  : result (list F) :=
  if _enable_action_interpolation then
    prev_action ← match _filter_action with
                  | Some a => Ok a
                  | None => get_motor_angles
                  end;
    count ← float (substep_count + 1);
    action_repeat ← float _action_repeat;
    lerp ← div count action_repeat;
    delta ← binop sub action prev_action;
    binop add prev_action (scale lerp delta)
  else Ok action.

(** The transform of the [_randomize_*] methods:
    [(sample - bounds[0]) / (bounds[1] - bounds[0])
     * (upper_bound - lower_bound) + lower_bound] *)
Definition transform (_param_bounds : F * F) (lower_bound upper_bound : F)
    (sample : F) : result F :=
  ratio ← div (sub sample (fst _param_bounds))
             (sub (snd _param_bounds) (fst _param_bounds));
  Ok (add (mul ratio (sub upper_bound lower_bound)) lower_bound).

End Over.

End Arith.

(** ** A small robot and a small randomizer to evaluate the embedding on *)

Module Example.
Import Py Minitaur.

(** Readings of a two-motor robot: both joints at 0.5 rad, at rest. *)
Definition sim : Bullet.SimReading :=
  {| Bullet.getJointStates := [(1 # 2, 0); (1 # 2, 0)];
     Bullet.relative_base_orientation := [0; 0; 0; 1];
     Bullet.local_angular_velocity := [0; 0; 0] |}.

Definition client : Bullet.BulletClient :=
  {| Bullet.reading := sim;
     Bullet.link_mass := {[ (-1)%Z := 5; 0%Z := 1 ]};
     Bullet.link_inertia := {[ (-1)%Z := [1; 1; 1]; 0%Z := [1; 1; 1] ]};
     Bullet.torque_control := ([], []) |}.

(** The constants are those of robots/quadruped.py; sensor noise and motor
    overheat protection are what both constructors set. *)
Definition robot_descriptor (protection : bool) : Descriptor :=
  {| num_motors := 2;
     _action_repeat := 4;
     time_step := 1 # 100;
     _init_motor_angle := [0; 0];
     _motor_direction := [1; 1];
     _motor_offset := [0; 0];
     _pd_latency := 0;
     _motor_control_mode := Motor.POSITION;
     _overheat_shutdown_tau := 245 # 100;
     _overheat_shutdown_time := 2 # 100;
     _max_motor_angle_step := 2 # 10;
     _observation_noise_stdev := [0; 0; 0; 0; 0];
     _motor_overheat_protection := protection;
     _enable_action_interpolation := true;
     _enable_action_filter := true;
     _enable_randomizer := true;
     _chassis_link_ids := [(-1)%Z; 0%Z];
     _leg_link_ids := [1%Z];
     _motor_link_ids := [2%Z];
     _motor_id_list := [10%Z; 11%Z];
     np_random_normal := fun _ size => replicate size 0 |}.

(** A motor model that answers every command with 3 Nm on both motors, and a
    filter that passes its input through. *)
Definition stiff_motor : Motor.MotorModel :=
  fun _ _ _ _ _ => ([3; 3], [3; 3]).

Definition passthrough : ActionFilter.ActionFilterButter :=
  {| ActionFilter.calls := [];
     ActionFilter.response := fun log =>
       match last log with
       | Some (ActionFilter.filter action) => action
       | _ => []
       end |}.

(** An observation whose motor angles are [a] and [b]. *)
Definition observation (a b : Q) : list Q :=
  [a; b; 0; 0; 0; 0; 0; 0; 0; 1; 0; 0; 0].

Definition make_robot (protection : bool) (latency : Q)
    (history : list (list Q)) (control : list Q) : Minitaur :=
  {| descriptor := robot_descriptor protection;
     _control_latency := latency;
     _pybullet_client := client;
     _motor_model := stiff_motor;
     _action_filter := passthrough;
     _joint_states := [(1 # 2, 0); (1 # 2, 0)];
     _base_orientation := [0; 0; 0; 1];
     _observed_motor_torques := [0; 0];
     _observation_history := history;
     _control_observation := control;
     _overheat_counter := [0%Z; 0%Z];
     _motor_enabled_list := [true; true];
     _filter_action := None;
     _action := [0; 0];
     _last_action := [0; 0];
     _state_action_counter := 0;
     step_counter := 0 |}.

(** Five recorded observations, newest first. *)
Definition five : list (list Q) :=
  [observation 0 0; observation 1 1; observation 2 2; observation 3 3;
   observation 4 4].

Definition robot : Minitaur :=
  make_robot false (1 # 100) five (observation 1 1).

(** A generator whose every variate is 1/2, and the robot constants the
    randomizer reads. *)
Definition halves : Randomizer.RandomState :=
  {| Randomizer.seeded := fun _ _ => 1 # 2;
     Randomizer.stream := fun _ => 1 # 2;
     Randomizer.drawn := 0 |}.

Definition view : Randomizer.Robot :=
  {| Randomizer.get_base_mass_from_urdf := [5; 1];
     Randomizer.get_leg_mass_from_urdf := [1; 1];
     Randomizer.get_base_inertia_from_urdf := [[1; 1; 1]; [1; 1; 1]];
     Randomizer.get_leg_inertia_from_urdf := [[1; 1; 1]; [1; 1; 1]];
     Randomizer.get_num_knee_joints := 1;
     Randomizer.num_motors := 2 |}.

(** The same constants for a robot with eight motors, two on each of its
    four legs. *)
Definition eight_motors : Randomizer.Robot :=
  {| Randomizer.get_base_mass_from_urdf := [5; 1];
     Randomizer.get_leg_mass_from_urdf := [1; 1];
     Randomizer.get_base_inertia_from_urdf := [[1; 1; 1]; [1; 1; 1]];
     Randomizer.get_leg_inertia_from_urdf := [[1; 1; 1]; [1; 1; 1]];
     Randomizer.get_num_knee_joints := 4;
     Randomizer.num_motors := 8 |}.

Definition make_randomizer (config : list (string * list Q))
    (values : gmap string Randomizer.value) (suspend : bool)
  : Randomizer.ControllableEnvRandomizerFromConfig :=
  {| Randomizer._randomization_param_dict := config;
     Randomizer._randomization_param_value_dict := values;
     Randomizer._randomization_seed := None;
     Randomizer._param_bounds := (-1, 1);
     Randomizer._suspend_randomization := suspend;
     Randomizer._np_random := halves;
     Randomizer._rejection_param_range := [] |}.

(** Latency drawn from [0, 10] s, to be rejected inside [4, 6]. *)
Definition rejecting : Randomizer.ControllableEnvRandomizerFromConfig :=
  make_randomizer [("latency", [0; 10; 4; 6])] ∅ false.

(** Motor strength and battery voltage, inserted in that order. *)
Definition two_params : list (string * list Q) :=
  [("motor strength", [8 # 10; 12 # 10]); ("battery", [14; 168 # 10])].

(** Per-motor strength and then global motor strength: the names are not
    inserted in sorted order. *)
Definition strengths : list (string * list Q) :=
  [("motor strength", [8 # 10; 12 # 10]);
   ("global motor strength", [5 # 10; 6 # 10])].

(** One recorded observation with both motors at 0 rad, while the engine now
    reports them at 0.5 rad; the control latency is one step. *)
Definition stale : Minitaur :=
  make_robot false (1 # 100) [observation 0 0] (observation 0 0).

(** The same robot with motor overheat protection switched on; the time
    limit of 0.02 s is two steps. *)
Definition guarded : Minitaur :=
  make_robot true (1 # 100) five (observation 1 1).

(** Readings after the joints have moved on to 0.6 rad. *)
Definition moved : Bullet.SimReading :=
  {| Bullet.getJointStates := [(6 # 10, 0); (6 # 10, 0)];
     Bullet.relative_base_orientation := [0; 0; 0; 1];
     Bullet.local_angular_velocity := [0; 0; 0] |}.

(** Whole numbers as doubles, and 31 one-entry observations 0.0, 1.0, ...,
    30.0, newest first: entry [k] holds the number [k]. *)
Definition whole (n : Z) : Arith.binary64 :=
  binary_normalize Arith.prec Arith.emax n 0 false.

Definition ramp : list (list Arith.binary64) :=
  map (fun k => [whole (Z.of_nat k)]) (seq 0 31).

End Example.

(** * Properties *)

Import Py Minitaur.

(** ** Arithmetic and array facts *)

Section PreludeFacts.

Lemma bind_Ok {A B : Type} (a : A) (k : A -> result B) : (Ok a ≫= k) = k a.
Proof. reflexivity. Qed.

Lemma for_each_cons {A S : Type} (body : A -> S -> result S) (a : A)
    (l : list A) (s : S) :
  for_each body (a :: l) s = (body a s ≫= for_each body l).
Proof. reflexivity. Qed.

Lemma for_each_app {A S : Type} (body : A -> S -> result S) (l1 l2 : list A)
    (s : S) :
  for_each body (l1 ++ l2) s = (for_each body l1 s ≫= for_each body l2).
Proof.
  revert s. induction l1 as [|a l1 IH]; intros s; [reflexivity|].
  rewrite <- app_comm_cons, !for_each_cons.
  destruct (body a s); simpl; [apply IH | reflexivity].
Qed.

Lemma Qltb_lt (x y : Q) : Qltb x y = true <-> x < y.
Proof.
  unfold Qltb. rewrite negb_true_iff.
  destruct (Qle_bool y x) eqn:E.
  - apply Qle_bool_iff in E. split; [discriminate|]. intros H.
    exfalso. apply (Qlt_not_le x y H E).
  - split; [|reflexivity]. intros _. apply Qnot_le_lt. intros H.
    apply Qle_bool_iff in H. congruence.
Qed.

Lemma Qltb_ge (x y : Q) : Qltb x y = false <-> y <= x.
Proof.
  unfold Qltb. rewrite negb_false_iff. apply Qle_bool_iff.
Qed.

Lemma Qle_bool_false (x y : Q) : Qle_bool x y = false <-> y < x.
Proof.
  rewrite <- (Qltb_lt y x). unfold Qltb.
  destruct (Qle_bool x y); simpl; split; congruence.
Qed.

Lemma int_floor (x : Q) : 0 <= x -> int x = Qfloor x.
Proof.
  intros H. destruct x as [n d]. unfold int, Qfloor. simpl.
  apply Z.quot_div_nonneg; [|lia].
  unfold Qle in H. simpl in H. lia.
Qed.

Lemma int_inject_Z (k : Z) (x : Q) : x == inject_Z k -> int x = k.
Proof.
  intros H. destruct x as [n d]. unfold int. simpl.
  unfold Qeq in H. simpl in H.
  replace n with (k * Z.pos d)%Z by lia.
  apply Z.quot_mul. lia.
Qed.

Lemma truediv_ok (x y : Q) : ~ y == 0 -> truediv x y = Ok (x / y).
Proof.
  intros H. unfold truediv.
  destruct (Qeq_bool y 0) eqn:E; [|reflexivity].
  apply Qeq_bool_eq in E. contradiction.
Qed.

Lemma truediv_zero (x y : Q) : y == 0 -> truediv x y = Raise ZeroDivisionError.
Proof.
  intros H. unfold truediv. now rewrite (Qeq_eq_bool _ _ H).
Qed.

Lemma index_nonneg {A : Type} (l : list A) (i : Z) (a : A) :
  (0 <= i)%Z -> l !! Z.to_nat i = Some a -> index l i = Ok a.
Proof.
  intros Hi Hl. unfold index.
  destruct (i <? 0)%Z eqn:E; [lia|]. rewrite E. now rewrite Hl.
Qed.

Lemma index_nat {A : Type} (l : list A) (i : nat) (a : A) :
  l !! i = Some a -> index l (Z.of_nat i) = Ok a.
Proof.
  intros H. apply index_nonneg; [lia|]. now rewrite Nat2Z.id.
Qed.

Lemma index_nat_inv {A : Type} (l : list A) (i : nat) (a : A) :
  index l (Z.of_nat i) = Ok a -> l !! i = Some a.
Proof.
  unfold index. destruct (Z.of_nat i <? 0)%Z eqn:E;
    [apply Z.ltb_lt in E; lia|].
  rewrite E, Nat2Z.id. destruct (l !! i); [|discriminate]. congruence.
Qed.

Lemma index_last {A : Type} (l : list A) (a : A) :
  last l = Some a -> index l (-1) = Ok a.
Proof.
  intros H. unfold index. simpl.
  assert (Hlen : (0 < length l)%nat).
  { destruct l; [discriminate | simpl; lia]. }
  destruct (Z.of_nat (length l) + -1 <? 0)%Z eqn:E; [lia|].
  rewrite last_lookup in H.
  replace (Z.to_nat (Z.of_nat (length l) + -1)) with (Nat.pred (length l))
    by lia.
  now rewrite H.
Qed.

Lemma binop_same_length (f : Q -> Q -> Q) (x y : Np.array) :
  length x = length y -> Np.binop f x y = Ok (Np.zip_with f x y).
Proof.
  intros H. unfold Np.binop. now rewrite H, Nat.eqb_refl.
Qed.

Lemma zip_with_length (f : Q -> Q -> Q) (x y : Np.array) :
  length x = length y -> length (Np.zip_with f x y) = length x.
Proof.
  revert y. induction x as [|a x IH]; intros [|b y]; simpl; try easy.
  intros H. f_equal. apply IH. lia.
Qed.

Lemma zip_with_lookup (f : Q -> Q -> Q) (x y : Np.array) (i : nat) (a b : Q) :
  x !! i = Some a -> y !! i = Some b -> Np.zip_with f x y !! i = Some (f a b).
Proof.
  revert y i. induction x as [|a' x IH]; intros [|b' y] [|i]; simpl; try easy.
  - intros [= ->] [= ->]. reflexivity.
  - apply IH.
Qed.

End PreludeFacts.

Lemma bind_inv {A B : Type} (m : result A) (k : A -> result B) (b : B) :
  (m ≫= k) = Ok b -> exists a, m = Ok a /\ k a = Ok b.
Proof. destruct m as [a|e]; [|discriminate]. intros H. now exists a. Qed.

(** Inversion of a successful sequence of two statements. *)
Ltac inv_bind H :=
  let a := fresh "a" in
  let E := fresh "E" in
  apply bind_inv in H as (a & E & H).

Tactic Notation "inv_bind_as" hyp(H) ident(a) ident(E) :=
  apply bind_inv in H as (a & E & H).

(** ** Arithmetic: the rationals *)

Section ExactArithmetic.

Lemma zip_with_exact (f : Q -> Q -> Q) (x y : list Q) :
  zip_with f x y = Np.zip_with f x y.
Proof.
  revert y. induction x as [|a x IH]; intros [|b y]; simpl; try reflexivity.
  now rewrite IH.
Qed.

Lemma binop_exact (f : Q -> Q -> Q) (x y : list Q) :
  Arith.binop f x y = Np.binop f x y.
Proof. unfold Arith.binop, Np.binop. now rewrite zip_with_exact. Qed.

(** Over the rationals the three functions are the ones of the robot and
    of the randomizer. *)
Lemma get_delay_obs_exact (self : Minitaur) (latency : Q) :
  _get_delay_obs self latency
  = Arith._get_delay_obs (time_step self) (_observation_history self) latency.
Proof.
  unfold _get_delay_obs, Arith._get_delay_obs. simpl.
  destruct (_ || _); [reflexivity|].
  destruct (truediv latency (time_step self)) as [steps|e]; [|reflexivity].
  simpl. destruct (_ <=? _)%Z; [reflexivity|].
  destruct (truediv _ _) as [blend|e]; [|reflexivity]. simpl.
  destruct (index _ _) as [newer|e]; [|reflexivity]. simpl.
  destruct (index _ _) as [older|e]; [|reflexivity]. simpl.
  now rewrite binop_exact.
Qed.

Lemma process_action_exact (self : Minitaur) (action : Np.array) (k : Z) :
  process_action self action k
  = Arith.process_action (_enable_action_interpolation self)
      (_filter_action self) (get_motor_angles self) (_action_repeat self)
      action k.
Proof.
  unfold process_action, Arith.process_action.
  destruct (_enable_action_interpolation self); [|reflexivity].
  assert (Htail : forall prev : Np.array,
             (lerp ← truediv (inject_Z (k + 1)) (inject_Z (_action_repeat self));
              delta ← Np.sub action prev;
              Np.add prev (Np.scale lerp delta))
             = (count ← Arith.float (k + 1);
                action_repeat ← Arith.float (_action_repeat self);
                lerp ← Arith.div count action_repeat;
                delta ← Arith.binop Arith.sub action prev;
                Arith.binop Arith.add prev (Arith.scale lerp delta))).
  { intros prev. simpl.
    destruct (truediv _ _) as [lerp|e]; [|reflexivity]. simpl.
    unfold Np.sub, Np.add. rewrite binop_exact.
    destruct (Np.binop Qminus action prev) as [delta|e]; [|reflexivity].
    simpl. now rewrite binop_exact. }
  destruct (_filter_action self) as [a|]; [apply Htail|].
  destruct (get_motor_angles self) as [a|e]; [apply Htail | reflexivity].
Qed.

Lemma transform_exact (self : Randomizer.ControllableEnvRandomizerFromConfig)
    (lo hi s : Q) :
  Randomizer.transform self lo hi s
  = Arith.transform (Randomizer._param_bounds self) lo hi s.
Proof. reflexivity. Qed.

End ExactArithmetic.

(** ** Arithmetic: binary64 *)

Section DoubleArithmetic.

Open Scope Z_scope.

Lemma b64_div_same (s : bool) (m : positive) (e : Z) :
  SFdiv Arith.prec Arith.emax (S754_finite s m e) (S754_finite s m e)
  = Arith.one (F := Arith.binary64).
Proof.
  unfold SFdiv, SFdiv_core_binary. cbn [Zdigits2].
  rewrite !Z.sub_diag.
  change (Z.min (fexp Arith.prec Arith.emax 0) 0) with (-53).
  change (0 - -53) with 53.
  cbv beta iota zeta.
  rewrite Z.shiftl_mul_pow2 by lia.
  assert (Hq : Z.div_eucl (Z.pos m * 2 ^ 53) (Z.pos m) = (2 ^ 53, 0)).
  { pose proof (Z.div_mul (2 ^ 53) (Z.pos m) ltac:(lia)) as Hd.
    pose proof (Z.mod_mul (2 ^ 53) (Z.pos m) ltac:(lia)) as Hm.
    rewrite Z.mul_comm in Hd, Hm. unfold Z.div, Z.modulo in Hd, Hm.
    destruct (Z.div_eucl (Z.pos m * 2 ^ 53) (Z.pos m)) as [q r].
    congruence. }
  rewrite Hq.
  assert (Hl : new_location (Z.pos m) 0 = loc_Exact).
  { unfold new_location, new_location_even, new_location_odd.
    now destruct (Z.even (Z.pos m)). }
  rewrite Hl. now destruct s.
Qed.

Lemma b64_sub_same (s : bool) (m : positive) (e : Z) :
  SFsub Arith.prec Arith.emax (S754_finite s m e) (S754_finite s m e)
  = S754_zero false.
Proof. unfold SFsub. now rewrite Z.sub_diag. Qed.

Lemma b64_sub_zero (s : bool) :
  SFsub Arith.prec Arith.emax (S754_zero s) (S754_zero s) = S754_zero false.
Proof. now destruct s. Qed.

Lemma b64_eqb_same (s : bool) (m : positive) (e : Z) :
  SFeqb (S754_finite s m e) (S754_finite s m e) = true.
Proof.
  unfold SFeqb, SFcompare.
  rewrite Z.compare_refl, Pos.compare_cont_refl. now destruct s.
Qed.

Lemma digits2_size (p : positive) : digits2_pos p = Pos.size p.
Proof. induction p as [p IH|p IH|]; simpl; now rewrite ?IH. Qed.

Lemma digits2_shift (k : positive) (p : positive) :
  digits2_pos (Pos.iter xO p k) = (digits2_pos p + k)%positive.
Proof.
  induction k as [|k IH] using Pos.peano_ind.
  - simpl. lia.
  - rewrite Pos.iter_succ. simpl. rewrite IH. lia.
Qed.

Lemma digits2_small (p : positive) :
  Z.pos p < 2 ^ 53 -> Z.pos (digits2_pos p) <= 53.
Proof.
  intros H. rewrite digits2_size.
  pose proof (Pos.size_le p) as Hle.
  destruct (Z.le_gt_cases (Z.pos (Pos.size p)) 53) as [|Hgt]; [assumption|].
  exfalso.
  assert (Hz : Z.pos (2 ^ Pos.size p) <= Z.pos p~0) by exact Hle.
  rewrite Pos2Z.inj_pow in Hz.
  assert (H54 : 2 ^ 54 <= 2 ^ Z.pos (Pos.size p))
    by (apply Z.pow_le_mono_r; lia).
  lia.
Qed.

(** [float(R)] of a whole number from 1 below 2^53 is a finite non-zero
    double. *)
Lemma b64_float_small (R : Z) :
  1 <= R < 2 ^ 53 ->
  exists m e, Arith.float (F := Arith.binary64) R = Ok (S754_finite false m e).
Proof.
  intros [H1 H2]. destruct R as [|p|p]; try lia.
  pose proof (digits2_small p H2) as Hd.
  cbn [Arith.float Arith.double]. unfold Arith.b64_float.
  cbn [binary_normalize]. unfold binary_round, shl_align.
  assert (Hf : fexp Arith.prec Arith.emax (Z.pos (digits2_pos p) + 0)
               = Z.pos (digits2_pos p) - 53).
  { unfold fexp, emin, Arith.prec, Arith.emax. lia. }
  rewrite Hf.
  assert (Hround : forall mz ez,
             Z.pos (digits2_pos mz) = 53 -> -52 <= ez <= 0 ->
             binary_round_aux Arith.prec Arith.emax false (Z.pos mz) ez
               loc_Exact = S754_finite false mz ez).
  { intros mz ez Hmz Hez. unfold binary_round_aux, shr_fexp.
    cbn [Zdigits2]. rewrite Hmz.
    assert (Hfe : fexp Arith.prec Arith.emax (53 + ez) - ez = 0).
    { unfold fexp, emin, Arith.prec, Arith.emax. lia. }
    rewrite Hfe. cbn [shr shr_record_of_loc shr_m loc_of_shr_record
                        round_nearest_even Zdigits2].
    rewrite Hmz, Hfe. cbn [shr shr_record_of_loc shr_m].
    assert (Hb : (ez <=? Arith.emax - Arith.prec) = true).
    { apply Z.leb_le. unfold Arith.prec, Arith.emax. lia. }
    now rewrite Hb. }
  destruct (Z.pos (digits2_pos p) - 53 - 0) as [|d|d] eqn:E; try lia.
  - exists p, 0. rewrite Hround; [reflexivity | lia | lia].
  - exists (Pos.iter xO p d), (Z.pos (digits2_pos p) - 53).
    rewrite Hround; [reflexivity | | lia].
    rewrite digits2_shift. lia.
Qed.

End DoubleArithmetic.

Section DoubleWhole.

Open Scope Z_scope.

Lemma iter_pos_nat {A : Type} (f : A -> A) (n : positive) :
  forall x, SpecFloat.iter_pos f n x = Nat.iter (Pos.to_nat n) f x.
Proof.
  induction n as [n IH|n IH|]; intros x; cbn [SpecFloat.iter_pos].
  - rewrite !IH, <- Nat.iter_succ_r, <- Nat.iter_add.
    f_equal. rewrite Pos2Nat.inj_xI. lia.
  - rewrite !IH, <- Nat.iter_add.
    f_equal. rewrite Pos2Nat.inj_xO. lia.
  - reflexivity.
Qed.

Lemma shr_1_positive (mrs : shr_record) (p : positive) :
  shr_m mrs = Z.pos p -> 2 <= Z.pos (digits2_pos p) ->
  exists q, shr_m (shr_1 mrs) = Z.pos q /\
            Z.pos (digits2_pos q) = Z.pos (digits2_pos p) - 1.
Proof.
  destruct mrs as [m r s]. cbn [shr_m]. intros -> Hd.
  destruct p as [p|p|]; cbn [shr_1 shr_m digits2_pos] in *;
    [exists p; split; [reflexivity | lia]
    |exists p; split; [reflexivity | lia]
    |lia].
Qed.

Lemma shr_iter_positive (n : nat) :
  forall (mrs : shr_record) (p : positive),
    shr_m mrs = Z.pos p -> Z.of_nat n < Z.pos (digits2_pos p) ->
    exists q, shr_m (Nat.iter n shr_1 mrs) = Z.pos q /\
              Z.pos (digits2_pos q) = Z.pos (digits2_pos p) - Z.of_nat n.
Proof.
  induction n as [|n IH]; intros mrs p Hm Hn.
  - exists p. split; [exact Hm | simpl; lia].
  - destruct (IH mrs p Hm ltac:(lia)) as (q & Hq & Hd).
    destruct (shr_1_positive _ q Hq ltac:(lia)) as (q' & Hq' & Hd').
    exists q'. cbn [Nat.iter nat_rect]. split; [exact Hq' | lia].
Qed.

Lemma shr_fexp_positive (p : positive) (e : Z) (l : location) :
  -1022 <= e ->
  exists q,
    shr_m (fst (shr_fexp Arith.prec Arith.emax (Z.pos p) e l)) = Z.pos q /\
    e <= snd (shr_fexp Arith.prec Arith.emax (Z.pos p) e l).
Proof.
  intros He. unfold shr_fexp. cbn [Zdigits2].
  assert (Hf : fexp Arith.prec Arith.emax (Z.pos (digits2_pos p) + e) - e
               = Z.pos (digits2_pos p) - 53).
  { unfold fexp, emin, Arith.prec, Arith.emax. lia. }
  rewrite Hf.
  assert (Hrec : shr_m (shr_record_of_loc (Z.pos p) l) = Z.pos p)
    by (destruct l as [|[]]; reflexivity).
  destruct (Z.pos (digits2_pos p) - 53) as [|d|d] eqn:E; cbn [shr fst snd].
  - exists p. split; [exact Hrec | lia].
  - rewrite iter_pos_nat.
    destruct (shr_iter_positive (Pos.to_nat d) _ p Hrec) as (q & Hq & _);
      [lia|].
    exists q. split; [exact Hq | lia].
  - exists p. split; [exact Hrec | lia].
Qed.

(** [float(R)] of a whole number [R >= 1] is a finite non-zero double,
    unless it overflows. *)
Lemma b64_float_positive (R : Z) (count : Arith.binary64) :
  1 <= R -> Arith.float R = Ok count ->
  exists m e, count = S754_finite false m e.
Proof.
  intros H1. destruct R as [|p|p]; try lia.
  cbn [Arith.float Arith.double]. unfold Arith.b64_float.
  cbn [binary_normalize]. unfold binary_round.
  destruct (shl_align p 0 _) as [mz ez] eqn:Ha.
  assert (Hez : -1022 <= ez).
  { unfold shl_align in Ha.
    assert (Hf : fexp Arith.prec Arith.emax (Z.pos (digits2_pos p) + 0)
                 = Z.pos (digits2_pos p) - 53).
    { unfold fexp, emin, Arith.prec, Arith.emax. lia. }
    rewrite Hf in Ha.
    destruct (Z.pos (digits2_pos p) - 53 - 0) eqn:E;
      injection Ha as _ <-; lia. }
  unfold binary_round_aux.
  destruct (shr_fexp_positive mz ez loc_Exact Hez) as (q & Hq & He1).
  destruct (shr_fexp Arith.prec Arith.emax (Z.pos mz) ez loc_Exact)
    as [mrs1 e1]. cbn [fst snd] in Hq, He1. rewrite Hq.
  assert (Hr : exists q', round_nearest_even (Z.pos q)
                            (loc_of_shr_record mrs1) = Z.pos q').
  { unfold round_nearest_even.
    destruct (loc_of_shr_record mrs1) as [|[]]; try (now exists q);
      try destruct (Z.even (Z.pos q)); try (now exists q);
      exists (q + 1)%positive; reflexivity. }
  destruct Hr as [q' ->].
  destruct (shr_fexp_positive q' e1 loc_Exact ltac:(lia)) as (q2 & Hq2 & _).
  destruct (shr_fexp Arith.prec Arith.emax (Z.pos q') e1 loc_Exact)
    as [mrs2 e2]. cbn [fst] in Hq2. rewrite Hq2.
  destruct (e2 <=? Arith.emax - Arith.prec); [|discriminate].
  intros [= <-]. eauto.
Qed.

End DoubleWhole.

(** ** Observation history: delayed observations *)

Section DelayedObservation.

Lemma eqv_refl (x : Np.array) : Np.eqv x x.
Proof. induction x; constructor; [reflexivity | assumption]. Qed.

Lemma blend_zero (b : Q) (x y : Np.array) :
  b == 0 -> length x = length y ->
  exists v, Np.add (Np.scale (1 - b) x) (Np.scale b y) = Ok v /\ Np.eqv v x.
Proof.
  intros Hb Hlen. unfold Np.add, Np.scale.
  rewrite binop_same_length by (now rewrite !length_map).
  eexists; split; [reflexivity|].
  revert y Hlen. induction x as [|a x IH]; intros [|c y] Hlen; simpl in *;
    try discriminate; constructor.
  - rewrite Hb. ring.
  - apply IH. lia.
Qed.

Variable self : Minitaur.
Variable latency : Q.
Hypothesis step_positive : 0 < time_step self.

Let history := _observation_history self.
Let n := Qfloor (latency / time_step self).

Lemma step_nonzero : ~ time_step self == 0.
Proof. intros H. rewrite H in step_positive. now apply Qlt_irrefl in step_positive. Qed.

Lemma steps_nonneg : 0 < latency -> 0 <= latency / time_step self.
Proof.
  intros H. apply Qlt_le_weak. apply Qlt_shift_div_l; [assumption|].
  now rewrite Qmult_0_l.
Qed.

Lemma delayed_newest (newest : list Q) :
  head history = Some newest ->
  latency <= 0 \/ length history = 1%nat ->
  _get_delay_obs self latency = Ok newest.
Proof.
  intros Hhead Hcase. unfold _get_delay_obs. fold history.
  assert (Hcond : Qle_bool latency 0 || (length history =? 1)%nat = true).
  { destruct Hcase as [H|H].
    - apply Qle_bool_iff in H. now rewrite H.
    - rewrite H. now rewrite orb_true_r. }
  rewrite Hcond. apply index_nonneg; [lia|].
  destruct history; [discriminate | assumption].
Qed.

Lemma delayed_else (T : Type) (a b : T) :
  0 < latency -> length history <> 1%nat ->
  (if Qle_bool latency 0 || (length history =? 1)%nat then a else b) = b.
Proof.
  intros Hpos Hlen.
  apply Qle_bool_false in Hpos. rewrite Hpos.
  apply Nat.eqb_neq in Hlen. now rewrite Hlen.
Qed.

Lemma delayed_oldest (oldest : list Q) :
  last history = Some oldest ->
  0 < latency -> length history <> 1%nat ->
  (Z.of_nat (length history) <= n + 1)%Z ->
  _get_delay_obs self latency = Ok oldest.
Proof.
  intros Hlast Hpos Hlen Hn. unfold _get_delay_obs. fold history.
  rewrite delayed_else by assumption.
  rewrite truediv_ok by apply step_nonzero. simpl.
  rewrite int_floor by (now apply steps_nonneg). fold n.
  apply Z.leb_le in Hn. rewrite Hn.
  now apply index_last.
Qed.

Lemma delayed_interpolated :
  0 < latency -> length history <> 1%nat ->
  (n + 1 < Z.of_nat (length history))%Z ->
  exists entry_n entry_n1,
    history !! Z.to_nat n = Some entry_n /\
    history !! Z.to_nat (n + 1) = Some entry_n1 /\
    _get_delay_obs self latency =
      Np.add
        (Np.scale (1 - (latency - inject_Z n * time_step self) / time_step self)
           entry_n)
        (Np.scale ((latency - inject_Z n * time_step self) / time_step self)
           entry_n1).
Proof.
  intros Hpos Hlen Hn.
  assert (H0 : (0 <= n)%Z).
  { unfold n. rewrite <- (Qfloor_Z 0). apply Qfloor_resp_le.
    now apply steps_nonneg. }
  destruct (lookup_lt_is_Some_2 history (Z.to_nat n)) as [entry_n Hen]; [lia|].
  destruct (lookup_lt_is_Some_2 history (Z.to_nat (n + 1)))
    as [entry_n1 Hen1]; [lia|].
  exists entry_n, entry_n1. split; [assumption|]. split; [assumption|].
  unfold _get_delay_obs. fold history.
  rewrite delayed_else by assumption.
  rewrite truediv_ok by apply step_nonzero. simpl.
  rewrite int_floor by (now apply steps_nonneg). fold n.
  assert (Hc : (Z.of_nat (length history) <=? n + 1)%Z = false)
    by (apply Z.leb_gt; lia).
  rewrite Hc.
  rewrite truediv_ok by apply step_nonzero. simpl.
  rewrite (index_nonneg _ _ _ H0 Hen). simpl.
  rewrite (index_nonneg history (n + 1) entry_n1) by (assumption || lia).
  reflexivity.
Qed.

Lemma delayed_exact (k : nat) (entry_k : list Q) :
  latency == inject_Z (Z.of_nat k) * time_step self ->
  history !! k = Some entry_k ->
  (forall e, e ∈ history -> length e = length entry_k) ->
  exists obs, _get_delay_obs self latency = Ok obs /\ Np.eqv obs entry_k.
Proof.
  intros Hlat Hk Hwidth.
  assert (Hklen : (k < length history)%nat) by (now apply lookup_lt_Some in Hk).
  destruct k as [|k'].
  - (* latency is zero *)
    exists entry_k. split; [|apply eqv_refl].
    apply delayed_newest.
    + destruct history; [discriminate | assumption].
    + left. rewrite Hlat. simpl. rewrite Qmult_0_l. apply Qle_refl.
  - set (k := S k') in *.
    assert (Hpos : 0 < latency).
    { rewrite Hlat. apply Qmult_lt_0_compat; [|assumption].
      unfold Qlt. simpl. lia. }
    assert (Hlen : length history <> 1%nat) by (unfold k in Hklen; lia).
    assert (Hn : n = Z.of_nat k).
    { unfold n. rewrite <- (Qfloor_Z (Z.of_nat k)). apply Qfloor_comp.
      rewrite Hlat. field. apply step_nonzero. }
    destruct (Z_le_gt_dec (Z.of_nat (length history)) (n + 1)) as [Hsat|Hin].
    + exists entry_k. split; [|apply eqv_refl].
      apply delayed_oldest; try assumption.
      rewrite last_lookup.
      replace (Nat.pred (length history)) with k by lia. assumption.
    + destruct delayed_interpolated as (en & en1 & Hen & Hen1 & ->);
        [assumption | assumption | lia |].
      rewrite Hn, Nat2Z.id in Hen.
      pose proof (eq_trans (eq_sym Hen) Hk) as [= ->].
      destruct (blend_zero
                  ((latency - inject_Z n * time_step self) / time_step self)
                  entry_k en1) as (v & Hv & Heq).
      * rewrite Hn, Hlat. field. apply step_nonzero.
      * symmetry. apply Hwidth. eapply list_elem_of_lookup_2. exact Hen1.
      * exists v. split; assumption.
Qed.

End DelayedObservation.

Section DelayedAnyArithmetic.

Context {F : Type} {N : Arith.Number F}.
Variables time_step latency : F.
Variable history : list (list F).

Let delayed := Arith._get_delay_obs time_step history latency.

Lemma delayed_any_newest (newest : list F) :
  head history = Some newest ->
  Arith.leb latency Arith.zero = true \/ length history = 1%nat ->
  delayed = Ok newest.
Proof.
  intros Hhead Hcase. unfold delayed, Arith._get_delay_obs.
  assert (Hcond : Arith.leb latency Arith.zero || (length history =? 1)%nat
                  = true).
  { destruct Hcase as [Hc|Hc]; rewrite Hc; [reflexivity | apply orb_true_r]. }
  rewrite Hcond. apply index_nonneg; [lia|].
  destruct history; [discriminate | assumption].
Qed.

Variables (steps : F) (n : Z).
Hypothesis positive_latency : Arith.leb latency Arith.zero = false.
Hypothesis several_entries : length history <> 1%nat.
Hypothesis quotient : Arith.div latency time_step = Ok steps.
Hypothesis whole_steps : Arith.trunc steps = Ok n.

Lemma delayed_any_oldest (oldest : list F) :
  last history = Some oldest ->
  (Z.of_nat (length history) <= n + 1)%Z ->
  delayed = Ok oldest.
Proof.
  intros Hlast Hn. unfold delayed, Arith._get_delay_obs.
  rewrite positive_latency. apply Nat.eqb_neq in several_entries.
  rewrite several_entries. cbn [orb].
  rewrite quotient. cbn [mbind result_bind]. rewrite whole_steps.
  cbn [mbind result_bind]. apply Z.leb_le in Hn. rewrite Hn.
  now apply index_last.
Qed.

Lemma delayed_any_interpolated :
  (0 <= n)%Z -> (n + 1 < Z.of_nat (length history))%Z ->
  exists entry_n entry_n1,
    history !! Z.to_nat n = Some entry_n /\
    history !! Z.to_nat (n + 1) = Some entry_n1 /\
    delayed
    = (count ← Arith.float n;
       blend ← Arith.div (Arith.sub latency (Arith.mul count time_step))
                 time_step;
       Arith.binop Arith.add
         (Arith.scale (Arith.sub Arith.one blend) entry_n)
         (Arith.scale blend entry_n1)).
Proof.
  intros H0 Hn.
  destruct (lookup_lt_is_Some_2 history (Z.to_nat n)) as [entry_n Hen]; [lia|].
  destruct (lookup_lt_is_Some_2 history (Z.to_nat (n + 1)))
    as [entry_n1 Hen1]; [lia|].
  exists entry_n, entry_n1. split; [assumption|]. split; [assumption|].
  unfold delayed, Arith._get_delay_obs.
  rewrite positive_latency. apply Nat.eqb_neq in several_entries.
  rewrite several_entries. cbn [orb].
  rewrite quotient. cbn [mbind result_bind]. rewrite whole_steps.
  cbn [mbind result_bind].
  assert (Hc : (Z.of_nat (length history) <=? n + 1)%Z = false)
    by (apply Z.leb_gt; lia).
  rewrite Hc.
  destruct (Arith.float n) as [count|e]; [|reflexivity].
  cbn [mbind result_bind].
  destruct (Arith.div (Arith.sub latency (Arith.mul count time_step))
              time_step) as [blend|e]; [|reflexivity].
  cbn [mbind result_bind].
  rewrite (index_nonneg _ _ _ H0 Hen). cbn [mbind result_bind].
  rewrite (index_nonneg history (n + 1) entry_n1) by (assumption || lia).
  reflexivity.
Qed.

End DelayedAnyArithmetic.

(** C1, as the code has it.  For a non-empty observation history,
    [_get_delay_obs] returns the newest entry verbatim when the latency is
    [<= 0] or one entry exists; otherwise, with [n = int(latency / step)],
    the oldest entry when index [n + 1] is not available, and else the blend
    [(1 - blend) * entry[n] + blend * entry[n + 1]] with
    [blend = (latency - float(n) * step) / step].  This holds in every
    arithmetic, each operation rounded as the arithmetic rounds it: in double
    precision as over the rationals.  Over the rationals, which is what the
    robot's [_get_delay_obs] is an instance of, and with a positive step,
    [n] is [floor(latency / step)] and for a latency of [k * step] with [k]
    an index of the history the result is entry [k]. *)
Theorem get_delay_obs_spec :
  (forall (F : Type) (N : Arith.Number F) (time_step latency : F)
          (history : list (list F)) (newest oldest : list F),
     head history = Some newest ->
     last history = Some oldest ->
     let delayed := Arith._get_delay_obs time_step history latency in
     (Arith.leb latency Arith.zero = true \/ length history = 1%nat ->
      delayed = Ok newest) /\
     (forall (steps : F) (n : Z),
        Arith.leb latency Arith.zero = false ->
        length history <> 1%nat ->
        Arith.div latency time_step = Ok steps ->
        Arith.trunc steps = Ok n ->
        ((Z.of_nat (length history) <= n + 1)%Z -> delayed = Ok oldest) /\
        ((0 <= n)%Z -> (n + 1 < Z.of_nat (length history))%Z ->
         exists entry_n entry_n1,
           history !! Z.to_nat n = Some entry_n /\
           history !! Z.to_nat (n + 1) = Some entry_n1 /\
           delayed
           = (count ← Arith.float n;
              blend ← Arith.div
                        (Arith.sub latency (Arith.mul count time_step))
                        time_step;
              Arith.binop Arith.add
                (Arith.scale (Arith.sub Arith.one blend) entry_n)
                (Arith.scale blend entry_n1))))) /\
  (forall (self : Minitaur) (latency : Q),
     _get_delay_obs self latency
     = Arith._get_delay_obs (time_step self) (_observation_history self)
         latency) /\
  (forall (self : Minitaur) (latency : Q) (newest oldest : list Q),
     0 < time_step self ->
     head (_observation_history self) = Some newest ->
     last (_observation_history self) = Some oldest ->
     let history := _observation_history self in
     let n := Qfloor (latency / time_step self) in
     let blend :=
       (latency - inject_Z n * time_step self) / time_step self in
     (latency <= 0 \/ length history = 1%nat ->
      _get_delay_obs self latency = Ok newest) /\
     (0 < latency -> length history <> 1%nat ->
      (Z.of_nat (length history) <= n + 1)%Z ->
      _get_delay_obs self latency = Ok oldest) /\
     (0 < latency -> length history <> 1%nat ->
      (n + 1 < Z.of_nat (length history))%Z ->
      exists entry_n entry_n1,
        history !! Z.to_nat n = Some entry_n /\
        history !! Z.to_nat (n + 1) = Some entry_n1 /\
        _get_delay_obs self latency =
          Np.add (Np.scale (1 - blend) entry_n) (Np.scale blend entry_n1)) /\
     (forall (k : nat) (entry_k : list Q),
        latency == inject_Z (Z.of_nat k) * time_step self ->
        history !! k = Some entry_k ->
        (forall e, e ∈ history -> length e = length entry_k) ->
        exists obs,
          _get_delay_obs self latency = Ok obs /\ Np.eqv obs entry_k)).
Proof.
  split; [|split].
  - intros F N time_step latency history newest oldest Hhead Hlast delayed.
    split; [now apply delayed_any_newest|].
    intros steps n Hpos Hlen Hq Hn. split.
    + now apply (delayed_any_oldest time_step latency history steps n).
    + now apply (delayed_any_interpolated time_step latency history steps n).
  - apply get_delay_obs_exact.
  - intros self latency newest oldest Hstep Hhead Hlast history n blend.
    split; [|split; [|split]].
    + now apply delayed_newest.
    + now apply delayed_oldest.
    + now apply delayed_interpolated.
    + intros k entry_k. now apply delayed_exact.
Qed.

Lemma get_delay_obs_spec_witness :
  (exists entry_n entry_n1,
     Example.ramp !! 28%nat = Some entry_n /\
     Example.ramp !! 29%nat = Some entry_n1 /\
     Arith._get_delay_obs (Arith.decimal 1 100) Example.ramp
       (Arith.decimal 29 100)
     = (count ← Arith.float 28;
        blend ← Arith.div
                  (Arith.sub (Arith.decimal 29 100)
                     (Arith.mul count (Arith.decimal 1 100)))
                  (Arith.decimal 1 100);
        Arith.binop Arith.add
          (Arith.scale (Arith.sub Arith.one blend) entry_n)
          (Arith.scale blend entry_n1))) /\
  0 < time_step Example.robot /\
  exists obs,
    _get_delay_obs Example.robot (3 # 100) = Ok obs /\
    Np.eqv obs (Example.observation 3 3).
Proof.
  split; [|split; [reflexivity|]].
  - destruct (proj1 get_delay_obs_spec Arith.binary64 Arith.double
                (Arith.decimal 1 100) (Arith.decimal 29 100) Example.ramp
                [Example.whole 0] [Example.whole 30] eq_refl eq_refl)
      as [_ Hrest].
    destruct (Hrest (S754_finite false 8162774324609023 (-48)) 28%Z)
      as [_ Hblend]; try (vm_compute; reflexivity).
    + vm_compute. discriminate.
    + apply Hblend; vm_compute; [discriminate | reflexivity].
  - destruct (proj2 (proj2 get_delay_obs_spec) Example.robot (3 # 100)
                (Example.observation 0 0) (Example.observation 4 4))
      as (_ & _ & _ & Hexact); [reflexivity | reflexivity | reflexivity |].
    apply (Hexact 3%nat); [reflexivity | reflexivity |].
    intros e He. vm_compute in He.
    repeat (apply elem_of_cons in He as [-> | He]; [reflexivity|]).
    inversion He.
Defined.

(** C1 as stated fails in double precision: with a step of 0.01 s and 31
    recorded observations 0.0, 1.0, ..., 30.0, the latency [29 * 0.01], which
    is the double 0.29, gives the quotient 28.999999999999996, so [n] is 28,
    the blend is 0.9999999999999953 and the result is 28.999999999999996:
    not entry 29, which is 29.0. *)
Lemma delayed_grid_latency_misses_entry :
  let step := Arith.decimal 1 100 in
  let latency := Arith.mul (Example.whole 29) step in
  latency = Arith.decimal 29 100 /\
  Example.ramp !! 29%nat = Some [Example.whole 29] /\
  exists obs,
    Arith._get_delay_obs step Example.ramp latency = Ok [obs] /\
    SFeqb obs (Example.whole 29) = false /\
    SFltb obs (Example.whole 29) = true /\
    Arith.div latency step
    = Ok (S754_finite false 8162774324609023 (-48)) /\
    Arith.trunc (S754_finite false 8162774324609023 (-48)) = Ok 28%Z.
Proof.
  split; [vm_compute; reflexivity|]. split; [vm_compute; reflexivity|].
  eexists. split; [vm_compute; reflexivity|].
  split; [vm_compute; reflexivity|].
  split; [vm_compute; reflexivity|].
  split; vm_compute; reflexivity.
Qed.

(** ** Action shaper: interpolation *)

Section Interpolation.

Lemma lerp_full (prev action : Np.array) (lerp : Q) :
  lerp == 1 -> length prev = length action ->
  Np.eqv
    (Np.zip_with Qplus prev (Np.scale lerp (Np.zip_with Qminus action prev)))
    action.
Proof.
  intros Hl. revert action.
  induction prev as [|p prev IH]; intros [|a action] Hlen; simpl in *;
    try discriminate; constructor.
  - rewrite Hl. ring.
  - apply IH. lia.
Qed.

Lemma lerp_last_substep (repeat_count : Z) :
  (1 <= repeat_count)%Z ->
  exists lerp,
    truediv (inject_Z (repeat_count - 1 + 1)) (inject_Z repeat_count) = Ok lerp
    /\ lerp == 1.
Proof.
  intros H.
  assert (Hnz : ~ inject_Z repeat_count == 0).
  { unfold Qeq, inject_Z. simpl. lia. }
  rewrite truediv_ok by assumption.
  eexists; split; [reflexivity|].
  replace (repeat_count - 1 + 1)%Z with repeat_count by lia.
  field. assumption.
Qed.

Lemma interpolate_to_target (prev action : Np.array) (lerp : Q) :
  lerp == 1 -> length prev = length action ->
  exists proc,
    (delta ← Np.sub action prev; Np.add prev (Np.scale lerp delta)) = Ok proc
    /\ Np.eqv proc action.
Proof.
  intros Hl Hlen. unfold Np.sub, Np.add.
  rewrite binop_same_length by (symmetry; assumption). simpl.
  rewrite binop_same_length.
  - eexists; split; [reflexivity|]. now apply lerp_full.
  - unfold Np.scale. rewrite length_map, zip_with_length; congruence.
Qed.

End Interpolation.

Section InterpolationAnyArithmetic.

Context {F : Type} {N : Arith.Number F}.

Lemma binop_any_same_length (f : F -> F -> F) (x y : list F) :
  length x = length y -> Arith.binop f x y = Ok (zip_with f x y).
Proof. intros H. unfold Arith.binop. now rewrite H, Nat.eqb_refl. Qed.

Lemma process_action_any (_filter_action : option (list F))
    (get_motor_angles : result (list F)) (_action_repeat : Z)
    (action prev : list F) (k : Z) :
  match _filter_action with
  | Some a => Ok a
  | None => get_motor_angles
  end = Ok prev ->
  Arith.process_action true _filter_action get_motor_angles _action_repeat
    action k
  = (count ← Arith.float (k + 1);
     action_repeat ← Arith.float _action_repeat;
     lerp ← Arith.div count action_repeat;
     delta ← Arith.binop Arith.sub action prev;
     Arith.binop Arith.add prev (Arith.scale lerp delta)).
Proof. intros Hprev. unfold Arith.process_action. now rewrite Hprev. Qed.

End InterpolationAnyArithmetic.

(** C10, as the code has it.  With interpolation enabled and the previous
    action [prev] (the stored filtered action, or the reported motor angles
    when there is none), [process_action] returns
    [prev + lerp * (action - prev)] with [lerp = float(k + 1) / R], in every
    arithmetic.  In double precision, for [R >= 1] with [float(R)] not
    overflowing (it does not below [2^53]), the factor at the last sub-step
    [R - 1] is [1.0] and the result is [prev + 1.0 * (action - prev)], the
    difference and the sum each rounded.
    Over the rationals, which is what the robot's [process_action] is an
    instance of, the factor is 1 and the result is the target action.
    [Quadruped.ProcessAction] is the same function. *)
Theorem process_action_reaches_target :
  (forall (F : Type) (N : Arith.Number F) (_filter_action : option (list F))
          (get_motor_angles : result (list F)) (_action_repeat : Z)
          (action prev : list F) (k : Z),
     match _filter_action with
     | Some a => Ok a
     | None => get_motor_angles
     end = Ok prev ->
     Arith.process_action true _filter_action get_motor_angles _action_repeat
       action k
     = (count ← Arith.float (k + 1);
        action_repeat ← Arith.float _action_repeat;
        lerp ← Arith.div count action_repeat;
        delta ← Arith.binop Arith.sub action prev;
        Arith.binop Arith.add prev (Arith.scale lerp delta))) /\
  (forall (R : Z) (count : Arith.binary64),
     (1 <= R)%Z ->
     Arith.float (R - 1 + 1) = Ok count ->
     Arith.float R = Ok count /\ Arith.div count count = Ok Arith.one) /\
  (forall R : Z,
     (1 <= R < 2 ^ 53)%Z ->
     exists count : Arith.binary64, Arith.float R = Ok count) /\
  (forall (_filter_action : option (list Arith.binary64))
          (get_motor_angles : result (list Arith.binary64)) (R : Z)
          (action prev : list Arith.binary64) (count : Arith.binary64),
     (1 <= R)%Z ->
     Arith.float R = Ok count ->
     match _filter_action with
     | Some a => Ok a
     | None => get_motor_angles
     end = Ok prev ->
     length prev = length action ->
     Arith.process_action true _filter_action get_motor_angles R action
       (R - 1)
     = Ok (zip_with Arith.add prev
             (Arith.scale Arith.one (zip_with Arith.sub action prev)))) /\
  (forall (self : Minitaur) (action : Np.array),
     (1 <= _action_repeat self)%Z ->
     (_enable_action_interpolation self = true ->
      exists prev,
        match _filter_action self with
        | Some a => Ok a
        | None => get_motor_angles self
        end = Ok prev /\ length prev = length action) ->
     (exists lerp,
        truediv (inject_Z (_action_repeat self - 1 + 1))
          (inject_Z (_action_repeat self)) = Ok lerp /\ lerp == 1) /\
     (exists proc,
        process_action self action (_action_repeat self - 1) = Ok proc /\
        Np.eqv proc action)) /\
  (forall (self : Minitaur) (action : Np.array) (k : Z),
     process_action self action k
     = Arith.process_action (_enable_action_interpolation self)
         (_filter_action self) (get_motor_angles self) (_action_repeat self)
         action k /\
     Quadruped.ProcessAction self action k = process_action self action k).
Proof.
  assert (Hfactor : forall (R : Z) (count : Arith.binary64),
             (1 <= R)%Z ->
             Arith.float (R - 1 + 1) = Ok count ->
             Arith.float R = Ok count /\ Arith.div count count = Ok Arith.one).
  { intros R count HR Hcount.
    replace (R - 1 + 1)%Z with R in Hcount by lia.
    split; [exact Hcount|].
    destruct (b64_float_positive R count HR Hcount) as (m & e & ->).
    cbn [Arith.div Arith.double]. unfold Arith.b64_div.
    now rewrite b64_div_same. }
  split; [intros; now apply process_action_any|].
  split; [exact Hfactor|]. split; [|split; [|split]].
  - intros R HR. destruct (b64_float_small R HR) as (m & e & Hm). eauto.
  - intros fa gma R action prev count HR Hcount Hprev Hlen.
    rewrite (process_action_any fa gma R action prev (R - 1) Hprev).
    replace (R - 1 + 1)%Z with R by lia.
    destruct (Hfactor R count HR) as [_ Hone].
    { now replace (R - 1 + 1)%Z with R by lia. }
    rewrite Hcount. cbn [mbind result_bind].
    rewrite Hone. cbn [mbind result_bind].
    rewrite binop_any_same_length by (now symmetry).
    cbn [mbind result_bind].
    rewrite binop_any_same_length; [reflexivity|].
    unfold Arith.scale. rewrite length_map, length_zip_with. lia.
  - intros self action HR Hprev. split; [now apply lerp_last_substep|].
    unfold process_action.
    destruct (_enable_action_interpolation self).
    + destruct Hprev as (prev & Hp & Hlen); [reflexivity|]. rewrite Hp. simpl.
      destruct (lerp_last_substep _ HR) as (lerp & -> & Hl). simpl.
      now apply interpolate_to_target.
    + exists action. split; [reflexivity | apply eqv_refl].
  - intros self action k. split; [apply process_action_exact | reflexivity].
Qed.

Lemma process_action_reaches_target_witness :
  Arith.process_action true (Some [Arith.decimal 2 10]) (Raise IndexError) 4
    [Arith.decimal 9 10] (4 - 1)
  = Ok (zip_with Arith.add [Arith.decimal 2 10]
          (Arith.scale Arith.one
             (zip_with Arith.sub [Arith.decimal 9 10] [Arith.decimal 2 10])))
  /\
  (1 <= _action_repeat Example.robot)%Z /\
  exists proc,
    process_action Example.robot [3 # 10; 7 # 10] 3 = Ok proc /\
    Np.eqv proc [3 # 10; 7 # 10].
Proof.
  split; [|split; [vm_compute; discriminate|]].
  - apply (proj1 (proj2 (proj2 (proj2 process_action_reaches_target)))
             (Some [Arith.decimal 2 10]) (Raise IndexError) 4%Z
             [Arith.decimal 9 10] [Arith.decimal 2 10] (Example.whole 4)).
    + lia.
    + vm_compute. reflexivity.
    + reflexivity.
    + reflexivity.
  - apply (proj1 (proj2 (proj2 (proj2 (proj2 process_action_reaches_target))))
             Example.robot [3 # 10; 7 # 10]).
    + vm_compute; discriminate.
    + intros _. eexists. split; [vm_compute; reflexivity | reflexivity].
Defined.

(** C10 as stated fails in double precision: with the previous action 0.2,
    the target 0.9 and [R = 4], the action at the last sub-step 3 is
    [0.2 + 1.0 * (0.9 - 0.2)], the double 0.8999999999999999, one unit in
    the last place below the target 0.9. *)
Lemma interpolation_misses_target :
  exists proc,
    Arith.process_action true (Some [Arith.decimal 2 10]) (Raise IndexError) 4
      [Arith.decimal 9 10] 3 = Ok [proc] /\
    proc = S754_finite false 8106479329266892 (-53) /\
    Arith.decimal 9 10 = S754_finite false 8106479329266893 (-53) /\
    SFeqb proc (Arith.decimal 9 10) = false.
Proof.
  eexists. split; [vm_compute; reflexivity|].
  split; [reflexivity|]. split; vm_compute; reflexivity.
Qed.

(** ** Randomization engine: the normalized-to-physical transform *)

Section Transform.

Lemma int_opp (x : Q) : int (- x) = (- int x)%Z.
Proof.
  destruct x as [n d]. unfold int. simpl. apply Z.quot_opp_l. lia.
Qed.

Lemma int_comp (x y : Q) : x == y -> int x = int y.
Proof.
  intros H. destruct (Qlt_le_dec x 0) as [Hneg|Hpos].
  - assert (Hx : 0 <= - x) by lra.
    assert (Hy : 0 <= - y) by lra.
    assert (E : int (- x) = int (- y)).
    { rewrite (int_floor _ Hx), (int_floor _ Hy).
      apply Qfloor_comp. now rewrite H. }
    rewrite !int_opp in E. lia.
  - assert (Hy : 0 <= y) by lra.
    rewrite (int_floor _ Hpos), (int_floor _ Hy). now apply Qfloor_comp.
Qed.

Variable self : Randomizer.ControllableEnvRandomizerFromConfig.
Variables lo hi : Q.

Let lo_b := fst (Randomizer._param_bounds self).
Let hi_b := snd (Randomizer._param_bounds self).

Hypothesis proper_bounds : ~ lo_b == hi_b.

Lemma transform_formula (s : Q) :
  exists v,
    Randomizer.transform self lo hi s = Ok v /\
    v == lo + (s - lo_b) / (hi_b - lo_b) * (hi - lo).
Proof.
  unfold Randomizer.transform. fold lo_b hi_b.
  rewrite truediv_ok by (intros H; apply proper_bounds; lra).
  eexists; split; [reflexivity|]. ring.
Qed.

Lemma transform_low :
  exists v, Randomizer.transform self lo hi lo_b = Ok v /\ v == lo.
Proof.
  destruct (transform_formula lo_b) as (v & Hv & E).
  exists v. split; [assumption|]. rewrite E. field.
  intros H; apply proper_bounds; lra.
Qed.

Lemma transform_high :
  exists v, Randomizer.transform self lo hi hi_b = Ok v /\ v == hi.
Proof.
  destruct (transform_formula hi_b) as (v & Hv & E).
  exists v. split; [assumption|]. rewrite E. field.
  intros H; apply proper_bounds; lra.
Qed.

End Transform.

Section TransformDouble.

Variables lo_b hi_b lo hi : Arith.binary64.

Hypothesis proper_bounds :
  exists s m e, Arith.sub hi_b lo_b = S754_finite s m e.
Hypothesis proper_range :
  match Arith.sub hi lo with
  | S754_finite _ _ _ | S754_zero _ => True
  | _ => False
  end.

Lemma transform_double_low :
  exists v,
    Arith.transform (lo_b, hi_b) lo hi lo_b = Ok v /\ SFeqb v lo = true.
Proof.
  destruct proper_bounds as (s & m & e & Hd).
  unfold Arith.transform. cbn [fst snd]. rewrite Hd.
  assert (Hzero : Arith.sub lo_b lo_b = S754_zero false).
  { cbn [Arith.sub Arith.double] in *.
    destruct lo_b as [sl|sl| |sl ml el].
    - apply b64_sub_zero.
    - destruct hi_b as [sh|sh| |sh mh eh]; try destruct sh; destruct sl;
        discriminate Hd.
    - destruct hi_b; discriminate Hd.
    - apply b64_sub_same. }
  rewrite Hzero. cbn [Arith.div Arith.double Arith.b64_div SFdiv
                        mbind result_bind Arith.mul Arith.add Arith.sub].
  cbn [Arith.sub Arith.double] in proper_range.
  eexists. split; [reflexivity|].
  destruct (SFsub Arith.prec Arith.emax hi lo) as [sw|sw| |sw mw ew] eqn:Hw;
    try contradiction;
    (destruct lo as [so|so| |so mo eo];
     [ destruct s, sw, so; reflexivity
     | destruct hi as [sh|sh| |sh mh eh]; try destruct sh; destruct so;
       discriminate Hw
     | destruct hi; discriminate Hw
     | cbn [SFmul SFadd xorb]; apply b64_eqb_same ]).
Qed.

Lemma transform_double_high :
  Arith.transform (lo_b, hi_b) lo hi hi_b
  = Ok (Arith.add (Arith.mul Arith.one (Arith.sub hi lo)) lo).
Proof.
  destruct proper_bounds as (s & m & e & Hd).
  unfold Arith.transform. cbn [fst snd]. rewrite Hd.
  cbn [Arith.div Arith.double Arith.b64_div]. now rewrite b64_div_same.
Qed.

End TransformDouble.

(** C8, as the code has it.  Every [_randomize_*] method applies the
    transform [(s - lo_b) / (hi_b - lo_b) * (hi - lo) + lo].  In double
    precision, with [hi_b - lo_b] finite and not zero and [hi - lo] finite,
    it sends [lo_b] to a value equal to [lo] and [hi_b] to
    [1.0 * (hi - lo) + lo], the difference and the sum each rounded.  Over
    the rationals, which is what the randomizer's [transform] is an instance
    of, and with [lo_b <> hi_b], it equals
    [lo + (s - lo_b) / (hi_b - lo_b) * (hi - lo)] and sends [lo_b] to [lo]
    and [hi_b] to [hi]; so does the latency handed to [set_ctrl_latency]. *)
Theorem transform_maps_bounds_to_range :
  (forall lo_b hi_b lo hi : Arith.binary64,
     (exists s m e, Arith.sub hi_b lo_b = S754_finite s m e) ->
     match Arith.sub hi lo with
     | S754_finite _ _ _ | S754_zero _ => True
     | _ => False
     end ->
     (exists v,
        Arith.transform (lo_b, hi_b) lo hi lo_b = Ok v /\ SFeqb v lo = true) /\
     Arith.transform (lo_b, hi_b) lo hi hi_b
     = Ok (Arith.add (Arith.mul Arith.one (Arith.sub hi lo)) lo)) /\
  (forall (self : Randomizer.ControllableEnvRandomizerFromConfig) (lo hi : Q),
     let lo_b := fst (Randomizer._param_bounds self) in
     let hi_b := snd (Randomizer._param_bounds self) in
     ~ lo_b == hi_b ->
     (forall s, exists v,
        Randomizer.transform self lo hi s = Ok v /\
        v == lo + (s - lo_b) / (hi_b - lo_b) * (hi - lo)) /\
     (exists v, Randomizer.transform self lo hi lo_b = Ok v /\ v == lo) /\
     (exists v, Randomizer.transform self lo hi hi_b = Ok v /\ v == hi) /\
     (exists v self',
        Randomizer._randomize_latency self lo hi (Some (Randomizer.Float lo_b))
        = Ok (self', [Randomizer.set_ctrl_latency v]) /\ v == lo) /\
     (exists v self',
        Randomizer._randomize_latency self lo hi (Some (Randomizer.Float hi_b))
        = Ok (self', [Randomizer.set_ctrl_latency v]) /\ v == hi)) /\
  (forall (self : Randomizer.ControllableEnvRandomizerFromConfig)
          (lo hi s : Q),
     Randomizer.transform self lo hi s
     = Arith.transform (Randomizer._param_bounds self) lo hi s).
Proof.
  split; [|split].
  - intros lo_b hi_b lo hi Hb Hr. split.
    + now apply transform_double_low.
    + now apply transform_double_high.
  - intros self lo hi lo_b hi_b Hb.
    pose proof (transform_low self lo hi Hb) as (vl & Hvl & El).
    pose proof (transform_high self lo hi Hb) as (vh & Hvh & Eh).
    fold lo_b in Hvl. fold hi_b in Hvh.
    split; [intros s; now apply transform_formula|].
    split; [now exists vl|]. split; [now exists vh|].
    unfold Randomizer._randomize_latency.
    simpl. rewrite Hvl, Hvh. simpl.
    repeat split; repeat eexists; eassumption.
  - intros. apply transform_exact.
Qed.

Lemma transform_maps_bounds_to_range_witness :
  (exists v,
     Arith.transform (Example.whole (-1), Arith.one) (Arith.decimal 1 10)
       (Arith.decimal 45 100) (Example.whole (-1)) = Ok v /\
     SFeqb v (Arith.decimal 1 10) = true) /\
  ~ fst (Randomizer._param_bounds Example.rejecting)
    == snd (Randomizer._param_bounds Example.rejecting) /\
  exists v, Randomizer.transform Example.rejecting 0 10 1 = Ok v /\ v == 10.
Proof.
  split; [|split; [discriminate|]].
  - apply (proj1 transform_maps_bounds_to_range (Example.whole (-1)) Arith.one
             (Arith.decimal 1 10) (Arith.decimal 45 100)).
    + eexists. eexists. eexists. vm_compute. reflexivity.
    + vm_compute. exact I.
  - apply (proj1 (proj2 transform_maps_bounds_to_range) Example.rejecting 0 10).
    discriminate.
Defined.

(** C8 as stated fails in double precision: with the normalized bounds
    [-1, 1] and the target range [0.1, 0.45], the sample 1 is sent to
    [(1 - -1) / (1 - -1) * (0.45 - 0.1) + 0.1], the double
    0.44999999999999996, one unit in the last place below 0.45. *)
Lemma transform_misses_upper_bound :
  exists v,
    Arith.transform (Example.whole (-1), Arith.one) (Arith.decimal 1 10)
      (Arith.decimal 45 100) Arith.one = Ok v /\
    v = S754_finite false 8106479329266892 (-54) /\
    Arith.decimal 45 100 = S754_finite false 8106479329266893 (-54) /\
    SFeqb v (Arith.decimal 45 100) = false.
Proof.
  eexists. split; [vm_compute; reflexivity|].
  split; [reflexivity|]. split; vm_compute; reflexivity.
Qed.

(** ** Action shaper: the clamp on motor commands *)

Section Clip.

Lemma clip_same_length (x lo hi : Np.array) :
  length x = length lo -> length x = length hi ->
  Np.clip x lo hi
  = Ok (Np.zip_with (fun a b => if Qle_bool a b then a else b)
          (Np.zip_with (fun a b => if Qle_bool a b then b else a) x lo) hi).
Proof.
  intros H1 H2. unfold Np.clip, Np.maximum, Np.minimum.
  rewrite binop_same_length by assumption. simpl.
  rewrite binop_same_length; [reflexivity|].
  rewrite zip_with_length; congruence.
Qed.

Lemma clamp_within (x a m : Q) :
  0 <= m ->
  let c := (fun u v => if Qle_bool u v then u else v)
             ((fun u v => if Qle_bool u v then v else u) x (a - m)) (a + m) in
  a - m <= c /\ c <= a + m /\ (a - m <= x -> x <= a + m -> c == x).
Proof.
  intros Hm. simpl.
  destruct (Qle_bool x (a - m)) eqn:E1;
    [apply Qle_bool_iff in E1 | apply Qle_bool_false in E1].
  - destruct (Qle_bool (a - m) (a + m)) eqn:E2;
      [apply Qle_bool_iff in E2 | apply Qle_bool_false in E2];
      repeat split; intros; lra.
  - destruct (Qle_bool x (a + m)) eqn:E2;
      [apply Qle_bool_iff in E2 | apply Qle_bool_false in E2];
      repeat split; intros; lra.
Qed.

Lemma clip_around (m : Q) (cmds current : Np.array) :
  0 <= m -> length cmds = length current ->
  exists clipped,
    Np.clip cmds (Np.sub_scalar current m) (Np.add_scalar current m)
    = Ok clipped /\
    length clipped = length cmds /\
    Forall2 (fun c a => a - m <= c /\ c <= a + m) clipped current /\
    (forall (i : nat) (x a : Q),
       cmds !! i = Some x -> current !! i = Some a ->
       a - m <= x -> x <= a + m ->
       exists c, clipped !! i = Some c /\ c == x).
Proof.
  intros Hm Hlen.
  rewrite clip_same_length
    by (unfold Np.sub_scalar, Np.add_scalar; rewrite length_map; assumption).
  eexists; split; [reflexivity|].
  unfold Np.sub_scalar, Np.add_scalar.
  revert current Hlen.
  induction cmds as [|x cmds IH]; intros [|a current] Hlen; simpl in *;
    try discriminate.
  - repeat split; try constructor. intros i ? ? H; destruct i; discriminate.
  - destruct (IH current) as (IH1 & IH2 & IH3); [lia|].
    pose proof (clamp_within x a m Hm) as (B1 & B2 & B3). simpl in B1, B2, B3.
    split; [simpl; f_equal; exact IH1|].
    split; [constructor; [split; assumption | exact IH2]|].
    intros [|i] x' a' Hx Ha L U; simpl in *.
    + injection Hx as <-. injection Ha as <-.
      eexists; split; [reflexivity|]. now apply B3.
    + now apply (IH3 i x' a').
Qed.

Lemma clamp_saturates (x a m : Q) :
  0 <= m ->
  let c := (fun u v => if Qle_bool u v then u else v)
             ((fun u v => if Qle_bool u v then v else u) x (a - m)) (a + m) in
  (x < a - m -> c = a - m) /\ (a + m < x -> c = a + m) /\
  (a - m <= x -> x <= a + m -> c = x \/ c == x).
Proof.
  intros Hm. cbv zeta beta.
  destruct (Qle_bool x (a - m)) eqn:E1;
    [apply Qle_bool_iff in E1 | apply Qle_bool_false in E1];
  [destruct (Qle_bool (a - m) (a + m)) eqn:E2
  |destruct (Qle_bool x (a + m)) eqn:E2];
    (apply Qle_bool_iff in E2 || apply Qle_bool_false in E2);
    (split; [|split]); intros;
    first [ reflexivity | exfalso; lra | left; reflexivity | right; lra ].
Qed.

Lemma clip_saturates (m : Q) (cmds : Np.array) :
  0 <= m ->
  forall (current clipped : Np.array),
    length cmds = length current ->
    Np.clip cmds (Np.sub_scalar current m) (Np.add_scalar current m)
    = Ok clipped ->
    forall (i : nat) (x a : Q),
      cmds !! i = Some x -> current !! i = Some a ->
      (x < a - m -> clipped !! i = Some (a - m)) /\
      (a + m < x -> clipped !! i = Some (a + m)).
Proof.
  intros Hm current clipped Hlen.
  rewrite clip_same_length
    by (unfold Np.sub_scalar, Np.add_scalar; rewrite length_map; assumption).
  intros [= <-]. unfold Np.sub_scalar, Np.add_scalar.
  revert current Hlen.
  induction cmds as [|x cmds IH]; intros [|a current] Hlen i x' a' Hx Ha;
    simpl in *; try discriminate; try (destruct i; discriminate).
  destruct i as [|i]; simpl in *.
  - injection Hx as <-. injection Ha as <-.
    destruct (clamp_saturates x a m Hm) as (Hlow & Hhigh & _).
    cbv zeta beta in Hlow, Hhigh.
    split; intros H; f_equal; auto.
  - apply (IH current); [lia | assumption | assumption].
Qed.

End Clip.

Lemma get_motor_angles_noiseless (self : Minitaur) (stdev : Q) :
  index (_observation_noise_stdev self) 0 = Ok stdev -> stdev <= 0 ->
  get_motor_angles self
  = Ok (MapToMinusPiToPi (slice (_control_observation self) 0 (num_motors self))).
Proof.
  intros Hs Hle. unfold get_motor_angles, _add_sensor_noise. rewrite Hs. simpl.
  apply Qle_bool_iff in Hle. now rewrite Hle.
Qed.

(** C4, as the code has it.  With a step bound [m >= 0], [_clip_motor_commands]
    clamps every component of the command to [[a - m, a + m]], where [a] is
    the motor angle reported by [get_motor_angles]: a component below
    [a - m] becomes [a - m], a component above [a + m] becomes [a + m], and
    a component already inside is left unchanged.  The reported angles are
    the first [num_motors] entries of the observation delayed by the control
    latency, with sensor noise when a positive deviation is configured,
    mapped to [-pi, pi).  [Quadruped._ClipMotorCommands] does the same with
    its module constant. *)
Theorem clip_motor_commands_around_reported_angle (self : Minitaur)
    (motor_commands reported : Np.array) :
  0 <= _max_motor_angle_step self ->
  get_motor_angles self = Ok reported ->
  length motor_commands = length reported ->
  (exists clipped,
     _clip_motor_commands self motor_commands = Ok clipped /\
     length clipped = length motor_commands /\
     Forall2 (fun c a => a - _max_motor_angle_step self <= c /\
                         c <= a + _max_motor_angle_step self)
       clipped reported /\
     (forall (i : nat) (x a : Q),
        motor_commands !! i = Some x -> reported !! i = Some a ->
        a - _max_motor_angle_step self <= x ->
        x <= a + _max_motor_angle_step self ->
        exists c, clipped !! i = Some c /\ c == x) /\
     (forall (i : nat) (x a : Q),
        motor_commands !! i = Some x -> reported !! i = Some a ->
        (x < a - _max_motor_angle_step self ->
         clipped !! i = Some (a - _max_motor_angle_step self)) /\
        (a + _max_motor_angle_step self < x ->
         clipped !! i = Some (a + _max_motor_angle_step self)))) /\
  (forall stdev,
     index (_observation_noise_stdev self) 0 = Ok stdev -> stdev <= 0 ->
     reported
     = MapToMinusPiToPi
         (slice (_control_observation self) 0 (num_motors self))) /\
  (_max_motor_angle_step self = Quadruped.MAX_MOTOR_ANGLE_CHANGE_PER_STEP ->
   Quadruped._ClipMotorCommands self motor_commands
   = _clip_motor_commands self motor_commands).
Proof.
  intros Hm Hrep Hlen. split; [|split].
  - unfold _clip_motor_commands. rewrite Hrep. simpl.
    destruct (clip_around (_max_motor_angle_step self) motor_commands reported
                Hm Hlen) as (clipped & Hc & Hl & Hb & Hin).
    exists clipped. repeat (split; [assumption|]).
    now apply clip_saturates.
  - intros stdev Hs Hle.
    rewrite (get_motor_angles_noiseless self stdev Hs Hle) in Hrep.
    now injection Hrep.
  - intros E. unfold Quadruped._ClipMotorCommands, _clip_motor_commands.
    now rewrite E.
Qed.

Lemma clip_motor_commands_around_reported_angle_witness :
  0 <= _max_motor_angle_step Example.robot /\
  exists clipped,
    _clip_motor_commands Example.robot [3; 1] = Ok clipped /\
    length clipped = 2%nat /\
    Forall2 (fun c a => a - _max_motor_angle_step Example.robot <= c /\
                        c <= a + _max_motor_angle_step Example.robot)
      clipped [1; 1] /\
    (exists a, a == 1 /\
       clipped !! 0%nat = Some (a + _max_motor_angle_step Example.robot)) /\
    (exists c, clipped !! 1%nat = Some c /\ c == 1).
Proof.
  split; [discriminate|].
  destruct (clip_motor_commands_around_reported_angle Example.robot [3; 1]
              (MapToMinusPiToPi [1; 1]))
    as ((clipped & Hc & Hl & Hb & Hin & Hsat) & _ & _).
  - discriminate.
  - vm_compute. reflexivity.
  - reflexivity.
  - exists clipped. split; [exact Hc|]. split; [exact Hl|].
    split; [vm_compute in Hc; injection Hc as <-;
            repeat constructor; discriminate|].
    split.
    + destruct (MapToMinusPiToPi [1; 1] !! 0%nat) as [a|] eqn:Ha;
        [|vm_compute in Ha; discriminate].
      exists a. destruct (Hsat 0%nat 3 a) as [_ Hhigh];
        [reflexivity | exact Ha |].
      vm_compute in Ha. injection Ha as <-.
      split; [reflexivity | apply Hhigh; reflexivity].
    + destruct (MapToMinusPiToPi [1; 1] !! 1%nat) as [a|] eqn:Ha;
        [|vm_compute in Ha; discriminate].
      apply (Hin 1%nat 1 a); [reflexivity | exact Ha | |];
        vm_compute in Ha; injection Ha as <-; discriminate.
Defined.

(** C4 as stated fails: after one more observation is received the robot's
    true motor angles are 0.5 rad, the control observation still holds the
    angles 0 rad recorded one step earlier, and the command 0.5 rad is cut
    down to 0.2 rad, outside [0.5 - 0.2, 0.5 + 0.2]. *)
Lemma clip_not_around_true_angle :
  exists self clipped,
    receive_obs Example.stale = Ok self /\
    get_true_motor_angles self = Ok [1 # 2; 1 # 2] /\
    _clip_motor_commands self [1 # 2; 1 # 2] = Ok clipped /\
    Forall (fun c => c < (1 # 2) - _max_motor_angle_step self) clipped.
Proof.
  eexists. eexists.
  split; [vm_compute; reflexivity|].
  split; [vm_compute; reflexivity|].
  split; [vm_compute; reflexivity|].
  repeat constructor.
Qed.

(** ** Safety monitor *)

Section OverheatLoop.

Variable self : Minitaur.
Variable actual_torque : Np.array.
Hypothesis step_nonzero' : ~ time_step self == 0.

Let limit : Q := _overheat_shutdown_time self / time_step self.
Let next (c : Z) (torque : Q) : Z :=
  if Qltb (_overheat_shutdown_tau self) (Qabs torque) then (c + 1)%Z else 0%Z.

Lemma overheat_body_ok (i : nat) (counter : list Z) (enabled : list bool)
    (torque : Q) (c : Z) :
  actual_torque !! i = Some torque -> counter !! i = Some c ->
  (i < length enabled)%nat ->
  overheat_body self actual_torque i (counter, enabled)
  = Ok (<[i := next c torque]> counter,
        if Qltb limit (inject_Z (next c torque)) then <[i := false]> enabled
        else enabled).
Proof.
  intros Ht Hc Hi. unfold overheat_body.
  rewrite (index_nat _ _ _ Ht). simpl. rewrite (index_nat _ _ _ Hc). simpl.
  rewrite truediv_ok by assumption. simpl. fold limit. fold (next c torque).
  destruct (Qltb limit (inject_Z (next c torque))); [|reflexivity].
  apply Nat.ltb_lt in Hi. now rewrite Hi.
Qed.

Lemma overheat_loop (len : nat) :
  forall (start : nat) (counter : list Z) (enabled : list bool),
    (start + len <= length actual_torque)%nat ->
    (start + len <= length counter)%nat ->
    (start + len <= length enabled)%nat ->
    exists counter' enabled',
      for_each (overheat_body self actual_torque) (seq start len)
        (counter, enabled) = Ok (counter', enabled') /\
      length counter' = length counter /\
      length enabled' = length enabled /\
      (forall i, (i < start \/ start + len <= i)%nat ->
         counter' !! i = counter !! i /\ enabled' !! i = enabled !! i) /\
      (forall i torque c, (start <= i < start + len)%nat ->
         actual_torque !! i = Some torque -> counter !! i = Some c ->
         counter' !! i = Some (next c torque) /\
         enabled' !! i =
           if Qltb limit (inject_Z (next c torque)) then Some false
           else enabled !! i).
Proof.
  induction len as [|len IH]; intros start counter enabled Ht Hc He.
  - exists counter, enabled. simpl. repeat split; try reflexivity; lia.
  - destruct (lookup_lt_is_Some_2 actual_torque start) as [torque Htq]; [lia|].
    destruct (lookup_lt_is_Some_2 counter start) as [c Hcs]; [lia|].
    cbn [seq]. rewrite for_each_cons.
    rewrite (overheat_body_ok start counter enabled torque c)
      by (assumption || lia). rewrite bind_Ok.
    set (counter1 := <[start := next c torque]> counter).
    set (enabled1 := if Qltb limit (inject_Z (next c torque))
                     then <[start := false]> enabled else enabled).
    assert (Hl1 : length counter1 = length counter)
      by (unfold counter1; apply length_insert).
    assert (Hl2 : length enabled1 = length enabled).
    { unfold enabled1. destruct (Qltb _ _); [apply length_insert | reflexivity]. }
    assert (Hother : forall i, i <> start ->
              counter1 !! i = counter !! i /\ enabled1 !! i = enabled !! i).
    { intros i Hi. unfold counter1, enabled1. split.
      - apply list_lookup_insert_ne. congruence.
      - destruct (Qltb _ _); [|reflexivity].
        apply list_lookup_insert_ne. congruence. }
    destruct (IH (S start) counter1 enabled1) as
      (counter' & enabled' & Hrun & Hlc & Hle & Hout & Hin); try lia.
    exists counter', enabled'. rewrite Hrun.
    split; [reflexivity|]. split; [lia|]. split; [lia|]. split.
    + intros i Hi. destruct (Hout i) as [E1 E2]; [lia|].
      destruct (Hother i) as [E3 E4]; [lia|]. split; congruence.
    + intros i tq ci Hi Htqi Hci.
      destruct (Nat.eq_dec i start) as [->|Hne].
      * destruct (Hout start) as [E1 E2]; [lia|].
        pose proof (eq_trans (eq_sym Htq) Htqi) as [= <-].
        pose proof (eq_trans (eq_sym Hcs) Hci) as [= <-].
        rewrite E1, E2. unfold counter1, enabled1. split.
        -- apply list_lookup_insert_eq. lia.
        -- destruct (Qltb _ _); [|reflexivity].
           apply list_lookup_insert_eq. lia.
      * destruct (Hother i Hne) as [E3 E4].
        destruct (Hin i tq ci) as [R1 R2]; [lia | assumption | congruence |].
        split; [assumption|]. rewrite R2. now rewrite E4.
Qed.

End OverheatLoop.

Section OverheatStep.

(** The counter and the flag of every motor are within reach of the loop. *)
Let sized (self : Minitaur) : Prop :=
  (num_motors self <= length (_overheat_counter self))%nat /\
  (num_motors self <= length (_motor_enabled_list self))%nat.

Lemma overheat_protection_off (self : Minitaur) (actual_torque : Np.array) :
  _motor_overheat_protection self = false ->
  _apply_overheat_protection self actual_torque = Ok self.
Proof. intros H. unfold _apply_overheat_protection. now rewrite H. Qed.

Lemma overheat_protection_step (self : Minitaur) (actual_torque : Np.array) :
  _motor_overheat_protection self = true ->
  ~ time_step self == 0 ->
  (num_motors self <= length actual_torque)%nat ->
  sized self ->
  exists self',
    _apply_overheat_protection self actual_torque = Ok self' /\
    descriptor self' = descriptor self /\
    sized self' /\
    (forall i, (num_motors self <= i)%nat ->
       _overheat_counter self' !! i = _overheat_counter self !! i /\
       _motor_enabled_list self' !! i = _motor_enabled_list self !! i) /\
    (forall i torque c, (i < num_motors self)%nat ->
       actual_torque !! i = Some torque ->
       _overheat_counter self !! i = Some c ->
       let c' := if Qltb (_overheat_shutdown_tau self) (Qabs torque)
                 then (c + 1)%Z else 0%Z in
       _overheat_counter self' !! i = Some c' /\
       _motor_enabled_list self' !! i =
         if Qltb (_overheat_shutdown_time self / time_step self) (inject_Z c')
         then Some false else _motor_enabled_list self !! i).
Proof.
  intros Hon Hstep Hlen [Hc He].
  destruct (overheat_loop self actual_torque Hstep (num_motors self) 0%nat
              (_overheat_counter self) (_motor_enabled_list self))
    as (counter' & enabled' & Hrun & Hlc & Hle & Hout & Hin); try lia.
  unfold _apply_overheat_protection. rewrite Hon, Hrun. rewrite bind_Ok.
  eexists. split; [reflexivity|]. split; [reflexivity|].
  split; [split; simpl; lia|]. split.
  - intros i Hi. simpl. apply Hout. lia.
  - intros i torque c Hi Ht Hci. simpl. apply Hin; [lia | assumption..].
Qed.

(** A streak: consecutive steps on all of which motor [i] is over the
    threshold. *)
Lemma overheat_streak (rest : list Np.array) :
  forall (first : Np.array) (self : Minitaur) (i : nat) (c : Z),
    _motor_overheat_protection self = true ->
    ~ time_step self == 0 ->
    sized self ->
    (i < num_motors self)%nat ->
    _overheat_counter self !! i = Some c ->
    Forall (fun actual_torque =>
              (num_motors self <= length actual_torque)%nat /\
              exists torque, actual_torque !! i = Some torque /\
                             _overheat_shutdown_tau self < Qabs torque)
      (first :: rest) ->
    exists self',
      for_each (fun actual_torque s => _apply_overheat_protection s actual_torque)
        (first :: rest) self = Ok self' /\
      descriptor self' = descriptor self /\
      _overheat_counter self' !! i
      = Some (c + Z.of_nat (length (first :: rest)))%Z /\
      _motor_enabled_list self' !! i =
        if Qltb (_overheat_shutdown_time self / time_step self)
             (inject_Z (c + Z.of_nat (length (first :: rest))))
        then Some false else _motor_enabled_list self !! i.
Proof.
  induction rest as [|second rest IH];
    intros first self i c Hon Hstep Hsized Hi Hc Hall.
  - inversion Hall as [|? ? [Hlen (torque & Ht & Hover)] _]; subst.
    destruct (overheat_protection_step self first Hon Hstep Hlen Hsized)
      as (self' & Hrun & Hd & _ & _ & Hin).
    destruct (Hin i torque c Hi Ht Hc) as [R1 R2].
    apply Qltb_lt in Hover. rewrite Hover in R1, R2.
    exists self'. rewrite for_each_cons, Hrun.
    split; [reflexivity|]. split; [assumption|].
    simpl length. split; assumption.
  - inversion Hall as [|? ? [Hlen (torque & Ht & Hover)] Hrest]; subst.
    destruct (overheat_protection_step self first Hon Hstep Hlen Hsized)
      as (self1 & Hrun & Hd & Hsized1 & _ & Hin).
    destruct (Hin i torque c Hi Ht Hc) as [R1 R2].
    apply Qltb_lt in Hover. rewrite Hover in R1, R2.
    destruct (IH second self1 i (c + 1)%Z) as (self' & Hrun' & Hd' & C' & E');
      try assumption.
    + now rewrite Hd.
    + now rewrite Hd.
    + now rewrite Hd.
    + rewrite Hd. exact Hrest.
    + exists self'. rewrite for_each_cons, Hrun, bind_Ok.
      split; [exact Hrun'|]. split; [congruence|].
      assert (Hsum : (c + 1 + Z.of_nat (length (second :: rest))
                      = c + Z.of_nat (length (first :: second :: rest)))%Z)
        by (simpl length; lia).
      rewrite Hsum in C', E'. split; [exact C'|].
      rewrite Hd in E'. rewrite E', R2.
      destruct (Qltb _ (inject_Z (c + Z.of_nat _))) eqn:Q1; [reflexivity|].
      destruct (Qltb _ (inject_Z (c + 1))) eqn:Q2; [|reflexivity].
      exfalso. apply Qltb_ge in Q1. apply Qltb_lt in Q2.
      assert (inject_Z (c + 1)
              <= inject_Z (c + Z.of_nat (length (first :: second :: rest)))).
      { rewrite <- Zle_Qle. simpl length. lia. }
      lra.
Qed.

End OverheatStep.


Lemma for_each_ext {A S : Type} (f g : A -> S -> result S) (l : list A) (s : S) :
  (forall a s', f a s' = g a s') -> for_each f l s = for_each g l s.
Proof.
  intros H. revert s. induction l as [|a l IH]; intros s; [reflexivity|].
  rewrite !for_each_cons, H. destruct (g a s); simpl; [apply IH | reflexivity].
Qed.

Lemma Quadruped_overheat_protection_same (self : Minitaur)
    (actual_torque : Np.array) :
  _overheat_shutdown_tau self = Quadruped.OVERHEAT_SHUTDOWN_TORQUE ->
  _overheat_shutdown_time self = Quadruped.OVERHEAT_SHUTDOWN_TIME ->
  Quadruped._ApplyOverheatProtection self actual_torque
  = _apply_overheat_protection self actual_torque.
Proof.
  intros E1 E2. unfold Quadruped._ApplyOverheatProtection,
    _apply_overheat_protection.
  destruct (_motor_overheat_protection self); [|reflexivity].
  rewrite (for_each_ext (Quadruped.overheat_body self actual_torque)
             (overheat_body self actual_torque)); [reflexivity|].
  intros i [counter enabled].
  unfold Quadruped.overheat_body, overheat_body, Quadruped.sim_time_step.
  now rewrite E1, E2.
Qed.

(** C2, as the code has it.  With motor overheat protection enabled, a step
    increments the counter of a motor whose actual torque magnitude strictly
    exceeds the threshold and resets it to zero otherwise; a motor over the
    threshold for [ceil(time_limit / step) + 1] consecutive steps is disabled
    when that streak ends, and a streak of [m >= 1] steps from a zero
    counter leaves the motor disabled exactly when
    [m > time_limit / step]. *)
Theorem overheat_counter_is_a_streak_counter (self : Minitaur) (i : nat)
    (c : Z) :
  _motor_overheat_protection self = true ->
  0 < time_step self ->
  0 <= _overheat_shutdown_time self ->
  (num_motors self <= length (_overheat_counter self))%nat ->
  (num_motors self <= length (_motor_enabled_list self))%nat ->
  (i < num_motors self)%nat ->
  _overheat_counter self !! i = Some c ->
  (0 <= c)%Z ->
  let limit := _overheat_shutdown_time self / time_step self in
  let over (actual_torque : Np.array) :=
    (num_motors self <= length actual_torque)%nat /\
    exists torque, actual_torque !! i = Some torque /\
                   _overheat_shutdown_tau self < Qabs torque in
  let steps (torques : list Np.array) :=
    for_each (fun actual_torque s => _apply_overheat_protection s actual_torque)
      torques self in
  (forall actual_torque torque,
     (num_motors self <= length actual_torque)%nat ->
     actual_torque !! i = Some torque ->
     exists self',
       _apply_overheat_protection self actual_torque = Ok self' /\
       (_overheat_shutdown_tau self < Qabs torque ->
        _overheat_counter self' !! i = Some (c + 1)%Z) /\
       (Qabs torque <= _overheat_shutdown_tau self ->
        _overheat_counter self' !! i = Some 0%Z)) /\
  (forall torques,
     Forall over torques ->
     Z.of_nat (length torques) = (Qceiling limit + 1)%Z ->
     exists self',
       steps torques = Ok self' /\
       _motor_enabled_list self' !! i = Some false) /\
  (c = 0%Z ->
   forall first rest,
     Forall over (first :: rest) ->
     exists self',
       steps (first :: rest) = Ok self' /\
       _overheat_counter self' !! i
       = Some (Z.of_nat (length (first :: rest))) /\
       _motor_enabled_list self' !! i =
         if Qltb limit (inject_Z (Z.of_nat (length (first :: rest))))
         then Some false else _motor_enabled_list self !! i).
Proof.
  intros Hon Hstep Hlimit Hc He Hi Hci Hc0 limit over steps.
  assert (Hnz : ~ time_step self == 0) by (intros E; rewrite E in Hstep; lra).
  split; [|split].
  - intros actual_torque torque Hlen Ht.
    destruct (overheat_protection_step self actual_torque Hon Hnz Hlen
                (conj Hc He)) as (self' & Hrun & _ & _ & _ & Hin).
    destruct (Hin i torque c Hi Ht Hci) as [R _].
    exists self'. split; [assumption|]. split; intros Hcmp.
    + apply Qltb_lt in Hcmp. now rewrite Hcmp in R.
    + apply Qltb_ge in Hcmp. now rewrite Hcmp in R.
  - intros torques Hall Hlen.
    assert (Hceil : (0 <= Qceiling limit)%Z).
    { rewrite <- (Qceiling_Z 0). apply Qceiling_resp_le. unfold limit.
      apply Qle_shift_div_l; [assumption|]. now rewrite Qmult_0_l. }
    destruct torques as [|first rest]; [simpl in Hlen; lia|].
    destruct (overheat_streak rest first self i c Hon Hnz (conj Hc He) Hi Hci
                Hall) as (self' & Hrun & _ & _ & E).
    exists self'. split; [exact Hrun|]. rewrite E.
    assert (Hover : limit < inject_Z (c + Z.of_nat (length (first :: rest)))).
    { rewrite Hlen. apply Qle_lt_trans with (inject_Z (Qceiling limit)).
      - apply Qle_ceiling.
      - rewrite <- Zlt_Qlt. lia. }
    apply Qltb_lt in Hover. fold limit. now rewrite Hover.
  - intros -> first rest Hall.
    destruct (overheat_streak rest first self i 0%Z Hon Hnz (conj Hc He) Hi Hci
                Hall) as (self' & Hrun & _ & C & E).
    exists self'. split; [exact Hrun|]. split; assumption.
Qed.

Lemma overheat_counter_is_a_streak_counter_witness :
  _motor_overheat_protection Example.guarded = true /\
  exists self',
    for_each (fun actual_torque s => _apply_overheat_protection s actual_torque)
      [[3; 0]; [3; 0]; [-3; 0]] Example.guarded = Ok self' /\
    _motor_enabled_list self' !! 0%nat = Some false.
Proof.
  split; [reflexivity|].
  destruct (overheat_counter_is_a_streak_counter Example.guarded 0%nat 0%Z)
    as (_ & Hstreak & _);
    [reflexivity | reflexivity | discriminate | simpl; lia | simpl; lia
    | simpl; lia | reflexivity | lia |].
  apply (Hstreak [[3; 0]; [3; 0]; [-3; 0]]).
  - repeat constructor; simpl; try lia; eexists; (split; [reflexivity|]);
      reflexivity.
  - reflexivity.
Defined.

(** C2 as stated fails: both constructors set [_motor_overheat_protection]
    to [False], and then a step with 3 Nm on every motor, above the threshold
    of 2.45 Nm, leaves every counter at zero. *)
Lemma overheat_counter_idle_without_protection :
  _motor_overheat_protection Example.robot = false /\
  Forall (fun torque => _overheat_shutdown_tau Example.robot < Qabs torque)
    [3; 3] /\
  _overheat_counter Example.robot = [0%Z; 0%Z] /\
  exists self',
    _apply_overheat_protection Example.robot [3; 3] = Ok self' /\
    _overheat_counter self' = [0%Z; 0%Z].
Proof.
  split; [reflexivity|]. split; [repeat constructor|].
  split; [reflexivity|]. eexists. split; reflexivity.
Qed.

(** ** Safety monitor: a tripped motor stays off *)

Section Disabled.

Lemma overheat_body_keeps_false (self : Minitaur) (actual_torque : Np.array)
    (i j : nat) (counter counter' : list Z) (enabled enabled' : list bool) :
  overheat_body self actual_torque i (counter, enabled)
  = Ok (counter', enabled') ->
  enabled !! j = Some false -> enabled' !! j = Some false.
Proof.
  unfold overheat_body. intros H Hj.
  inv_bind H. inv_bind H. inv_bind H.
  destruct (Qltb _ _); [|congruence].
  destruct (i <? length enabled)%nat eqn:Hi; [|discriminate].
  injection H as _ <-. apply Nat.ltb_lt in Hi.
  destruct (Nat.eq_dec j i) as [->|Hne].
  - now apply list_lookup_insert_eq.
  - rewrite list_lookup_insert_ne by congruence. assumption.
Qed.

Lemma overheat_loop_keeps_false (self : Minitaur) (actual_torque : Np.array)
    (j : nat) (motors : list nat) :
  forall counter enabled counter' enabled',
    for_each (overheat_body self actual_torque) motors (counter, enabled)
    = Ok (counter', enabled') ->
    enabled !! j = Some false -> enabled' !! j = Some false.
Proof.
  induction motors as [|i motors IH]; intros counter enabled counter' enabled' H Hj.
  - injection H as _ <-. assumption.
  - rewrite for_each_cons in H. inv_bind H. destruct a as [counter1 enabled1].
    eapply IH; [exact H|]. eapply overheat_body_keeps_false; eassumption.
Qed.

Lemma overheat_protection_keeps_false (self self' : Minitaur)
    (actual_torque : Np.array) (j : nat) :
  _apply_overheat_protection self actual_torque = Ok self' ->
  _motor_enabled_list self !! j = Some false ->
  _motor_enabled_list self' !! j = Some false /\
  _motor_id_list self' = _motor_id_list self /\
  _motor_direction self' = _motor_direction self.
Proof.
  unfold _apply_overheat_protection. intros H Hj.
  destruct (_motor_overheat_protection self).
  - inv_bind H. destruct a as [counter enabled]. injection H as <-. simpl.
    split; [|split; reflexivity].
    eapply overheat_loop_keeps_false; eassumption.
  - injection H as <-. auto.
Qed.

Lemma gated_torques_length (ids : list Z) :
  forall (applied : Np.array) (enabled : list bool),
    length (snd (gated_torques ids applied enabled))
    = length (fst (gated_torques ids applied enabled)).
Proof.
  induction ids as [|motor_id ids IH]; intros [|t applied] [|e enabled];
    try reflexivity.
  simpl. specialize (IH applied enabled).
  destruct (gated_torques ids applied enabled) as [motor_ids motor_torques].
  destruct e; simpl in *; now f_equal.
Qed.

Lemma gated_torques_zero (j : nat) :
  forall (ids : list Z) (applied : Np.array) (enabled : list bool)
         (torque : Q),
    enabled !! j = Some false ->
    snd (gated_torques ids applied enabled) !! j = Some torque -> torque = 0.
Proof.
  induction j as [|j IH]; intros [|motor_id ids] [|t applied] [|e enabled]
    torque Hj; simpl in *; try discriminate.
  - injection Hj as ->.
    destruct (gated_torques ids applied enabled) as [motor_ids motor_torques].
    simpl. now intros [= <-].
  - specialize (IH ids applied enabled torque Hj).
    destruct (gated_torques ids applied enabled) as [motor_ids motor_torques].
    destruct e; simpl in *; exact IH.
Qed.

Lemma gated_torques_sent (j : nat) :
  forall (ids : list Z) (applied : Np.array) (enabled : list bool),
    (j < length ids)%nat -> (j < length applied)%nat ->
    enabled !! j = Some false ->
    snd (gated_torques ids applied enabled) !! j = Some 0.
Proof.
  induction j as [|j IH]; intros [|motor_id ids] [|t applied] [|e enabled]
    Hi Ha Hj; simpl in *; try discriminate; try lia.
  - injection Hj as ->.
    destruct (gated_torques ids applied enabled) as [motor_ids motor_torques].
    reflexivity.
  - specialize (IH ids applied enabled ltac:(lia) ltac:(lia) Hj).
    destruct (gated_torques ids applied enabled) as [motor_ids motor_torques].
    destruct e; simpl in *; exact IH.
Qed.

Lemma gated_torques_lookup (j : nat) :
  forall (ids : list Z) (applied : Np.array) (enabled : list bool)
         (motor_id : Z) (torque : Q) (motor_enabled : bool),
    ids !! j = Some motor_id -> applied !! j = Some torque ->
    enabled !! j = Some motor_enabled ->
    fst (gated_torques ids applied enabled) !! j = Some motor_id /\
    snd (gated_torques ids applied enabled) !! j
    = Some (if motor_enabled then torque else 0).
Proof.
  induction j as [|j IH]; intros [|i ids] [|t applied] [|e enabled]
    motor_id torque motor_enabled Hi Ht He; simpl in *; try discriminate.
  - injection Hi as ->. injection Ht as ->. injection He as ->.
    destruct (gated_torques ids applied enabled) as [motor_ids motor_torques].
    destruct motor_enabled; split; reflexivity.
  - specialize (IH ids applied enabled motor_id torque motor_enabled Hi Ht He).
    destruct (gated_torques ids applied enabled) as [motor_ids motor_torques].
    destruct e; simpl in *; exact IH.
Qed.

Lemma overheat_protection_descriptor (self self' : Minitaur)
    (actual_torque : Np.array) :
  _apply_overheat_protection self actual_torque = Ok self' ->
  descriptor self' = descriptor self /\
  _pybullet_client self' = _pybullet_client self.
Proof.
  unfold _apply_overheat_protection. intros H.
  destruct (_motor_overheat_protection self); [|now injection H as <-].
  inv_bind_as H lists Hloop. destruct lists as [counter enabled].
  now injection H as <-.
Qed.

End Disabled.


Section Episode.

Lemma apply_action_inv (self self' : Minitaur) (motor_commands : Np.array)
    (mode : option Motor.MotorControlMode) :
  apply_action self motor_commands mode = Ok self' ->
  exists actual_torque applied guarded,
    _apply_overheat_protection self actual_torque = Ok guarded /\
    Np.multiply actual_torque (_motor_direction guarded) = Ok applied /\
    _motor_enabled_list self' = _motor_enabled_list guarded /\
    Bullet.torque_control (_pybullet_client self')
    = gated_torques (_motor_id_list guarded) applied
        (_motor_enabled_list guarded).
Proof.
  unfold apply_action. intros H.
  inv_bind_as H clipped Hclip. inv_bind_as H pd Hpd. destruct pd as [q qdot].
  inv_bind_as H qdot_true Hvel.
  destruct (_motor_model self _ _ _ _ _) as [actual_torque observed_torque].
  inv_bind_as H guarded Hguard. inv_bind_as H applied Happlied.
  exists actual_torque, applied, guarded. simpl in *.
  destruct (gated_torques _ _ _) as [motor_ids motor_torques] eqn:G.
  injection H as <-. simpl. auto.
Qed.

Lemma apply_action_sent (self self' : Minitaur) (motor_commands : Np.array)
    (mode : option Motor.MotorControlMode) :
  apply_action self motor_commands mode = Ok self' ->
  exists clipped q qdot qdot_true applied,
    _clip_motor_commands self motor_commands = Ok clipped /\
    _get_pd_obs self = Ok (q, qdot) /\
    get_true_motor_vel self = Ok qdot_true /\
    let control_mode : Motor.MotorControlMode := match mode with
                        | Some m => m
                        | None => _motor_control_mode self
                        end in
    let torques := _motor_model self clipped q qdot qdot_true control_mode in
    Np.multiply (fst torques) (_motor_direction self) = Ok applied /\
    forall j motor_id torque (motor_enabled : bool),
      _motor_id_list self !! j = Some motor_id ->
      applied !! j = Some torque ->
      _motor_enabled_list self' !! j = Some motor_enabled ->
      fst (Bullet.torque_control (_pybullet_client self')) !! j
      = Some motor_id /\
      snd (Bullet.torque_control (_pybullet_client self')) !! j
      = Some (if motor_enabled then torque else 0).
Proof.
  unfold apply_action. intros H.
  inv_bind_as H clipped Hclip. inv_bind_as H pd Hpd. destruct pd as [q qdot].
  inv_bind_as H qdot_true Hvel.
  exists clipped, q, qdot, qdot_true. cbv zeta.
  destruct (_motor_model self _ _ _ _ _) as [actual_torque observed_torque].
  inv_bind_as H guarded Hguard. inv_bind_as H applied Happlied.
  destruct (overheat_protection_descriptor _ _ _ Hguard) as [Hd Hc].
  simpl in Happlied, H.
  destruct (gated_torques _ _ _) as [motor_ids motor_torques] eqn:G.
  injection H as <-. exists applied. simpl. rewrite Hd in Happlied, G.
  split; [exact Hclip|]. split; [exact Hpd|]. split; [exact Hvel|].
  split; [exact Happlied|].
  intros j motor_id torque motor_enabled Hi Ht He.
  destruct (gated_torques_lookup j _ _ _ _ _ _ Hi Ht He) as [H1 H2].
  rewrite G in H1, H2. auto.
Qed.

Lemma apply_action_keeps_false (self self' : Minitaur)
    (motor_commands : Np.array) (mode : option Motor.MotorControlMode)
    (i : nat) :
  _motor_enabled_list self !! i = Some false ->
  apply_action self motor_commands mode = Ok self' ->
  _motor_enabled_list self' !! i = Some false /\
  (length (snd (Bullet.torque_control (_pybullet_client self')))
   = length (fst (Bullet.torque_control (_pybullet_client self')))) /\
  (forall torque,
     snd (Bullet.torque_control (_pybullet_client self')) !! i = Some torque ->
     torque = 0).
Proof.
  intros Hi H.
  apply apply_action_inv in H as (actual & applied & guarded & Hg & _ & He & Ht).
  destruct (overheat_protection_keeps_false _ _ _ i Hg Hi) as (Hf & _ & _).
  rewrite He, Ht. split; [assumption|]. split.
  - apply gated_torques_length.
  - intros torque. now apply gated_torques_zero.
Qed.

Lemma receive_obs_frame (self self' : Minitaur) :
  receive_obs self = Ok self' ->
  descriptor self' = descriptor self /\
  _motor_enabled_list self' = _motor_enabled_list self /\
  _overheat_counter self' = _overheat_counter self /\
  _filter_action self' = _filter_action self /\
  _state_action_counter self' = _state_action_counter self /\
  _action_filter self' = _action_filter self.
Proof.
  unfold receive_obs. intros H. inv_bind H. inv_bind H.
  injection H as <-. simpl. auto 10.
Qed.

Lemma set_act_enabled (self self' : Minitaur) (action : Np.array) :
  set_act self action = Ok self' ->
  _motor_enabled_list self' = _motor_enabled_list self.
Proof.
  unfold set_act, _filter. intros H. inv_bind H.
  destruct (_enable_action_filter _); [|now injection H as <-].
  inv_bind H. destruct a0 as [filtered self1]. injection H as <-. simpl.
  inv_bind E0. destruct (ActionFilter.do_filter _ _) as [fa f].
  injection E0 as _ <-. simpl.
  simpl in E1. destruct (_state_action_counter self =? 0)%Z.
  - inv_bind E1. now injection E1 as <-.
  - now injection E1 as <-.
Qed.

Lemma robot_step_keeps_false (self self' : Minitaur) (k : Z) (i : nat) :
  _motor_enabled_list self !! i = Some false ->
  robot_step self k = Ok self' ->
  _motor_enabled_list self' !! i = Some false.
Proof.
  unfold robot_step. intros Hi H. inv_bind H. inv_bind H.
  destruct (apply_action_keeps_false _ _ _ _ i Hi E0) as (Hf & _).
  destruct (_ =? _)%Z; injection H as <-; exact Hf.
Qed.

Lemma setter_frame (c : call) (self self' : Minitaur) :
  is_setter c = true -> run_call c self = Ok self' ->
  descriptor self' = descriptor self /\
  _motor_enabled_list self' = _motor_enabled_list self /\
  _overheat_counter self' = _overheat_counter self /\
  _observation_history self' = _observation_history self /\
  _control_observation self' = _control_observation self /\
  _joint_states self' = _joint_states self /\
  _filter_action self' = _filter_action self /\
  _state_action_counter self' = _state_action_counter self /\
  _action_filter self' = _action_filter self.
Proof.
  destruct c; try discriminate; intros _; simpl.
  - intros [= <-]. simpl. auto 12.
  - unfold set_base_mass. destruct (negb _); simpl; [discriminate|].
    intros [= <-]. simpl. auto 12.
  - unfold set_leg_mass. destruct (negb _); simpl; [discriminate|].
    intros [= <-]. simpl. auto 12.
  - unfold set_base_inertia. destruct (negb _); simpl; [discriminate|].
    destruct (change_inertias _ _ _ _) as [client [e|]]; simpl;
      [discriminate|]. intros [= <-]. simpl. auto 12.
  - unfold set_leg_inertia. destruct (negb _); simpl; [discriminate|].
    destruct (change_inertias _ _ _ _) as [client [e|]]; simpl;
      [discriminate|].
    destruct (change_inertias _ _ _ _) as [client' [e|]]; simpl;
      [discriminate|]. intros [= <-]. simpl. auto 12.
  - intros [= <-]. simpl. auto 12.
Qed.

Lemma run_call_keeps_false (c : call) (self self' : Minitaur) (i : nat) :
  _motor_enabled_list self !! i = Some false ->
  run_call c self = Ok self' ->
  _motor_enabled_list self' !! i = Some false.
Proof.
  intros Hi H.
  destruct (is_setter c) eqn:S.
  - destruct (setter_frame c self self' S H) as (_ & -> & _). assumption.
  - destruct c; try discriminate; simpl in H.
    + apply receive_obs_frame in H as (_ & -> & _). exact Hi.
    + apply set_act_enabled in H as ->. exact Hi.
    + eapply robot_step_keeps_false; eassumption.
    + eapply apply_action_keeps_false; eassumption.
Qed.

Lemma run_keeps_false (calls : list call) (i : nat) :
  forall self self',
    _motor_enabled_list self !! i = Some false ->
    run calls self = Ok self' ->
    _motor_enabled_list self' !! i = Some false.
Proof.
  unfold run. induction calls as [|c calls IH]; intros self self' Hi H.
  - now injection H as <-.
  - rewrite for_each_cons in H. inv_bind H.
    eapply IH; [|exact H]. eapply run_call_keeps_false; eassumption.
Qed.

Lemma apply_action_descriptor (self self' : Minitaur)
    (motor_commands : Np.array) (mode : option Motor.MotorControlMode) :
  apply_action self motor_commands mode = Ok self' ->
  descriptor self' = descriptor self.
Proof.
  unfold apply_action. intros H.
  inv_bind_as H clipped Hclip. inv_bind_as H pd Hpd. destruct pd as [q qdot].
  inv_bind_as H qdot_true Hvel.
  destruct (_motor_model self _ _ _ _ _) as [actual_torque observed_torque].
  inv_bind_as H guarded Hguard. inv_bind_as H applied Happlied.
  destruct (gated_torques _ _ _) as [motor_ids motor_torques].
  injection H as <-. simpl.
  unfold _apply_overheat_protection in Hguard.
  destruct (_motor_overheat_protection self); [|now injection Hguard as <-].
  inv_bind_as Hguard lists Hloop. destruct lists as [counter enabled].
  now injection Hguard as <-.
Qed.

Lemma run_call_descriptor (c : call) (self self' : Minitaur) :
  run_call c self = Ok self' -> descriptor self' = descriptor self.
Proof.
  intros H. destruct (is_setter c) eqn:S.
  - now destruct (setter_frame c self self' S H) as (-> & _).
  - destruct c; try discriminate; simpl in H.
    + now apply receive_obs_frame in H as (-> & _).
    + unfold set_act, _filter in H. inv_bind_as H shifted Hadd.
      destruct (_enable_action_filter _); [|now injection H as <-].
      inv_bind_as H pair Hfilter. destruct pair as [filtered self1].
      injection H as <-. simpl.
      inv_bind_as Hfilter seeded Hseed.
      destruct (ActionFilter.do_filter _ _) as [fa f].
      injection Hfilter as _ <-. simpl. simpl in Hseed.
      destruct (_state_action_counter self =? 0)%Z.
      * inv_bind_as Hseed angles Hangles. now injection Hseed as <-.
      * now injection Hseed as <-.
    + unfold robot_step in H. inv_bind_as H proc Hproc.
      inv_bind_as H applied Happly.
      apply apply_action_descriptor in Happly.
      destruct (_ =? _)%Z; injection H as <-; exact Happly.
    + now apply apply_action_descriptor in H.
Qed.

Lemma run_descriptor (calls : list call) :
  forall self self', run calls self = Ok self' ->
                     descriptor self' = descriptor self.
Proof.
  unfold run. induction calls as [|c calls IH]; intros self self' H.
  - now injection H as <-.
  - rewrite for_each_cons in H. inv_bind H.
    rewrite (IH a self' H). now apply (run_call_descriptor c).
Qed.

Lemma run_setters_frame (calls : list call) :
  forall self self',
    forallb is_setter calls = true ->
    run calls self = Ok self' ->
    descriptor self' = descriptor self /\
    _motor_enabled_list self' = _motor_enabled_list self /\
    _overheat_counter self' = _overheat_counter self /\
    _observation_history self' = _observation_history self /\
    _control_observation self' = _control_observation self /\
    _joint_states self' = _joint_states self /\
    _filter_action self' = _filter_action self /\
    _state_action_counter self' = _state_action_counter self /\
    _action_filter self' = _action_filter self.
Proof.
  unfold run. induction calls as [|c calls IH]; intros self self' Hs H.
  - injection H as <-. auto 12.
  - simpl in Hs. apply andb_true_iff in Hs as [Hc Hs].
    rewrite for_each_cons in H. inv_bind H.
    destruct (IH a self' Hs H)
      as (-> & -> & -> & -> & -> & -> & -> & -> & ->).
    now apply (setter_frame c).
Qed.

End Episode.

Section Reset.

Lemma receive_obs_first (self self' : Minitaur) :
  _observation_history self = [] ->
  receive_obs self = Ok self' ->
  exists angles rest,
    get_true_motor_angles self' = Ok angles /\
    _observation_history self' = [angles ++ rest] /\
    _control_observation self' = angles ++ rest.
Proof.
  unfold receive_obs. intros Hh H.
  inv_bind_as H obs Hobs. inv_bind_as H ctrl Hctrl. injection H as <-. simpl.
  unfold get_true_obs in Hobs.
  inv_bind_as Hobs angles Hangles. inv_bind_as Hobs vel Hvel.
  injection Hobs as <-.
  exists angles. eexists. split; [exact Hangles|].
  unfold _get_ctrl_obs, _get_delay_obs in Hctrl. simpl in Hctrl.
  rewrite Hh in Hctrl. simpl in Hctrl. rewrite orb_true_r in Hctrl.
  injection Hctrl as <-. rewrite Hh. split; reflexivity.
Qed.

Lemma reset_eq (self : Minitaur) (sim : Bullet.SimReading)
    (randomize_env : Minitaur -> result Minitaur) :
  reset self sim randomize_env
  = (receive_obs
       {| descriptor := descriptor self;
          _control_latency := _control_latency self;
          _pybullet_client := Bullet.with_reading sim (_pybullet_client self);
          _motor_model := _motor_model self;
          _action_filter := _action_filter self;
          _joint_states := _joint_states self;
          _base_orientation := _base_orientation self;
          _observed_motor_torques := _observed_motor_torques self;
          _observation_history := [];
          _control_observation := _control_observation self;
          _overheat_counter := replicate (num_motors self) 0%Z;
          _motor_enabled_list := replicate (num_motors self) true;
          _filter_action := None;
          _action := _action self;
          _last_action := Np.zeros (num_motors self);
          _state_action_counter := 0;
          step_counter := 0 |}
     ≫= fun received : Minitaur =>
          let filtered :=
            if _enable_action_filter received
            then _reset_action_filter received else received in
          if _enable_randomizer filtered then randomize_env filtered
          else Ok filtered).
Proof. reflexivity. Qed.

Lemma reset_fresh (self fresh : Minitaur) (sim : Bullet.SimReading)
    (setters : list call) :
  forallb is_setter setters = true ->
  reset self sim (run setters) = Ok fresh ->
  descriptor fresh = descriptor self /\
  _motor_enabled_list fresh = replicate (num_motors self) true /\
  _overheat_counter fresh = replicate (num_motors self) 0%Z /\
  _filter_action fresh = None /\
  _state_action_counter fresh = 0%Z /\
  (exists angles rest,
     get_true_motor_angles fresh = Ok angles /\
     _observation_history fresh = [angles ++ rest] /\
     _control_observation fresh = angles ++ rest) /\
  ActionFilter.calls (_action_filter fresh)
  = ActionFilter.calls (_action_filter self)
      ++ (if _enable_action_filter self then [ActionFilter.reset] else []).
Proof.
  intros Hs H. rewrite reset_eq in H.
  inv_bind_as H received Hrecv. cbv zeta in H.
  pose proof (receive_obs_frame _ _ Hrecv) as (Hd & He & Hc & Hf & Hn & Ha).
  apply receive_obs_first in Hrecv as (angles & rest & Hangles & Hh & Hctrl);
    [|reflexivity].
  simpl in Hd, He, Hc, Hf, Hn, Ha.
  set (filtered := if _enable_action_filter received
                   then _reset_action_filter received else received) in H.
  assert (Hfr : descriptor filtered = descriptor self /\
                _motor_enabled_list filtered = replicate (num_motors self) true /\
                _overheat_counter filtered = replicate (num_motors self) 0%Z /\
                _filter_action filtered = None /\
                _state_action_counter filtered = 0%Z /\
                (get_true_motor_angles filtered = Ok angles /\
                 _observation_history filtered = [angles ++ rest] /\
                 _control_observation filtered = angles ++ rest) /\
                ActionFilter.calls (_action_filter filtered)
                = ActionFilter.calls (_action_filter self)
                    ++ (if _enable_action_filter self
                        then [ActionFilter.reset] else [])).
  { assert (Hsame : get_true_motor_angles (_reset_action_filter received)
                     = get_true_motor_angles received) by reflexivity.
    unfold filtered. rewrite Hd.
    destruct (_enable_action_filter self); simpl;
      rewrite ?Hsame, ?Ha, ?app_nil_r;
      repeat (split; [assumption|]);
      (split; [repeat split; assumption | reflexivity]). }
  destruct Hfr as (Fd & Fe & Fc & Ff & Fn & (Fa & Fh & Fo) & Fl).
  assert (Hrun : run setters filtered = Ok fresh \/ fresh = filtered).
  { destruct (_enable_randomizer filtered); [now left | right; congruence]. }
  clearbody filtered. clear H.
  destruct Hrun as [Hrun | ->].
  - destruct (run_setters_frame setters filtered fresh Hs Hrun)
      as (Rd & Re & Rc & Rh & Ro & Rj & Rf & Rn & Ra).
    assert (Ga : get_true_motor_angles fresh = Ok angles).
    { unfold get_true_motor_angles in *. now rewrite Rj, Rd. }
    rewrite Rd, Re, Rc, Rf, Rn, Ra, Rh, Ro.
    exact (conj Fd (conj Fe (conj Fc (conj Ff (conj Fn
             (conj (ex_intro _ angles
                      (ex_intro _ rest (conj Ga (conj Fh Fo)))) Fl)))))).
  - exact (conj Fd (conj Fe (conj Fc (conj Ff (conj Fn
             (conj (ex_intro _ angles
                      (ex_intro _ rest (conj Fa (conj Fh Fo)))) Fl)))))).
Qed.

End Reset.

(** C3.  A motor whose enabled flag is [False] keeps it through every call
    made on the robot before the next reset, whatever motor model the robot
    holds.  Each [apply_action] then sends one force per motor id, and for
    that motor it sends the motor's id with the force 0, whatever torque the
    motor model has returned for it.  [reset] sets every flag to [True]
    again. *)
Theorem disabled_motor_stays_disabled (self : Minitaur) (i : nat) :
  _motor_enabled_list self !! i = Some false ->
  (forall calls later,
     run calls self = Ok later ->
     _motor_enabled_list later !! i = Some false) /\
  (forall calls later motor_commands mode next,
     run calls self = Ok later ->
     apply_action later motor_commands mode = Ok next ->
     let sent := Bullet.torque_control (_pybullet_client next) in
     _motor_enabled_list next !! i = Some false /\
     length (snd sent) = length (fst sent) /\
     (forall torque, snd sent !! i = Some torque -> torque = 0) /\
     exists clipped q qdot qdot_true applied,
       _clip_motor_commands later motor_commands = Ok clipped /\
       _get_pd_obs later = Ok (q, qdot) /\
       get_true_motor_vel later = Ok qdot_true /\
       let control_mode : Motor.MotorControlMode := match mode with
                           | Some m => m
                           | None => _motor_control_mode later
                           end in
       let torques :=
         _motor_model later clipped q qdot qdot_true control_mode in
       Np.multiply (fst torques) (_motor_direction later) = Ok applied /\
       forall motor_id torque,
         _motor_id_list later !! i = Some motor_id ->
         applied !! i = Some torque ->
         fst sent !! i = Some motor_id /\ snd sent !! i = Some 0) /\
  (forall calls later sim setters fresh,
     run calls self = Ok later ->
     forallb is_setter setters = true ->
     reset later sim (run setters) = Ok fresh ->
     _motor_enabled_list fresh = replicate (num_motors self) true).
Proof.
  intros Hi. split; [|split].
  - intros calls later. now apply run_keeps_false.
  - intros calls later motor_commands mode next Hrun Happly.
    assert (Hlater : _motor_enabled_list later !! i = Some false)
      by (eapply run_keeps_false; eassumption).
    destruct (apply_action_keeps_false later next motor_commands mode i
                Hlater Happly) as (Hoff & Hlen & Hzero).
    cbv zeta. split; [exact Hoff|]. split; [exact Hlen|].
    split; [exact Hzero|].
    destruct (apply_action_sent _ _ _ _ Happly)
      as (clipped & q & qdot & qdot_true & applied & Hc & Hp & Hv & Ha & Hs).
    exists clipped, q, qdot, qdot_true, applied.
    split; [exact Hc|]. split; [exact Hp|]. split; [exact Hv|].
    split; [exact Ha|].
    intros motor_id torque Hid Ht.
    exact (Hs i motor_id torque false Hid Ht Hoff).
  - intros calls later sim setters fresh Hrun Hs Hreset.
    destruct (reset_fresh _ _ _ _ Hs Hreset) as (_ & -> & _).
    f_equal. now rewrite (run_descriptor calls self later Hrun).
Qed.

Lemma disabled_motor_stays_disabled_witness :
  let tripped := with_motor_enabled_list [false; true] Example.robot in
  _motor_enabled_list tripped !! 0%nat = Some false /\
  (forall calls later,
     run calls tripped = Ok later ->
     _motor_enabled_list later !! 0%nat = Some false) /\
  exists next,
    apply_action tripped [1; 1] None = Ok next /\
    Example.stiff_motor [1; 1] [1; 1] [0; 0] [0; 0] Motor.POSITION
    = ([3; 3], [3; 3]) /\
    fst (Bullet.torque_control (_pybullet_client next)) !! 0%nat
    = Some 10%Z /\
    snd (Bullet.torque_control (_pybullet_client next)) !! 0%nat = Some 0.
Proof.
  intros tripped. split; [reflexivity|].
  pose proof (disabled_motor_stays_disabled tripped 0%nat eq_refl)
    as (Hstays & Hsent & _).
  split; [exact Hstays|].
  destruct (apply_action tripped [1; 1] None) as [next|e] eqn:E;
    [|vm_compute in E; discriminate].
  exists next. split; [reflexivity|]. split; [reflexivity|].
  destruct (Hsent [] tripped [1; 1] None next eq_refl E)
    as (_ & _ & _ & clipped & q & qdot & qdot_true & applied
        & _ & _ & _ & Ha & Hzero).
  apply (Hzero 10%Z 3); [reflexivity|].
  vm_compute in Ha. injection Ha as <-. reflexivity.
Defined.

(** ** An episode: what the calls leave alone *)

Section Frames.

Lemma overheat_protection_frame (self self' : Minitaur)
    (actual_torque : Np.array) :
  _apply_overheat_protection self actual_torque = Ok self' ->
  descriptor self' = descriptor self /\
  _observation_history self' = _observation_history self /\
  _control_observation self' = _control_observation self /\
  _action self' = _action self /\
  _filter_action self' = _filter_action self /\
  _state_action_counter self' = _state_action_counter self /\
  step_counter self' = step_counter self.
Proof.
  unfold _apply_overheat_protection. intros H.
  destruct (_motor_overheat_protection self).
  - inv_bind_as H lists Hloop. destruct lists as [counter enabled].
    injection H as <-. simpl. auto 10.
  - injection H as <-. auto 10.
Qed.

Lemma apply_action_frame (self self' : Minitaur) (motor_commands : Np.array)
    (mode : option Motor.MotorControlMode) :
  apply_action self motor_commands mode = Ok self' ->
  descriptor self' = descriptor self /\
  _observation_history self' = _observation_history self /\
  _control_observation self' = _control_observation self /\
  _action self' = _action self /\
  _filter_action self' = _filter_action self /\
  _state_action_counter self' = _state_action_counter self /\
  step_counter self' = step_counter self.
Proof.
  unfold apply_action. intros H.
  inv_bind_as H clipped Hclip. inv_bind_as H pd Hpd. destruct pd as [q qdot].
  inv_bind_as H qdot_true Hvel.
  destruct (_motor_model self _ _ _ _ _) as [actual_torque observed_torque].
  inv_bind_as H guarded Hguard. inv_bind_as H applied Happlied.
  destruct (gated_torques _ _ _) as [motor_ids motor_torques].
  injection H as <-. simpl.
  exact (overheat_protection_frame _ _ _ Hguard).
Qed.

Lemma robot_step_frame (self self' : Minitaur) (i : Z) :
  robot_step self i = Ok self' ->
  descriptor self' = descriptor self /\
  _observation_history self' = _observation_history self /\
  _control_observation self' = _control_observation self /\
  _action self' = _action self /\
  _state_action_counter self' = (_state_action_counter self + 1)%Z /\
  (if (i =? _action_repeat self - 1)%Z
   then _filter_action self' = Some (_action self) /\
        step_counter self' = (step_counter self + 1)%Z
   else _filter_action self' = _filter_action self /\
        step_counter self' = step_counter self).
Proof.
  unfold robot_step. intros H.
  inv_bind_as H proc Hproc. inv_bind_as H applied Happly.
  destruct (apply_action_frame _ _ _ _ Happly)
    as (Hd & Hh & Hc & Ha & Hf & Hs & Hk).
  simpl in H. rewrite Hd in H.
  destruct (i =? _action_repeat self - 1)%Z; injection H as <-; simpl;
    rewrite ?Hs, ?Ha, ?Hk; auto 10.
Qed.

Lemma set_act_frame (self self' : Minitaur) (action : Np.array) :
  set_act self action = Ok self' ->
  descriptor self' = descriptor self /\
  _observation_history self' = _observation_history self /\
  _control_observation self' = _control_observation self /\
  _filter_action self' = _filter_action self /\
  _state_action_counter self' = _state_action_counter self /\
  step_counter self' = step_counter self.
Proof.
  unfold set_act, _filter. intros H. inv_bind_as H shifted Hadd.
  destruct (_enable_action_filter _); [|injection H as <-; simpl; auto 10].
  inv_bind_as H pair Hfilter. destruct pair as [filtered self1].
  injection H as <-. simpl.
  inv_bind_as Hfilter seeded Hseed.
  destruct (ActionFilter.do_filter _ _) as [fa f].
  injection Hfilter as _ <-. simpl. simpl in Hseed.
  destruct (_state_action_counter self =? 0)%Z.
  - inv_bind_as Hseed angles Hangles. injection Hseed as <-. simpl. auto 10.
  - injection Hseed as <-. simpl. auto 10.
Qed.

Lemma receive_obs_history (self self' : Minitaur) :
  receive_obs self = Ok self' ->
  exists obs,
    _observation_history self'
    = take deque_maxlen (obs :: _observation_history self) /\
    get_true_obs self' = Ok obs.
Proof.
  unfold receive_obs. intros H.
  inv_bind_as H obs Hobs. inv_bind_as H ctrl Hctrl. injection H as <-.
  exists obs. split; [reflexivity | exact Hobs].
Qed.

End Frames.

(** ** Action shaper at the first step of an episode *)

Section FirstStep.

Lemma floor_unit (x : Q) : 0 <= x -> x < 1 -> Qfloor x = 0%Z.
Proof.
  intros H0 H1.
  pose proof (Qfloor_le x) as Hle. pose proof (Qlt_floor x) as Hlt.
  assert (A : inject_Z (Qfloor x) < inject_Z 1)
    by (apply Qle_lt_trans with x; [exact Hle | exact H1]).
  assert (B : inject_Z 0 < inject_Z (Qfloor x + 1))
    by (apply Qle_lt_trans with x; [exact H0 | exact Hlt]).
  rewrite <- Zlt_Qlt in A, B. lia.
Qed.

Lemma int_small (x : Q) : -1 < x -> x < 1 -> int x = 0%Z.
Proof.
  intros Hl Hu. destruct (Qlt_le_dec x 0) as [Hneg|Hpos].
  - assert (E : int (- x) = 0%Z).
    { rewrite int_floor by lra. apply floor_unit; lra. }
    rewrite int_opp in E. lia.
  - rewrite int_floor by assumption. now apply floor_unit.
Qed.

Lemma two_pi_positive : 0 < TWO_PI.
Proof. reflexivity. Qed.

Lemma fmod_principal (a : Q) :
  - math_pi <= a -> a < math_pi -> fmod a TWO_PI == a.
Proof.
  intros Hl Hu. unfold fmod.
  assert (Hpi : TWO_PI == 2 * math_pi) by reflexivity.
  pose proof two_pi_positive as Hpos.
  rewrite int_small.
  - simpl. ring.
  - apply Qlt_shift_div_l; [assumption|]. lra.
  - apply Qlt_shift_div_r; [assumption|]. lra.
Qed.

Lemma wrap_principal (angles : Np.array) :
  Forall (fun a => - math_pi <= a /\ a < math_pi) angles ->
  Np.eqv (MapToMinusPiToPi angles) angles.
Proof.
  induction 1 as [|a angles [Hl Hu] _ IH]; [constructor|].
  simpl. constructor; [|exact IH].
  pose proof (fmod_principal a Hl Hu) as E.
  destruct (Qle_bool math_pi (fmod a TWO_PI)) eqn:C1.
  - apply Qle_bool_iff in C1. lra.
  - destruct (Qltb (fmod a TWO_PI) (- math_pi)) eqn:C2; [|exact E].
    apply Qltb_lt in C2. lra.
Qed.

Lemma slice_prefix (angles rest : list Q) (n : nat) :
  length angles = n -> slice (angles ++ rest) 0 n = angles.
Proof.
  intros H. unfold slice. rewrite Nat.sub_0_r, drop_0.
  now apply take_app_length'.
Qed.

End FirstStep.

Section FirstControlStep.

Lemma filter_seeds_history (self : Minitaur) (action seed : Np.array) :
  _state_action_counter self = 0%Z ->
  get_motor_angles self = Ok seed ->
  exists filtered after,
    _filter self action = Ok (filtered, after) /\
    ActionFilter.calls (_action_filter after)
    = ActionFilter.calls (_action_filter self)
        ++ [ActionFilter.init_history seed; ActionFilter.filter action].
Proof.
  intros Hn Hseed. unfold _filter. rewrite Hn, Hseed. simpl.
  eexists. eexists. split; [reflexivity|]. simpl.
  rewrite <- !app_assoc. reflexivity.
Qed.

Lemma process_action_unfiltered (self : Minitaur) (action reported : Np.array)
    (k : Z) :
  _enable_action_interpolation self = true ->
  _filter_action self = None ->
  get_motor_angles self = Ok reported ->
  process_action self action k
  = (lerp ← truediv (inject_Z (k + 1)) (inject_Z (_action_repeat self));
     delta ← Np.sub action reported;
     Np.add reported (Np.scale lerp delta)).
Proof.
  intros Hi Hf Hr. unfold process_action. now rewrite Hi, Hf, Hr.
Qed.

Lemma substeps_keep_filter_action (calls : list call) :
  forall self later : Minitaur,
    forallb (is_substep_call (_action_repeat self)) calls = true ->
    run calls self = Ok later ->
    _filter_action later = _filter_action self.
Proof.
  unfold run. induction calls as [|c calls IH]; intros self later Hc H.
  - now injection H as <-.
  - rewrite for_each_cons in H. inv_bind_as H next Hnext.
    simpl in Hc. apply andb_prop in Hc as [Hc Hrest].
    assert (Hd : descriptor next = descriptor self)
      by (now apply (run_call_descriptor c)).
    rewrite (IH next later); [|now rewrite Hd | exact H].
    destruct c; try discriminate Hc; simpl in Hnext, Hc.
    + now destruct (receive_obs_frame _ _ Hnext) as (_ & _ & _ & Hf & _).
    + destruct (robot_step_frame _ _ _ Hnext) as (_ & _ & _ & _ & _ & Hf).
      apply negb_true_iff in Hc. rewrite Hc in Hf. tauto.
Qed.

End FirstControlStep.

(** C5, as the code has it.  While the sub-step counter is 0 the [_filter]
    call sends the motor angles [get_motor_angles] reports to [init_history]
    before the action is filtered; while there is no previous filtered
    action, interpolation at every sub-step starts from the angles
    [get_motor_angles] reports at that sub-step.  Without sensor noise these
    are the first [num_motors] entries of the observation delayed by the
    control latency, mapped to [-pi, pi).  After [reset] and [set_act] there
    is no previous filtered action until the last sub-step of the control
    step has been made.  Right after [reset], with the sensor noise the
    constructors configure (none) and true motor angles in [-pi, pi), the
    reported angles are the true ones, the only recorded observation being
    the current one: the first [_filter] call sends them to [init_history]
    after the [reset] of the filter, and the interpolation of sub-step 0
    starts from them. *)
Theorem first_step_starts_from_reported_angles :
  (forall (self : Minitaur) (action seed : Np.array),
     _state_action_counter self = 0%Z ->
     get_motor_angles self = Ok seed ->
     exists filtered after,
       _filter self action = Ok (filtered, after) /\
       ActionFilter.calls (_action_filter after)
       = ActionFilter.calls (_action_filter self)
           ++ [ActionFilter.init_history seed; ActionFilter.filter action]) /\
  (forall (self : Minitaur) (action reported : Np.array) (k : Z),
     _enable_action_interpolation self = true ->
     _filter_action self = None ->
     get_motor_angles self = Ok reported ->
     process_action self action k
     = (lerp ← truediv (inject_Z (k + 1)) (inject_Z (_action_repeat self));
        delta ← Np.sub action reported;
        Np.add reported (Np.scale lerp delta))) /\
  (forall (self : Minitaur) (stdev : Q),
     index (_observation_noise_stdev self) 0 = Ok stdev -> stdev <= 0 ->
     get_motor_angles self
     = Ok (MapToMinusPiToPi
             (slice (_control_observation self) 0 (num_motors self)))) /\
  (forall (self fresh later : Minitaur) (sim : Bullet.SimReading)
          (setters calls : list call) (action : Np.array),
     forallb is_setter setters = true ->
     reset self sim (run setters) = Ok fresh ->
     forallb (is_substep_call (_action_repeat self)) calls = true ->
     run (call_set_act action :: calls) fresh = Ok later ->
     _filter_action later = None) /\
  (forall (self fresh : Minitaur) (sim : Bullet.SimReading)
          (setters : list call) (stdev : Q) (true_angles : Np.array),
     forallb is_setter setters = true ->
     reset self sim (run setters) = Ok fresh ->
     index (_observation_noise_stdev self) 0 = Ok stdev -> stdev <= 0 ->
     get_true_motor_angles fresh = Ok true_angles ->
     length true_angles = num_motors self ->
     Forall (fun a => - math_pi <= a /\ a < math_pi) true_angles ->
     exists seed,
       Np.eqv seed true_angles /\
       get_motor_angles fresh = Ok seed /\
       (forall action, exists filtered after,
          _filter fresh action = Ok (filtered, after) /\
          ActionFilter.calls (_action_filter after)
          = ActionFilter.calls (_action_filter self)
              ++ (if _enable_action_filter self
                  then [ActionFilter.reset] else [])
              ++ [ActionFilter.init_history seed;
                  ActionFilter.filter action]) /\
       (_enable_action_interpolation self = true ->
        forall action,
          process_action fresh action 0
          = (lerp ← truediv (inject_Z (0 + 1))
                      (inject_Z (_action_repeat self));
             delta ← Np.sub action seed;
             Np.add seed (Np.scale lerp delta)))).
Proof.
  split; [exact filter_seeds_history|].
  split; [exact process_action_unfiltered|].
  split; [exact get_motor_angles_noiseless|]. split.
  - intros self fresh later sim setters calls action Hs Hreset Hc Hrun.
    destruct (reset_fresh self fresh sim setters Hs Hreset)
      as (Hd & _ & _ & Hfa & _).
    unfold run in Hrun. rewrite for_each_cons in Hrun.
    inv_bind_as Hrun acted Hact. simpl in Hact.
    destruct (set_act_frame _ _ _ Hact) as (Hd' & _ & _ & Hf & _).
    rewrite (substeps_keep_filter_action calls acted later);
      [congruence | now rewrite Hd', Hd | exact Hrun].
  - intros self fresh sim setters stdev true_angles
      Hs Hreset Hstdev Hquiet Htrue Hlen Hrange.
    destruct (reset_fresh self fresh sim setters Hs Hreset)
      as (Hd & _ & _ & Hfa & Hn & (angles & rest & Ha & _ & Hctrl) & Hcalls).
    rewrite Htrue in Ha. injection Ha as <-.
    assert (Hseed : get_motor_angles fresh
                    = Ok (MapToMinusPiToPi true_angles)).
    { rewrite (get_motor_angles_noiseless fresh stdev);
        [| now rewrite Hd | assumption].
      rewrite Hctrl, Hd, slice_prefix by assumption. reflexivity. }
    exists (MapToMinusPiToPi true_angles).
    split; [now apply wrap_principal|]. split; [exact Hseed|]. split.
    + intros action. unfold _filter. rewrite Hn, Hseed. simpl.
      eexists. eexists. split; [reflexivity|]. simpl.
      rewrite Hcalls, <- !app_assoc. reflexivity.
    + intros Hinterp action. unfold process_action.
      rewrite Hd, Hinterp, Hfa, Hseed. reflexivity.
Qed.

Lemma first_step_starts_from_reported_angles_witness :
  exists fresh later,
    reset Example.stale Example.sim (run [call_set_ctrl_latency (2 # 100)])
    = Ok fresh /\
    (exists seed,
       Np.eqv seed [1 # 2; 1 # 2] /\ get_motor_angles fresh = Ok seed) /\
    run [call_set_act [1; 1]; call_robot_step 0; step_and_receive_obs Example.moved;
         call_robot_step 1] fresh = Ok later /\
    _filter_action later = None.
Proof.
  destruct (reset Example.stale Example.sim
              (run [call_set_ctrl_latency (2 # 100)])) as [fresh|e] eqn:R;
    [|vm_compute in R; discriminate].
  destruct (run [call_set_act [1; 1]; call_robot_step 0;
                 step_and_receive_obs Example.moved; call_robot_step 1] fresh)
    as [later|e] eqn:E.
  2:{ vm_compute in R. injection R as <-. vm_compute in E. discriminate. }
  exists fresh, later. split; [reflexivity|].
  destruct first_step_starts_from_reported_angles
    as (_ & _ & _ & Hnone & Hreset).
  split; [|split; [exact E|]].
  - destruct (Hreset Example.stale fresh Example.sim
                [call_set_ctrl_latency (2 # 100)] 0 [1 # 2; 1 # 2])
      as (seed & He & Hg & _).
    + reflexivity.
    + exact R.
    + reflexivity.
    + discriminate.
    + vm_compute in R. injection R as <-. vm_compute. reflexivity.
    + reflexivity.
    + repeat constructor; discriminate.
    + exists seed. split; assumption.
  - apply (Hnone Example.stale fresh later Example.sim
             [call_set_ctrl_latency (2 # 100)]
             [call_robot_step 0; step_and_receive_obs Example.moved;
              call_robot_step 1] [1; 1]).
    + reflexivity.
    + exact R.
    + reflexivity.
    + exact E.
Defined.

(** C5 as stated fails: the robot is reset with its joints at 0.5 rad and a
    control latency of one step; the first action of the episode is set and
    sub-step 0 is made, after which the joints are at 0.6 rad.  There is
    still no previous filtered action, and the interpolation of sub-step 1
    starts from the delayed reading 0.5 rad: it gives
    [0.5 + 2/4 * (1 - 0.5) = 0.75], not the [0.6 + 2/4 * (1 - 0.6) = 0.8]
    that starts from the true angle. *)
Lemma first_step_interpolates_from_delayed_angles :
  exists fresh later proc,
    reset Example.stale Example.sim (run []) = Ok fresh /\
    run [call_set_act [1; 1]; call_robot_step 0; step_and_receive_obs Example.moved]
      fresh = Ok later /\
    _filter_action later = None /\
    _action later = [1; 1] /\
    get_true_motor_angles later = Ok [6 # 10; 6 # 10] /\
    process_action later (_action later) 1 = Ok proc /\
    Np.eqv proc [3 # 4; 3 # 4] /\
    Np.eqv [3 # 4; 3 # 4]
      (Np.zip_with Qplus [1 # 2; 1 # 2]
         (Np.scale (2 # 4) (Np.zip_with Qminus [1; 1] [1 # 2; 1 # 2]))) /\
    ~ Np.eqv proc
        (Np.zip_with Qplus [6 # 10; 6 # 10]
           (Np.scale (2 # 4) (Np.zip_with Qminus [1; 1] [6 # 10; 6 # 10]))).
Proof.
  eexists. eexists. eexists.
  split; [vm_compute; reflexivity|].
  split; [vm_compute; reflexivity|].
  split; [reflexivity|]. split; [vm_compute; reflexivity|].
  split; [vm_compute; reflexivity|].
  split; [vm_compute; reflexivity|].
  split; [repeat constructor|]. split; [repeat constructor|].
  intros H. inversion H as [|? ? ? ? Hh _]. vm_compute in Hh. discriminate.
Qed.

(** ** Mass and inertia setters *)

Section Setters.


Lemma change_inertias_written (rejected : list Q -> bool) (ids : list Z) :
  forall (rows : list (list Q)) (client : Bullet.BulletClient),
    Forall (fun row => rejected row = false) rows ->
    NoDup ids ->
    exists client',
      change_inertias rejected ids rows client = (client', None) /\
      Bullet.link_mass client' = Bullet.link_mass client /\
      Bullet.reading client' = Bullet.reading client /\
      Bullet.torque_control client' = Bullet.torque_control client /\
      (forall (j : nat) (link : Z) (row : list Q),
         ids !! j = Some link -> rows !! j = Some row ->
         Bullet.link_inertia client' !! link = Some row) /\
      (forall link, link ∉ take (length rows) ids ->
         Bullet.link_inertia client' !! link
         = Bullet.link_inertia client !! link).
Proof.
  induction ids as [|link ids IH]; intros rows client Hgood Hnd.
  - exists client. simpl. repeat split; try reflexivity. intros j ? ? H.
    destruct j; discriminate.
  - destruct rows as [|row rows].
    + exists client. simpl. repeat split; try reflexivity.
      intros j ? ? _ H. destruct j; discriminate.
    + inversion Hgood as [|? ? Hrow Hrest]; subst.
      apply NoDup_cons in Hnd as [Hnotin Hnd].
      destruct (IH rows (Bullet.changeDynamics_inertia link row client)
                  Hrest Hnd) as (client' & Hrun & Hm & Hr & Ht & Hw & Ho).
      exists client'. simpl. rewrite Hrow, Hrun.
      split; [reflexivity|]. split; [exact Hm|]. split; [exact Hr|].
      split; [exact Ht|]. split.
      * intros [|j] l r Hl Hrw; simpl in *.
        -- injection Hl as <-. injection Hrw as <-.
           rewrite Ho.
           ++ simpl. apply lookup_insert_eq.
           ++ intros Hin. apply Hnotin.
              eapply subseteq_take. exact Hin.
        -- now apply (Hw j).
      * intros l Hl. apply not_elem_of_cons in Hl as [Hne Hl].
        rewrite (Ho l Hl). simpl. now apply lookup_insert_ne.
Qed.

Lemma change_inertias_stops (rejected : list Q -> bool) (good : list (list Q)) :
  forall (ids : list Z) (bad : list Q) (rest : list (list Q))
         (client : Bullet.BulletClient),
    Forall (fun row => rejected row = false) good ->
    rejected bad = true ->
    (length good < length ids)%nat ->
    change_inertias rejected ids (good ++ bad :: rest) client
    = (fst (change_inertias rejected (take (length good) ids) good client),
       Some negative_inertia_error).
Proof.
  induction good as [|row good IH]; intros ids bad rest client Hgood Hbad Hlen.
  - destruct ids as [|link ids]; [simpl in Hlen; lia|].
    simpl. now rewrite Hbad.
  - destruct ids as [|link ids]; [simpl in Hlen; lia|].
    inversion Hgood as [|? ? Hrow Hrest]; subst.
    simpl. rewrite Hrow. apply IH; try assumption. simpl in Hlen. lia.
Qed.

End Setters.



(** [set_base_inertia] tests a row for negative values when it comes to
    write it: at the first row with a negative value it raises, and the rows
    before it have been written. *)
Lemma base_inertia_stops_at_negative_row (self : Minitaur)
    (good : list (list Q)) (bad : list Q) (rest : list (list Q)) :
  length (good ++ bad :: rest) = length (_chassis_link_ids self) ->
  Forall (fun row => any_negative row = false) good ->
  any_negative bad = true ->
  NoDup (_chassis_link_ids self) ->
  exists client',
    set_base_inertia self (good ++ bad :: rest)
    = (with_pybullet_client client' self, Some negative_inertia_error) /\
    Bullet.link_mass client' = Bullet.link_mass (_pybullet_client self) /\
    (forall (j : nat) (link : Z) (row : list Q),
       _chassis_link_ids self !! j = Some link -> good !! j = Some row ->
       Bullet.link_inertia client' !! link = Some row) /\
    (forall link,
       link ∉ take (length good) (_chassis_link_ids self) ->
       Bullet.link_inertia client' !! link
       = Bullet.link_inertia (_pybullet_client self) !! link).
Proof.
  intros Hlen Hgood Hbad Hnd. unfold set_base_inertia.
  rewrite Hlen, Nat.eqb_refl. simpl.
  rewrite change_inertias_stops; try assumption.
  2:{ rewrite <- Hlen, length_app. simpl. lia. }
  destruct (change_inertias_written any_negative
              (take (length good) (_chassis_link_ids self)) good
              (_pybullet_client self) Hgood)
    as (client' & Hrun & Hm & _ & _ & Hw & Ho).
  { eapply sublist_NoDup; [exact Hnd | apply sublist_take]. }
  rewrite Hrun. simpl. exists client'.
  split; [reflexivity|]. split; [exact Hm|]. split.
  - intros j link row Hl Hr. apply (Hw j); [|assumption].
    rewrite lookup_take_lt; [assumption|].
    now apply lookup_lt_Some in Hr.
  - intros link Hl. apply Ho.
    rewrite take_idemp. exact Hl.
Qed.

(** C9, at the failing input.  With chassis links -1 and 0, a negative value
    in the inertia of link 0 makes [set_base_inertia] raise after the
    inertia of link -1 has been changed from [1, 1, 1] to [2, 2, 2]: the
    call raises and has committed part of its effect.  [set_leg_inertia],
    given the same rows for its two links, raises the same error and leaves
    the robot as it was. *)
Theorem base_inertia_partly_committed :
  Bullet.link_inertia (_pybullet_client Example.robot) !! (-1)%Z
  = Some [1; 1; 1] /\
  snd (set_base_inertia Example.robot [[2; 2; 2]; [1; -1; 1]])
  = Some negative_inertia_error /\
  Bullet.link_inertia
    (_pybullet_client
       (fst (set_base_inertia Example.robot [[2; 2; 2]; [1; -1; 1]])))
    !! (-1)%Z
  = Some [2; 2; 2] /\
  set_leg_inertia Example.robot [[2; 2; 2]; [1; -1; 1]]
  = (Example.robot, Some negative_inertia_error).
Proof. repeat split; vm_compute; reflexivity. Qed.

(** ** Randomization engine: rejection sampling *)

Section Rejection.

Lemma existsb_false_Forall (p : Q -> bool) (v : list Q) :
  existsb p v = false <-> Forall (fun x => p x = false) v.
Proof.
  induction v as [|x v IH]; simpl.
  - split; [constructor | reflexivity].
  - rewrite orb_false_iff, IH. split.
    + intros [H1 H2]. now constructor.
    + intros H. inversion H; subst. now split.
Qed.

Lemma outside_false_iff (v : Randomizer.value) (low high : Q) :
  Randomizer.outside v low high = Ok false <->
  match v with
  | Randomizer.Float x => low <= x /\ x <= high
  | Randomizer.Array a => Forall (fun x => low <= x /\ x <= high) a
  | Randomizer.LegRatio _ _ => False
  end.
Proof.
  destruct v as [x|a|leg ratio]; simpl.
  - split.
    + intros [= H]. apply orb_false_iff in H as [H1 H2].
      apply Qltb_ge in H1, H2. now split.
    + intros [H1 H2]. apply Qltb_ge in H1, H2. now rewrite H1, H2.
  - split.
    + intros [= H]. apply orb_false_iff in H as [H1 H2].
      rewrite existsb_false_Forall in H1, H2.
      rewrite Forall_forall in *. intros x Hx. split.
      * apply Qltb_ge. now apply H1.
      * apply Qltb_ge. now apply H2.
    + intros H. f_equal. apply orb_false_iff.
      rewrite !existsb_false_Forall, !Forall_forall.
      rewrite Forall_forall in H.
      split; intros x Hx; apply Qltb_ge; now apply H.
  - split; [discriminate | contradiction].
Qed.

Lemma check_true_iff (values : gmap string Randomizer.value)
    (ranges : list (string * (Q * Q))) :
  Randomizer.check_in_rejection_range values ranges = Ok true <->
  Forall (fun item =>
            exists v, values !! fst item = Some v /\
                      Randomizer.outside v (fst (snd item)) (snd (snd item))
                      = Ok false) ranges.
Proof.
  induction ranges as [|[name range] ranges IH]; simpl.
  - split; [constructor | reflexivity].
  - split.
    + intros H. inv_bind_as H v Hv. inv_bind_as H out Hout.
      destruct (values !! name) as [v'|] eqn:E; [|discriminate].
      injection Hv as ->. destruct out; [discriminate|].
      constructor; [now exists v | now apply IH].
    + intros H. inversion H as [|? ? (v & Hv & Hout) Hrest]; subst.
      simpl in Hv, Hout. rewrite Hv. simpl. rewrite Hout. simpl.
      now apply IH.
Qed.

Variable robot : Randomizer.Robot.

(** One more pass over the sorted parameters, and [k] of them in a row. *)
Let resample (s : Randomizer.ControllableEnvRandomizerFromConfig
                  * list Randomizer.setter) :=
  for_each (Randomizer.sample_parameter robot)
    (Randomizer.sorted_items (Randomizer._randomization_param_dict (fst s))) s.

Let batch (s : Randomizer.ControllableEnvRandomizerFromConfig
               * list Randomizer.setter) (k : nat) :=
  Nat.iter k (fun r => r ≫= resample) (Ok s).

Let check (s : Randomizer.ControllableEnvRandomizerFromConfig
               * list Randomizer.setter) :=
  Randomizer._check_all_randomization_parameter_in_rejection_range (fst s).

Lemma iter_raise {A : Type} (g : A -> result A) (e : exn) (n : nat) :
  Nat.iter n (fun r => r ≫= g) (Raise e) = Raise e.
Proof. induction n as [|n IH]; simpl; [reflexivity | now rewrite IH]. Qed.

Lemma batch_shift (s s' : Randomizer.ControllableEnvRandomizerFromConfig
                          * list Randomizer.setter) (k : nat) :
  resample s = Ok s' -> batch s (S k) = batch s' k.
Proof.
  intros H. unfold batch. rewrite Nat.iter_succ_r. simpl. now rewrite H.
Qed.

Lemma rejection_loop_exits (fuel : nat) :
  forall s s_final,
    Randomizer.rejection_loop fuel robot s = Some (Ok s_final) <->
    exists n, (n < fuel)%nat /\
              batch s n = Ok s_final /\
              check s_final = Ok false /\
              forall i, (i < n)%nat ->
                exists s_i, batch s i = Ok s_i /\ check s_i = Ok true.
Proof.
  induction fuel as [|fuel IH]; intros s s_final.
  - split; [discriminate | intros (n & Hn & _); lia].
  - simpl. fold (check s). fold (resample s). split.
    + destruct (check s) as [[|]|e] eqn:C; try discriminate.
      * destruct (resample s) as [s'|e] eqn:R; [|discriminate].
        intros H. apply IH in H as (n & Hn & Hb & Hc & Hall).
        exists (S n). split; [lia|]. split; [now rewrite (batch_shift s s')|].
        split; [assumption|]. intros [|i] Hi.
        -- exists s. split; [reflexivity | assumption].
        -- rewrite (batch_shift s s') by assumption. apply Hall. lia.
      * intros [= <-]. exists 0%nat. split; [lia|]. split; [reflexivity|].
        split; [assumption|]. intros i Hi. lia.
    + intros (n & Hn & Hb & Hc & Hall). destruct n as [|n].
      * injection Hb as <-. fold (check s) in Hc. now rewrite Hc.
      * destruct (Hall 0%nat) as (s0 & H0 & C0); [lia|].
        injection H0 as <-. rewrite C0.
        destruct (resample s) as [s'|e] eqn:R.
        -- apply IH. exists n. split; [lia|].
           rewrite (batch_shift s s') in Hb by assumption.
           split; [assumption|]. split; [assumption|].
           intros i Hi. destruct (Hall (S i)) as (si & Hsi & Ci); [lia|].
           rewrite (batch_shift s s') in Hsi by assumption.
           now exists si.
        -- exfalso. unfold batch in Hb. rewrite Nat.iter_succ_r in Hb.
           simpl in Hb. rewrite R, iter_raise in Hb. discriminate.
Qed.

Lemma rejection_loop_spins (fuel : nat) :
  forall s,
    (forall i, (i < fuel)%nat ->
       exists s_i s_next,
         batch s i = Ok s_i /\ check s_i = Ok true /\
         resample s_i = Ok s_next) ->
    Randomizer.rejection_loop fuel robot s = None.
Proof.
  induction fuel as [|fuel IH]; intros s Hall; [reflexivity|].
  simpl. fold (check s). fold (resample s).
  destruct (Hall 0%nat) as (s0 & s1 & H0 & C0 & R0); [lia|].
  injection H0 as <-. rewrite C0, R0.
  apply IH. intros i Hi.
  destruct (Hall (S i)) as (si & sn & Hsi & Ci & Ri); [lia|].
  rewrite (batch_shift s s1) in Hsi by assumption.
  now exists si, sn.
Qed.

End Rejection.

(** ** Randomization engine: what a per-parameter method does *)

Section Methods.

(** Two randomizers that differ at most in samples and generator. *)
Let same_settings (a b : Randomizer.ControllableEnvRandomizerFromConfig) :=
  Randomizer._randomization_param_dict b = Randomizer._randomization_param_dict a /\
  Randomizer._randomization_seed b = Randomizer._randomization_seed a /\
  Randomizer._param_bounds b = Randomizer._param_bounds a /\
  Randomizer._suspend_randomization b = Randomizer._suspend_randomization a /\
  Randomizer._rejection_param_range b = Randomizer._rejection_param_range a.

Lemma transform_bounds (a b : Randomizer.ControllableEnvRandomizerFromConfig)
    (lb ub s : Q) :
  Randomizer._param_bounds b = Randomizer._param_bounds a ->
  Randomizer.transform b lb ub s = Randomizer.transform a lb ub s.
Proof. intros H. unfold Randomizer.transform. now rewrite H. Qed.

Lemma transform_array_bounds
    (a b : Randomizer.ControllableEnvRandomizerFromConfig) (lb ub : Q)
    (s : Np.array) :
  Randomizer._param_bounds b = Randomizer._param_bounds a ->
  Randomizer.transform_array b lb ub s = Randomizer.transform_array a lb ub s.
Proof.
  intros H. induction s as [|x s IH]; simpl; [reflexivity|].
  now rewrite (transform_bounds a b), IH.
Qed.

(** What holds of the method registered under [name] whenever it returns. *)
Let behaves (name : string) (f : Randomizer.method) : Prop :=
  forall self lb ub p self' calls,
    f self lb ub p = Ok (self', calls) ->
    same_settings self self' /\
    exists sample,
      Randomizer._randomization_param_value_dict self'
      = <[name := sample]> (Randomizer._randomization_param_value_dict self) /\
      (forall v, p = Some v ->
         sample = v /\ Randomizer._np_random self' = Randomizer._np_random self) /\
      forall self2,
        Randomizer._param_bounds self2 = Randomizer._param_bounds self ->
        exists self2',
          f self2 lb ub (Some sample) = Ok (self2', calls) /\
          same_settings self2 self2' /\
          Randomizer._np_random self2' = Randomizer._np_random self2 /\
          Randomizer._randomization_param_value_dict self2'
          = <[name := sample]> (Randomizer._randomization_param_value_dict self2).

Ltac open_method H :=
  unfold Randomizer._randomize_masses, Randomizer._randomize_individual_masses,
    Randomizer._randomize_basemass, Randomizer._randomize_inertia,
    Randomizer._randomize_individual_inertia, Randomizer._randomize_latency,
    Randomizer._randomize_joint_friction, Randomizer._randomize_motor_friction,
    Randomizer._randomize_contact_restitution,
    Randomizer._randomize_contact_friction, Randomizer._randomize_battery_level,
    Randomizer._randomize_motor_strength,
    Randomizer._randomize_global_motor_strength,
    Randomizer._randomize_control_step, Randomizer._randomize_leg_weakening,
    Randomizer._randomize_single_leg_weakening,
    Randomizer.float_sample, Randomizer.array_sample in H.

Ltac open_goal :=
  unfold Randomizer._randomize_masses, Randomizer._randomize_individual_masses,
    Randomizer._randomize_basemass, Randomizer._randomize_inertia,
    Randomizer._randomize_individual_inertia, Randomizer._randomize_latency,
    Randomizer._randomize_joint_friction, Randomizer._randomize_motor_friction,
    Randomizer._randomize_contact_restitution,
    Randomizer._randomize_contact_friction, Randomizer._randomize_battery_level,
    Randomizer._randomize_motor_strength,
    Randomizer._randomize_global_motor_strength,
    Randomizer._randomize_control_step, Randomizer._randomize_leg_weakening,
    Randomizer._randomize_single_leg_weakening,
    Randomizer.float_sample, Randomizer.array_sample.

(** Every equation obtained from the run on [self] is replayed on [self2]. *)
Ltac replay Hb :=
  repeat (cbn [mbind result_bind];
          match goal with
          | E : Randomizer.transform _ _ _ _ = Ok _ |- _ =>
              rewrite <- (transform_bounds _ _ _ _ _ Hb) in E; rewrite E;
              clear E
          | E : Randomizer.transform_array _ _ _ _ = Ok _ |- _ =>
              rewrite <- (transform_array_bounds _ _ _ _ _ Hb) in E;
              rewrite E; clear E
          | E : _ = Ok _ |- _ => rewrite E; clear E
          end).

Ltac draw H :=
  repeat match type of H with
    | context [Randomizer.uniform_array ?a ?b ?n ?r] =>
        destruct (Randomizer.uniform_array a b n r)
    | context [Randomizer.randint ?n ?r] => destruct (Randomizer.randint n r)
    | context [Randomizer.uniform ?a ?b ?r] =>
        destruct (Randomizer.uniform a b r)
    end.

Ltac method_behaves :=
  let H := fresh "H" in
  let Hb := fresh "Hb" in
  let Hp := fresh "Hp" in
  intros self lb ub p self' calls H; open_method H;
  destruct p as [[s|v|l r]|]; try discriminate H;
  draw H; cbn [mbind result_bind] in H;
  repeat (inv_bind H; cbn [mbind result_bind] in H);
  first
    [ discriminate H
    | injection H as <- <-;
      (split; [repeat split|]);
      eexists; (split; [reflexivity|]); split;
      [ intros ? Hp;
        first [discriminate Hp | injection Hp as <-; split; reflexivity]
      | intros self2 Hb; open_goal; replay Hb; cbn [mbind result_bind];
        eexists; split; [reflexivity|]; repeat split ] ].

Lemma latency_behaves :
  behaves "latency" (fun self => Randomizer._randomize_latency self).
Proof. method_behaves. Qed.

Lemma function_dict_behaves (robot : Randomizer.Robot) (name : string)
    (f : Randomizer.method) :
  Randomizer.getitem (Randomizer._build_randomization_function_dict robot) name
  = Ok f ->
  behaves name f.
Proof.
  unfold Randomizer.getitem, Randomizer.dict_get,
    Randomizer._build_randomization_function_dict.
  cbn [List.find fst snd].
  repeat match goal with
    | |- context [String.eqb ?k name] =>
        let E := fresh "E" in
        destruct (String.eqb k name) eqn:E;
        [ apply String.eqb_eq in E; subst name; cbn [fmap option_fmap option_map snd];
          intros [= <-]; method_behaves
        | ]
    end.
  discriminate.
Qed.

End Methods.

(** ** Randomization engine: replaying a stored sample *)

Section Replay.

Variable robot : Randomizer.Robot.








End Replay.

Section Suspended.

Variable robot : Randomizer.Robot.



End Suspended.



(** C7, at the failing input.  The configuration holds "motor strength" and
    then "global motor strength".  The sampling pass goes through the sorted
    names: it sets the global ratio 0.55 and then the per-motor ratios 1.0,
    which the robot keeps.  The suspended call replays the same samples in
    the order of the configuration: it sets the per-motor ratios 1.0 and
    then the global ratio 0.55, which the robot keeps.  The stored samples
    are the same, the motor strength the robot ends with is not. *)
Theorem replay_order_changes_motor_strength (fuel : nat) :
  let per_motor := Randomizer.set_motor_strength_ratios
                     [4000 # 4000; 4000 # 4000] in
  let global := Randomizer.set_motor_strength_ratios
                  [2200 # 4000; 2200 # 4000] in
  exists sampled replayed,
    Randomizer.randomize_env fuel
      (Example.make_randomizer Example.strengths ∅ false) Example.view
    = Some (Ok (sampled, [global; per_motor])) /\
    Randomizer.randomize_env fuel
      (Randomizer.with_suspend_randomization true sampled) Example.view
    = Some (Ok (replayed, [per_motor; global])) /\
    Randomizer._randomization_param_value_dict replayed
    = Randomizer._randomization_param_value_dict sampled /\
    last [global; per_motor] = Some per_motor /\
    last [per_motor; global] = Some global /\
    per_motor <> global.
Proof.
  intros per_motor global. eexists. eexists.
  split; [vm_compute; reflexivity|].
  split; [vm_compute; reflexivity|].
  split; [vm_compute; reflexivity|].
  split; [reflexivity|]. split; [reflexivity|]. discriminate.
Qed.

(** ** Randomization engine: entering the rejection loop *)

Section Registration.

Variable robot : Randomizer.Robot.

Lemma dict_set_nonempty {V : Type} (k : string) (v : V)
    (d : list (string * V)) :
  Randomizer.dict_set k v d <> [].
Proof.
  destruct d as [|[k' v'] d]; simpl; [discriminate|].
  destruct (String.eqb k' k); discriminate.
Qed.

Lemma sample_parameter_keeps_ranges (item : string * list Q) :
  forall self calls self' calls',
    Randomizer.sample_parameter robot item (self, calls) = Ok (self', calls') ->
    Randomizer._rejection_param_range self'
    = Randomizer._rejection_param_range self.
Proof.
  destruct item as [name range]. intros self calls self' calls' H.
  unfold Randomizer.sample_parameter in H.
  inv_bind_as H f Hf. inv_bind_as H lb Hlb. inv_bind_as H ub Hub.
  inv_bind_as H out Hout. destruct out as [self1 new_calls].
  injection H as <- <-.
  now destruct (function_dict_behaves robot name f Hf self lb ub None self1
                  new_calls Hout) as ((_ & _ & _ & _ & Hr) & _).
Qed.

(** The first loop of [randomize_env] leaves a forbidden range behind
    exactly when there was one or some parameter carries four numbers. *)
Lemma registered_ranges (items : list (string * list Q)) :
  forall self calls self' calls',
    for_each (Randomizer.sample_and_register robot) items (self, calls)
    = Ok (self', calls') ->
    (Randomizer._rejection_param_range self' = [] <->
     Randomizer._rejection_param_range self = [] /\
     Forall (fun item => length (snd item) <> 4%nat) items).
Proof.
  induction items as [|[name range] items IH]; intros self calls self' calls' H.
  - injection H as <- <-. split; [now split | now intros [? _]].
  - rewrite for_each_cons in H. inv_bind_as H mid Hmid.
    destruct mid as [self1 calls1]. rewrite (IH _ _ _ _ H). clear IH H.
    unfold Randomizer.sample_and_register in Hmid.
    inv_bind_as Hmid out Hout. destruct out as [self0 calls0].
    apply sample_parameter_keeps_ranges in Hout.
    destruct (length range =? 4)%nat eqn:E.
    + inv_bind_as Hmid lo Hlo. inv_bind_as Hmid hi Hhi.
      injection Hmid as <- <-. simpl. apply Nat.eqb_eq in E. split.
      * intros [Habs _]. now apply dict_set_nonempty in Habs.
      * intros [_ Hall]. inversion Hall as [|? ? Hne ?]; subst.
        simpl in Hne. contradiction.
    + injection Hmid as <- <-. rewrite Hout. apply Nat.eqb_neq in E. split.
      * intros [? ?]. split; [assumption|]. now constructor.
      * intros [? Hall]. inversion Hall; subst. now split.
Qed.

End Registration.

(** C6, as the code has it.  With randomization not suspended,
    [randomize_env] samples and applies every parameter once and then
    enters the loop exactly when some parameter carries four numbers.  The
    condition of the loop holds exactly when, for every forbidden range,
    the sample stored under that name (the normalized sample the method
    drew, not the physical value handed to the robot) lies within the
    range.  The loop returns after [n] further passes over all parameters
    exactly when the condition held before each of them and fails after the
    last; while the condition keeps holding no number of evaluations ends
    it. *)
Theorem rejection_loop_tests_stored_samples (robot : Randomizer.Robot) :
  let first_pass self :=
    let seeded :=
      match Randomizer._randomization_seed self with
      | Some s =>
          Randomizer.with_np_random
            (Randomizer.seed s (Randomizer._np_random self)) self
      | None => self
      end in
    let cleared := Randomizer.with_rejection_param_range [] seeded in
    for_each (Randomizer.sample_and_register robot)
      (Randomizer.sorted_items (Randomizer._randomization_param_dict cleared))
      (cleared, []) in
  let resample s :=
    for_each (Randomizer.sample_parameter robot)
      (Randomizer.sorted_items (Randomizer._randomization_param_dict (fst s)))
      s in
  let batch s (k : nat) := Nat.iter k (fun r => r ≫= resample) (Ok s) in
  let check (s : Randomizer.ControllableEnvRandomizerFromConfig
                 * list Randomizer.setter) :=
    Randomizer._check_all_randomization_parameter_in_rejection_range (fst s) in
  (forall fuel self s,
     Randomizer._suspend_randomization self = false ->
     first_pass self = Ok s ->
     (Exists (fun item => length (snd item) = 4%nat)
        (Randomizer._randomization_param_dict self) ->
      Randomizer.randomize_env fuel self robot
      = Randomizer.rejection_loop fuel robot s) /\
     (Forall (fun item => length (snd item) <> 4%nat)
        (Randomizer._randomization_param_dict self) ->
      Randomizer.randomize_env fuel self robot = Some (Ok s))) /\
  (forall s,
     check s = Ok true <->
     Forall (fun item =>
               exists v,
                 Randomizer._randomization_param_value_dict (fst s) !! fst item
                 = Some v /\
                 match v with
                 | Randomizer.Float x =>
                     fst (snd item) <= x /\ x <= snd (snd item)
                 | Randomizer.Array a =>
                     Forall (fun x => fst (snd item) <= x /\ x <= snd (snd item))
                       a
                 | Randomizer.LegRatio _ _ => False
                 end)
       (Randomizer._rejection_param_range (fst s))) /\
  (forall fuel s s_final,
     Randomizer.rejection_loop fuel robot s = Some (Ok s_final) <->
     exists n, (n < fuel)%nat /\
               batch s n = Ok s_final /\
               check s_final = Ok false /\
               forall i, (i < n)%nat ->
                 exists s_i, batch s i = Ok s_i /\ check s_i = Ok true) /\
  (forall fuel s,
     (forall i, (i < fuel)%nat ->
        exists s_i s_next,
          batch s i = Ok s_i /\ check s_i = Ok true /\
          resample s_i = Ok s_next) ->
     Randomizer.rejection_loop fuel robot s = None).
Proof.
  intros first_pass resample batch check.
  split; [|split; [|split]].
  - intros fuel self [self' calls] Hs Hpass.
    assert (Hcfg : forall P : string * list Q -> Prop,
               Forall P (Randomizer.sorted_items
                           (Randomizer._randomization_param_dict self))
               <-> Forall P (Randomizer._randomization_param_dict self)).
    { intros P. unfold Randomizer.sorted_items.
      now rewrite merge_sort_Permutation. }
    assert (Hrun : Randomizer.randomize_env fuel self robot
                   = match Randomizer._rejection_param_range self' with
                     | [] => Some (Ok (self', calls))
                     | _ :: _ =>
                         Randomizer.rejection_loop fuel robot (self', calls)
                     end).
    { unfold Randomizer.randomize_env. rewrite Hs. simpl.
      unfold first_pass in Hpass. simpl in Hpass.
      destruct (Randomizer._randomization_seed self); simpl in Hpass |- *;
        now rewrite Hpass. }
    assert (Hreg : Randomizer._rejection_param_range self' = [] <->
                   Forall (fun item => length (snd item) <> 4%nat)
                     (Randomizer._randomization_param_dict self)).
    { unfold first_pass in Hpass. apply registered_ranges in Hpass.
      rewrite Hpass.
      destruct (Randomizer._randomization_seed self);
        cbn [Randomizer._randomization_param_dict
               Randomizer._rejection_param_range
               Randomizer.with_rejection_param_range
               Randomizer.with_np_random];
        rewrite Hcfg; tauto. }
    rewrite Hrun. split.
    + intros Hex. destruct (Randomizer._rejection_param_range self');
        [|reflexivity].
      exfalso. apply Exists_exists in Hex as (item & Hin & Hlen).
      pose proof (proj1 Hreg eq_refl) as Hall.
      rewrite Forall_forall in Hall. exact (Hall item Hin Hlen).
    + intros Hall. now rewrite (proj2 Hreg Hall).
  - intros s. unfold check,
      Randomizer._check_all_randomization_parameter_in_rejection_range.
    rewrite check_true_iff. unfold Randomizer.sorted_items.
    rewrite merge_sort_Permutation.
    apply Forall_iff. intros item. split.
    + intros (v & Hv & Hout). exists v. split; [exact Hv|].
      now apply outside_false_iff.
    + intros (v & Hv & Hin). exists v. split; [exact Hv|].
      now apply outside_false_iff.
  - intros fuel s s_final. apply (rejection_loop_exits robot fuel s s_final).
  - intros fuel s Hall. apply (rejection_loop_spins robot fuel s Hall).
Qed.

Lemma rejection_loop_tests_stored_samples_witness :
  Randomizer._suspend_randomization Example.rejecting = false /\
  Exists (fun item => length (snd item) = 4%nat)
    (Randomizer._randomization_param_dict Example.rejecting) /\
  exists s,
    Randomizer.randomize_env 1 Example.rejecting Example.view
    = Randomizer.rejection_loop 1 Example.view s.
Proof.
  split; [reflexivity|]. split; [left; reflexivity|].
  eexists.
  apply (proj1 (rejection_loop_tests_stored_samples Example.view) 1%nat
           Example.rejecting).
  - reflexivity.
  - vm_compute. reflexivity.
  - left. reflexivity.
Defined.

(** C6 as stated fails: latency is drawn from [0, 10] s with [4, 6]
    forbidden and normalized bounds [-1, 1]; the generator yields 1/2, the
    stored sample is 0 and the latency handed to the robot is 5 s, inside
    the forbidden range.  The loop compares the stored 0 with [4, 6] and
    returns at its first test. *)
Lemma rejection_misses_physical_value :
  exists self' latency,
    Randomizer.randomize_env 1 Example.rejecting Example.view
    = Some (Ok (self', [Randomizer.set_ctrl_latency latency])) /\
    Randomizer._rejection_param_range self' = [("latency", (4, 6))] /\
    (4 <= latency /\ latency <= 6) /\
    Randomizer._randomization_param_value_dict self' !! "latency"
    = Some (Randomizer.Float (0 # 2)) /\
    Randomizer._check_all_randomization_parameter_in_rejection_range self'
    = Ok false.
Proof.
  eexists. exists (20 # 4).
  split; [vm_compute; reflexivity|].
  split; [reflexivity|].
  split; [split; discriminate|].
  split; vm_compute; reflexivity.
Qed.


(** * Further properties of the robot and of the randomization engine *)

(** ** Reported motor angles *)

Section Wrap.

Lemma int_near (x : Q) : x - 1 < inject_Z (int x) /\ inject_Z (int x) < x + 1.
Proof.
  destruct (Qlt_le_dec x 0) as [Hneg|Hpos].
  - assert (H : 0 <= - x) by lra.
    pose proof (int_opp x) as Ho. rewrite (int_floor _ H) in Ho.
    pose proof (Qfloor_le (- x)) as H1. pose proof (Qlt_floor (- x)) as H2.
    assert (E : int x = (- Qfloor (- x))%Z) by lia.
    rewrite E, inject_Z_opp. rewrite inject_Z_plus in H2. change (inject_Z 1) with 1 in H2. lra.
  - rewrite (int_floor _ Hpos).
    pose proof (Qfloor_le x) as H1. pose proof (Qlt_floor x) as H2.
    rewrite inject_Z_plus in H2. change (inject_Z 1) with 1 in H2. lra.
Qed.

Lemma int_sign (x : Q) :
  (0 <= x -> 0 <= inject_Z (int x) /\ inject_Z (int x) <= x) /\
  (x <= 0 -> x <= inject_Z (int x) /\ inject_Z (int x) <= 0).
Proof.
  split; intros H.
  - rewrite (int_floor _ H). split; [|apply Qfloor_le].
    change 0 with (inject_Z 0). rewrite <- Zle_Qle.
    apply Qfloor_resp_le in H. exact H.
  - assert (H' : 0 <= - x) by lra.
    pose proof (int_opp x) as Ho. rewrite (int_floor _ H') in Ho.
    assert (E : int x = (- Qfloor (- x))%Z) by lia.
    rewrite E, inject_Z_opp.
    pose proof (Qfloor_le (- x)) as H1.
    assert (0 <= inject_Z (Qfloor (- x))).
    { change 0 with (inject_Z 0). rewrite <- Zle_Qle.
      apply Qfloor_resp_le in H'. exact H'. }
    lra.
Qed.

Lemma fmod_sign (a T : Q) :
  0 < T ->
  (exists k : Z, fmod a T == a + inject_Z k * T) /\
  (0 <= a -> 0 <= fmod a T /\ fmod a T < T) /\
  (a <= 0 -> - T < fmod a T /\ fmod a T <= 0).
Proof.
  intros HT. unfold fmod.
  set (d := a / T).
  assert (Ha : a == d * T) by (unfold d; field; lra).
  destruct (int_near d) as [N1 N2]. destruct (int_sign d) as [S1 S2].
  set (q := inject_Z (int d)) in *.
  split; [|split].
  - exists (- int d)%Z. rewrite inject_Z_opp. fold q. lra.
  - intros H0. assert (Hd : 0 <= d).
    { unfold d. apply Qle_shift_div_l; lra. }
    destruct (S1 Hd) as [Q1 Q2]. split; nra.
  - intros H0. assert (Hd : d <= 0).
    { unfold d. apply Qle_shift_div_r; lra. }
    destruct (S2 Hd) as [Q1 Q2]. split; nra.
Qed.

Lemma wrap_component (p T a : Q) :
  0 < p -> T == 2 * p ->
  let mapped := fmod a T in
  let wrapped := if Qle_bool p mapped then mapped - T
                 else if Qltb mapped (- p) then mapped + T
                 else mapped in
  - p <= wrapped /\ wrapped < p /\
  exists k : Z, wrapped == a + inject_Z k * T.
Proof.
  intros Hp E mapped wrapped.
  assert (HT : 0 < T) by lra.
  destruct (fmod_sign a T HT) as ((k & Hk) & Hpos & Hneg).
  fold mapped in Hk, Hpos, Hneg. subst wrapped.
  destruct (Qle_bool p mapped) eqn:C1.
  - apply Qle_bool_iff in C1.
    destruct (Qlt_le_dec a 0) as [Ha|Ha].
    + destruct Hneg as [H1 H2]; [lra|]. exfalso. lra.
    + destruct Hpos as [H1 H2]; [lra|].
      split; [lra|]. split; [lra|].
      exists (k - 1)%Z. unfold Zminus. rewrite inject_Z_plus, inject_Z_opp.
      change (inject_Z 1) with 1. lra.
  - apply Qle_bool_false in C1.
    destruct (Qltb mapped (- p)) eqn:C2.
    + apply Qltb_lt in C2.
      destruct (Qlt_le_dec a 0) as [Ha|Ha].
      * destruct Hneg as [H1 H2]; [lra|].
        split; [lra|]. split; [lra|].
        exists (k + 1)%Z. rewrite inject_Z_plus.
        change (inject_Z 1) with 1. lra.
      * destruct Hpos as [H1 H2]; [lra|]. exfalso. lra.
    + apply Qltb_ge in C2. split; [lra|]. split; [lra|]. now exists k.
Qed.

End Wrap.


(** [MapToMinusPiToPi] sends every angle to the representative of its class
    modulo [TWO_PI] that lies in [-pi, pi). *)
Lemma MapToMinusPiToPi_principal (angles : Np.array) :
  Forall2 (fun angle mapped =>
             - math_pi <= mapped /\ mapped < math_pi /\
             exists k : Z, mapped == angle + inject_Z k * TWO_PI)
    angles (MapToMinusPiToPi angles).
Proof.
  unfold MapToMinusPiToPi. apply Forall2_fmap_r, Forall_Forall2_diag.
  apply Forall_forall. intros a _.
  apply (wrap_component math_pi TWO_PI a); reflexivity.
Qed.

(** Reported motor angles.  Whatever the delayed observation and the sensor
    noise, every angle [get_motor_angles] reports lies in [-pi, pi) and
    differs from the noisy delayed reading by a whole number of turns;
    [Quadruped.GetMotorAngles] reports the same angles. *)
Theorem get_motor_angles_principal (self : Minitaur) (angles : Np.array) :
  get_motor_angles self = Ok angles ->
  Quadruped.GetMotorAngles self = Ok angles /\
  exists stdev reading,
    index (_observation_noise_stdev self) 0 = Ok stdev /\
    _add_sensor_noise self
      (slice (_control_observation self) 0 (num_motors self)) stdev
    = Ok reading /\
    Forall2 (fun r a =>
               - math_pi <= a /\ a < math_pi /\
               exists k : Z, a == r + inject_Z k * TWO_PI) reading angles.
Proof.
  intros H. split; [exact H|].
  unfold get_motor_angles in H.
  inv_bind_as H stdev Hstdev. inv_bind_as H reading Hreading.
  injection H as <-. exists stdev, reading.
  split; [exact Hstdev|]. split; [exact Hreading|].
  apply MapToMinusPiToPi_principal.
Qed.

Lemma get_motor_angles_principal_witness :
  exists angles,
    get_motor_angles
      (Example.make_robot false 0 [Example.observation 4 (-7)]
         (Example.observation 4 (-7))) = Ok angles /\
    Forall (fun a => - math_pi <= a /\ a < math_pi) angles.
Proof.
  destruct (get_motor_angles
              (Example.make_robot false 0 [Example.observation 4 (-7)]
                 (Example.observation 4 (-7))))
    as [angles|e] eqn:E; [|vm_compute in E; discriminate].
  exists angles. split; [reflexivity|].
  destruct (get_motor_angles_principal _ _ E)
    as (_ & stdev & reading & _ & _ & Hall).
  eapply Forall2_Forall_r; [exact Hall|].
  apply Forall_forall. intros r _ a (H1 & H2 & _). now split.
Defined.

(** ** Delayed observations: the failing cases *)

Lemma index_nil {A : Type} (i : Z) : index (@nil A) i = Raise IndexError.
Proof.
  unfold index. change (Z.of_nat (length (@nil A)) + i)%Z with i.
  destruct (i <? 0)%Z eqn:E; rewrite ?E; [reflexivity|].
  now rewrite lookup_nil.
Qed.

(** Before the first observation is received [_get_delay_obs] raises
    [IndexError]; with a zero [time_step], a positive latency and two or
    more recorded observations it raises [ZeroDivisionError]. *)
Theorem get_delay_obs_raises (self : Minitaur) (latency : Q) :
  (_observation_history self = [] ->
   latency <= 0 \/ ~ time_step self == 0 ->
   _get_delay_obs self latency = Raise IndexError) /\
  ((2 <= length (_observation_history self))%nat ->
   0 < latency -> time_step self == 0 ->
   _get_delay_obs self latency = Raise ZeroDivisionError).
Proof.
  unfold _get_delay_obs. split.
  - intros -> Hor. simpl.
    destruct (Qle_bool latency 0) eqn:E; simpl; [reflexivity|].
    destruct Hor as [Hle|Hstep].
    + apply Qle_bool_iff in Hle. congruence.
    + rewrite truediv_ok by exact Hstep. cbn [mbind result_bind].
      destruct (_ <=? _)%Z; [reflexivity|].
      rewrite truediv_ok by exact Hstep. cbn [mbind result_bind].
      repeat rewrite index_nil. reflexivity.
  - intros Hlen Hpos Hzero.
    assert (E : Qle_bool latency 0 = false) by now apply Qle_bool_false.
    rewrite E. simpl.
    destruct (Nat.eqb_spec (length (_observation_history self)) 1); [lia|].
    now rewrite truediv_zero.
Qed.

Lemma get_delay_obs_raises_witness :
  _get_delay_obs (Example.make_robot false 0 [] []) 0 = Raise IndexError.
Proof.
  apply (proj1 (get_delay_obs_raises (Example.make_robot false 0 [] []) 0)).
  - reflexivity.
  - left. discriminate.
Defined.

(** With no control latency the observation the controller reads is the
    one just received: [receive_obs] stores the current true observation
    both at the front of the history and as the control observation. *)
Theorem receive_obs_without_latency (self self' : Minitaur) :
  _control_latency self <= 0 ->
  receive_obs self = Ok self' ->
  exists obs,
    get_true_obs self' = Ok obs /\
    _observation_history self' !! 0%nat = Some obs /\
    _control_observation self' = obs.
Proof.
  unfold receive_obs. intros Hl H.
  inv_bind_as H obs Hobs. inv_bind_as H ctrl Hctrl. injection H as <-.
  exists obs. split; [exact Hobs|]. split; [reflexivity|]. simpl.
  unfold _get_ctrl_obs, _get_delay_obs in Hctrl. simpl in Hctrl.
  apply Qle_bool_iff in Hl. rewrite Hl in Hctrl. simpl in Hctrl.
  unfold appendleft, deque_maxlen in Hctrl. simpl in Hctrl.
  now injection Hctrl as <-.
Qed.

Lemma receive_obs_without_latency_witness :
  exists self' obs,
    receive_obs (Example.make_robot false 0 Example.five
                   (Example.observation 1 1)) = Ok self' /\
    get_true_obs self' = Ok obs /\
    _control_observation self' = obs.
Proof.
  destruct (receive_obs (Example.make_robot false 0 Example.five
                           (Example.observation 1 1)))
    as [self'|e] eqn:E; [|vm_compute in E; discriminate].
  assert (Hl : _control_latency
                 (Example.make_robot false 0 Example.five
                    (Example.observation 1 1)) <= 0) by discriminate.
  destruct (receive_obs_without_latency _ self' Hl E)
    as (obs & Hobs & _ & Hctrl).
  now exists self', obs.
Defined.

(** ** Inertia setters: what a successful call writes *)

Lemma any_negative_false (row : list Q) :
  any_negative row = false <-> Forall (fun v => 0 <= v) row.
Proof.
  unfold any_negative, negative. rewrite existsb_false_Forall.
  apply Forall_iff. intros v. apply Qltb_ge.
Qed.

(** [set_base_inertia] with one row per chassis link (the ids being
    distinct) and no negative value raises nothing, gives every chassis
    link its row in order and leaves the masses alone. *)
Theorem set_base_inertia_writes_every_link (self : Minitaur)
    (base_inertias : list (list Q)) :
  length base_inertias = length (_chassis_link_ids self) ->
  NoDup (_chassis_link_ids self) ->
  Forall (Forall (fun v => 0 <= v)) base_inertias ->
  exists self',
    set_base_inertia self base_inertias = (self', None) /\
    (forall j link row,
       _chassis_link_ids self !! j = Some link ->
       base_inertias !! j = Some row ->
       Bullet.link_inertia (_pybullet_client self') !! link = Some row) /\
    (forall link,
       link ∉ _chassis_link_ids self ->
       Bullet.link_inertia (_pybullet_client self') !! link
       = Bullet.link_inertia (_pybullet_client self) !! link) /\
    Bullet.link_mass (_pybullet_client self')
    = Bullet.link_mass (_pybullet_client self).
Proof.
  intros Hlen Hnd Hgood. unfold set_base_inertia.
  rewrite Hlen, Nat.eqb_refl. simpl.
  destruct (change_inertias_written any_negative (_chassis_link_ids self)
              base_inertias (_pybullet_client self))
    as (client' & Hrun & Hm & _ & _ & Hw & Ho).
  { eapply Forall_impl; [exact Hgood|]. intros row. apply any_negative_false. }
  { exact Hnd. }
  rewrite Hrun. eexists. split; [reflexivity|]. simpl.
  split; [exact Hw|]. split; [|exact Hm].
  intros link Hnot. apply Ho. intros Hin. apply Hnot.
  eapply subseteq_take. exact Hin.
Qed.

Lemma set_base_inertia_writes_every_link_witness :
  exists self',
    set_base_inertia Example.robot [[2; 2; 2]; [3; 3; 3]] = (self', None) /\
    Bullet.link_inertia (_pybullet_client self') !! 0%Z = Some [3; 3; 3].
Proof.
  destruct (set_base_inertia_writes_every_link Example.robot
              [[2; 2; 2]; [3; 3; 3]]) as (self' & Hset & Hw & _).
  - reflexivity.
  - apply (bool_decide_unpack _). vm_compute. reflexivity.
  - repeat constructor; discriminate.
  - exists self'. split; [exact Hset|]. apply (Hw 1%nat); reflexivity.
Defined.

(** ** Torque conversion: what [apply_action] sends *)

(** Torque conversion.  [apply_action] hands the motor model the clamped
    command, the observation delayed by the PD latency and the true motor
    velocities; it stores the observed torques the model returns, and for
    every motor it sends the motor's id together with the actual torque
    times the motor direction when the motor is enabled after the overheat
    check, and with 0 when it is not.  Nothing else of the engine changes. *)
Theorem apply_action_sends_gated_torques (self self' : Minitaur)
    (motor_commands : Np.array) (mode : option Motor.MotorControlMode) :
  apply_action self motor_commands mode = Ok self' ->
  exists clipped q qdot qdot_true applied,
    _clip_motor_commands self motor_commands = Ok clipped /\
    _get_pd_obs self = Ok (q, qdot) /\
    get_true_motor_vel self = Ok qdot_true /\
    let control_mode : Motor.MotorControlMode := match mode with
                        | Some m => m
                        | None => _motor_control_mode self
                        end in
    let torques := _motor_model self clipped q qdot qdot_true control_mode in
    _observed_motor_torques self' = snd torques /\
    Np.multiply (fst torques) (_motor_direction self) = Ok applied /\
    (forall j motor_id torque (motor_enabled : bool),
       _motor_id_list self !! j = Some motor_id ->
       applied !! j = Some torque ->
       _motor_enabled_list self' !! j = Some motor_enabled ->
       fst (Bullet.torque_control (_pybullet_client self')) !! j
       = Some motor_id /\
       snd (Bullet.torque_control (_pybullet_client self')) !! j
       = Some (if motor_enabled then torque else 0)) /\
    Bullet.link_mass (_pybullet_client self')
    = Bullet.link_mass (_pybullet_client self) /\
    Bullet.link_inertia (_pybullet_client self')
    = Bullet.link_inertia (_pybullet_client self) /\
    Bullet.reading (_pybullet_client self')
    = Bullet.reading (_pybullet_client self).
Proof.
  unfold apply_action. intros H.
  inv_bind_as H clipped Hclip. inv_bind_as H pd Hpd. destruct pd as [q qdot].
  inv_bind_as H qdot_true Hvel.
  exists clipped, q, qdot, qdot_true. cbv zeta.
  destruct (_motor_model self _ _ _ _ _) as [actual_torque observed_torque].
  inv_bind_as H guarded Hguard. inv_bind_as H applied Happlied.
  destruct (overheat_protection_descriptor _ _ _ Hguard) as [Hd Hc].
  simpl in Happlied, H.
  destruct (gated_torques _ _ _) as [motor_ids motor_torques] eqn:G.
  injection H as <-. exists applied. simpl. rewrite Hd in Happlied, G.
  split; [exact Hclip|]. split; [exact Hpd|]. split; [exact Hvel|].
  split; [reflexivity|]. split; [exact Happlied|].
  split; [|rewrite Hc; auto].
  intros j motor_id torque motor_enabled Hi Ht He.
  destruct (gated_torques_lookup j _ _ _ _ _ _ Hi Ht He) as [H1 H2].
  rewrite G in H1, H2. auto.
Qed.

Lemma apply_action_sends_gated_torques_witness :
  exists self' torque,
    apply_action Example.robot [1; 1] None = Ok self' /\
    snd (Bullet.torque_control (_pybullet_client self')) !! 0%nat
    = Some torque /\
    torque == 3.
Proof.
  destruct (apply_action Example.robot [1; 1] None) as [self'|e] eqn:E;
    [|vm_compute in E; discriminate].
  destruct (apply_action_sends_gated_torques _ _ _ _ E)
    as (clipped & q & qdot & qdot_true & applied & _ & _ & _ & _ & Ha & Hs & _).
  vm_compute in Ha. injection Ha as <-.
  exists self'. eexists. split; [reflexivity|]. split.
  - apply (Hs 0%nat 10%Z _ true eq_refl eq_refl).
    vm_compute in E. now injection E as <-.
  - reflexivity.
Defined.

(** The observation history is a bounded buffer: [receive_obs] puts the
    current true observation in front and drops what lies beyond 100
    entries; no other call of an episode changes the history, so its length
    never exceeds 100. *)
Theorem observation_history_is_bounded (calls : list call)
    (self self' : Minitaur) :
  (length (_observation_history self) <= deque_maxlen)%nat ->
  run calls self = Ok self' ->
  (length (_observation_history self') <= deque_maxlen)%nat /\
  (forallb (fun c => match c with step_and_receive_obs _ => false | _ => true end)
     calls = true ->
   _observation_history self' = _observation_history self) /\
  (forall sim received,
     run_call (step_and_receive_obs sim) self' = Ok received ->
     exists obs,
       get_true_obs received = Ok obs /\
       _observation_history received
       = take deque_maxlen (obs :: _observation_history self') /\
       length (_observation_history received)
       = Nat.min deque_maxlen (S (length (_observation_history self')))).
Proof.
  intros Hlen Hrun.
  assert (Hstep : forall c a b,
             run_call c a = Ok b ->
             match c with
             | step_and_receive_obs _ =>
                 exists obs,
                   _observation_history b
                   = take deque_maxlen (obs :: _observation_history a)
             | _ => _observation_history b = _observation_history a
             end).
  { intros c a b H. destruct (is_setter c) eqn:S.
    - destruct (setter_frame c a b S H) as (_ & _ & _ & Hh & _).
      destruct c; try discriminate; exact Hh.
    - destruct c; try discriminate; simpl in H.
      + apply receive_obs_history in H as (obs & Hh & _). now exists obs.
      + now apply set_act_frame in H as (_ & Hh & _).
      + now apply robot_step_frame in H as (_ & Hh & _).
      + now apply apply_action_frame in H as (_ & Hh & _). }
  assert (Hall : forall cs a b,
             run cs a = Ok b ->
             ((length (_observation_history a) <= deque_maxlen)%nat ->
              (length (_observation_history b) <= deque_maxlen)%nat) /\
             (forallb (fun c => match c with
                                | step_and_receive_obs _ => false
                                | _ => true
                                end) cs = true ->
              _observation_history b = _observation_history a)).
  { unfold run. induction cs as [|c cs IH]; intros a b H.
    - injection H as <-. auto.
    - rewrite for_each_cons in H. inv_bind_as H mid Hmid.
      destruct (IH mid b H) as [IH1 IH2]. apply Hstep in Hmid. split.
      + intros Ha. apply IH1.
        destruct c; try (rewrite Hmid; exact Ha).
        destruct Hmid as (obs & ->). rewrite length_take. lia.
      + intros Hq. simpl in Hq. apply andb_true_iff in Hq as [Hc Hq].
        rewrite (IH2 Hq). destruct c; try discriminate; exact Hmid. }
  destruct (Hall calls self self' Hrun) as [H1 H2].
  split; [exact (H1 Hlen)|]. split; [exact H2|].
  intros sim received H. simpl in H.
  apply receive_obs_history in H as (obs & Hh & Hobs).
  exists obs. split; [exact Hobs|]. split; [exact Hh|].
  rewrite Hh, length_take. simpl. lia.
Qed.

Lemma observation_history_is_bounded_witness :
  exists self',
    run [step_and_receive_obs Example.sim; call_set_act [0; 0];
         step_and_receive_obs Example.sim] Example.robot = Ok self' /\
    (length (_observation_history self') <= deque_maxlen)%nat.
Proof.
  destruct (run [step_and_receive_obs Example.sim; call_set_act [0; 0];
                 step_and_receive_obs Example.sim] Example.robot)
    as [self'|e] eqn:E; [|vm_compute in E; discriminate].
  exists self'. split; [reflexivity|].
  assert (Hlen : (length (_observation_history Example.robot)
                  <= deque_maxlen)%nat) by (vm_compute; lia).
  exact (proj1 (observation_history_is_bounded _ Example.robot self' Hlen E)).
Defined.

(** ** A control step *)

Section ControlStep.

Lemma substeps_count (n : nat) :
  forall (a : nat) (self self' : Minitaur),
    (Z.of_nat (a + n) <= _action_repeat self)%Z ->
    run (map (fun i => call_robot_step (Z.of_nat i)) (seq a n)) self = Ok self' ->
    descriptor self' = descriptor self /\
    _action self' = _action self /\
    _observation_history self' = _observation_history self /\
    _state_action_counter self' = (_state_action_counter self + Z.of_nat n)%Z /\
    ((1 <= n)%nat -> Z.of_nat (a + n) = _action_repeat self ->
     _filter_action self' = Some (_action self) /\
     step_counter self' = (step_counter self + 1)%Z) /\
    ((Z.of_nat (a + n) < _action_repeat self)%Z ->
     _filter_action self' = _filter_action self /\
     step_counter self' = step_counter self).
Proof.
  unfold run. induction n as [|n IH]; intros a self self' Hle H.
  - injection H as <-. repeat split; try reflexivity; try lia.
  - cbn [seq map] in H. rewrite for_each_cons in H. inv_bind_as H mid Hmid.
    cbn [run_call] in Hmid.
    destruct (robot_step_frame _ _ _ Hmid) as (Hd & Hh & _ & Ha & Hs & Hlast).
    destruct (IH (S a) mid self') as (Hd' & Ha' & Hh' & Hs' & Hend & Hnot).
    { rewrite Hd. lia. }
    { exact H. }
    rewrite Hd in Hend, Hnot.
    split; [congruence|]. split; [congruence|]. split; [congruence|].
    split; [lia|].
    destruct (Z.eqb_spec (Z.of_nat a) (_action_repeat self - 1)) as [Heq|Hne].
    + destruct Hlast as [Hf Hk].
      assert (n = 0)%nat as -> by lia.
      simpl in H. injection H as <-. split; [auto | lia].
    + destruct Hlast as [Hf Hk]. split.
      * intros _ Hfull. destruct n as [|n]; [lia|].
        destruct Hend as [Hf' Hk']; [lia | lia |].
        rewrite Hf', Hk', Ha, Hk. auto.
      * intros Hlt. destruct Hnot as [Hf' Hk']; [lia|].
        rewrite Hf', Hk'. auto.
Qed.

End ControlStep.

(** One control step, [robot_step(i)] for [i = 0 .. _action_repeat - 1],
    advances [_state_action_counter] by [_action_repeat] and [step_counter]
    by one, keeps [_action], and leaves it as the previous action of the
    next interpolation; the time since reset grows by
    [_action_repeat * time_step]. *)
Theorem control_step_advances_counters (self self' : Minitaur) :
  (1 <= _action_repeat self)%Z ->
  run (map (fun i => call_robot_step (Z.of_nat i))
         (seq 0 (Z.to_nat (_action_repeat self)))) self = Ok self' ->
  _state_action_counter self'
  = (_state_action_counter self + _action_repeat self)%Z /\
  step_counter self' = (step_counter self + 1)%Z /\
  _filter_action self' = Some (_action self) /\
  _action self' = _action self /\
  get_time_since_reset self'
  == get_time_since_reset self + inject_Z (_action_repeat self) * time_step self.
Proof.
  intros HR H.
  destruct (substeps_count (Z.to_nat (_action_repeat self)) 0 self self')
    as (Hd & Ha & _ & Hs & Hend & _); [lia | exact H |].
  destruct Hend as [Hf Hk]; [lia | lia |].
  split; [lia|]. split; [exact Hk|]. split; [exact Hf|]. split; [exact Ha|].
  unfold get_time_since_reset. rewrite Hs, Hd, Z2Nat.id by lia.
  rewrite inject_Z_plus. ring.
Qed.

Lemma control_step_advances_counters_witness :
  exists self',
    run (map (fun i => call_robot_step (Z.of_nat i)) (seq 0 4)) Example.robot
    = Ok self' /\
    _state_action_counter self' = 4%Z /\ step_counter self' = 1%Z.
Proof.
  destruct (run (map (fun i => call_robot_step (Z.of_nat i)) (seq 0 4))
              Example.robot) as [self'|e] eqn:E;
    [|vm_compute in E; discriminate].
  exists self'. split; [reflexivity|].
  destruct (control_step_advances_counters Example.robot self')
    as (Hs & Hk & _); [simpl; lia | exact E |].
  split; [exact Hs | exact Hk].
Defined.

(** ** Mass setters: what a successful call writes *)

Section Masses.

Lemma change_masses_frame (ids : list Z) :
  forall (masses : list Q) (client : Bullet.BulletClient),
    Bullet.link_inertia (change_masses ids masses client)
    = Bullet.link_inertia client /\
    Bullet.reading (change_masses ids masses client) = Bullet.reading client /\
    Bullet.torque_control (change_masses ids masses client)
    = Bullet.torque_control client.
Proof.
  induction ids as [|link_id ids IH]; intros [|m masses] client; simpl; auto.
  destruct (IH masses (Bullet.changeDynamics_mass link_id m client))
    as (-> & -> & ->). auto.
Qed.

Lemma change_masses_other (ids : list Z) (link : Z) :
  link ∉ ids ->
  forall (masses : list Q) (client : Bullet.BulletClient),
    Bullet.link_mass (change_masses ids masses client) !! link
    = Bullet.link_mass client !! link.
Proof.
  induction ids as [|link_id ids IH]; intros Hnot [|m masses] client; simpl;
    try reflexivity.
  apply not_elem_of_cons in Hnot as [Hne Hnot].
  rewrite (IH Hnot). simpl. now apply lookup_insert_ne.
Qed.

Lemma change_masses_written (ids : list Z) :
  NoDup ids ->
  forall (masses : list Q) (client : Bullet.BulletClient) (j : nat)
         (link : Z) (m : Q),
    ids !! j = Some link -> masses !! j = Some m ->
    Bullet.link_mass (change_masses ids masses client) !! link = Some m.
Proof.
  induction 1 as [|link_id ids Hfresh Hnd IH];
    intros [|m0 masses] client [|j] link m Hi Hm; simpl in *;
    try discriminate.
  - injection Hi as ->. injection Hm as ->.
    rewrite (change_masses_other ids link Hfresh). simpl.
    apply lookup_insert_eq.
  - now apply (IH masses _ j).
Qed.

End Masses.

(** [set_base_mass] with as many masses as chassis links (the ids being
    distinct) raises nothing, gives every chassis link its mass in order,
    and leaves the other links, the inertias and the rest of the engine
    alone. *)
Theorem set_base_mass_writes_every_link (self : Minitaur)
    (base_mass : list Q) :
  length base_mass = length (_chassis_link_ids self) ->
  NoDup (_chassis_link_ids self) ->
  exists self',
    set_base_mass self base_mass = (self', None) /\
    (forall j link m,
       _chassis_link_ids self !! j = Some link -> base_mass !! j = Some m ->
       Bullet.link_mass (_pybullet_client self') !! link = Some m) /\
    (forall link,
       link ∉ _chassis_link_ids self ->
       Bullet.link_mass (_pybullet_client self') !! link
       = Bullet.link_mass (_pybullet_client self) !! link) /\
    Bullet.link_inertia (_pybullet_client self')
    = Bullet.link_inertia (_pybullet_client self) /\
    descriptor self' = descriptor self.
Proof.
  intros Hlen Hnd. unfold set_base_mass.
  rewrite Hlen, Nat.eqb_refl. simpl. eexists. split; [reflexivity|]. simpl.
  split; [|split; [|split]].
  - intros j link m. now apply change_masses_written.
  - intros link Hnot. now apply change_masses_other.
  - apply change_masses_frame.
  - reflexivity.
Qed.

Lemma set_base_mass_writes_every_link_witness :
  exists self',
    set_base_mass Example.robot [7; 2] = (self', None) /\
    Bullet.link_mass (_pybullet_client self') !! 0%Z = Some 2.
Proof.
  destruct (set_base_mass_writes_every_link Example.robot [7; 2])
    as (self' & Hset & Hwritten & _).
  - reflexivity.
  - apply (bool_decide_unpack _). vm_compute. reflexivity.
  - exists self'. split; [exact Hset|].
    apply (Hwritten 1%nat); reflexivity.
Defined.

(** [set_leg_mass] with one mass per leg link and per motor link (the ids
    being distinct) raises nothing; leg link [j] gets entry [j] and motor
    link [j] gets entry [len(leg links) + j]. *)
Theorem set_leg_mass_splits_the_list (self : Minitaur) (leg_masses : list Q) :
  length leg_masses
  = (length (_leg_link_ids self) + length (_motor_link_ids self))%nat ->
  NoDup (_leg_link_ids self ++ _motor_link_ids self) ->
  exists self',
    set_leg_mass self leg_masses = (self', None) /\
    (forall j link m,
       _leg_link_ids self !! j = Some link -> leg_masses !! j = Some m ->
       Bullet.link_mass (_pybullet_client self') !! link = Some m) /\
    (forall j link m,
       _motor_link_ids self !! j = Some link ->
       leg_masses !! (length (_leg_link_ids self) + j)%nat = Some m ->
       Bullet.link_mass (_pybullet_client self') !! link = Some m) /\
    (forall link,
       link ∉ _leg_link_ids self ++ _motor_link_ids self ->
       Bullet.link_mass (_pybullet_client self') !! link
       = Bullet.link_mass (_pybullet_client self) !! link) /\
    Bullet.link_inertia (_pybullet_client self')
    = Bullet.link_inertia (_pybullet_client self).
Proof.
  intros Hlen Hnd. unfold set_leg_mass.
  rewrite Hlen, Nat.eqb_refl. simpl. eexists. split; [reflexivity|]. simpl.
  apply NoDup_app in Hnd as (Hleg & Hdisjoint & Hmotor).
  split; [|split; [|split]].
  - intros j link m Hi Hm.
    rewrite change_masses_other.
    + now apply (change_masses_written _ Hleg _ _ j).
    + apply Hdisjoint. now apply list_elem_of_lookup_2 in Hi.
  - intros j link m Hi Hm.
    apply (change_masses_written _ Hmotor _ _ j); [exact Hi|].
    now rewrite lookup_drop.
  - intros link Hnot. apply not_elem_of_app in Hnot as [Hl Hm].
    now rewrite !change_masses_other.
  - destruct (change_masses_frame (_motor_link_ids self)
                (drop (length (_leg_link_ids self)) leg_masses)
                (change_masses (_leg_link_ids self) leg_masses
                   (_pybullet_client self))) as (-> & _).
    apply change_masses_frame.
Qed.

Lemma set_leg_mass_splits_the_list_witness :
  exists self',
    set_leg_mass Example.robot [3; 4] = (self', None) /\
    Bullet.link_mass (_pybullet_client self') !! 2%Z = Some 4.
Proof.
  destruct (set_leg_mass_splits_the_list Example.robot [3; 4])
    as (self' & Hset & _ & Hmotor & _).
  - reflexivity.
  - apply (bool_decide_unpack _). vm_compute. reflexivity.
  - exists self'. split; [exact Hset|].
    apply (Hmotor 0%nat); reflexivity.
Defined.

(** ** Randomization engine: what a configuration must look like *)

Section Configuration.

Variable robot : Randomizer.Robot.

Lemma getitem_known {V : Type} (d : list (string * V)) (k : string) (v : V) :
  Randomizer.getitem d k = Ok v -> k ∈ d.*1.
Proof.
  unfold Randomizer.getitem, Randomizer.dict_get.
  destruct (List.find _ d) as [[k' v']|] eqn:F; [|discriminate].
  intros _. apply List.find_some in F as [Hin Heq]. simpl in Heq.
  apply String.eqb_eq in Heq. subst k'.
  apply list_elem_of_In in Hin.
  now apply (list_elem_of_fmap_2 fst) in Hin.
Qed.

Lemma getitem_unknown {V : Type} (d : list (string * V)) (k : string) :
  k ∉ d.*1 -> Randomizer.getitem d k = Raise (KeyError k).
Proof.
  intros Hnot. destruct (Randomizer.getitem d k) as [v|e] eqn:E.
  - apply getitem_known in E. contradiction.
  - unfold Randomizer.getitem in E.
    destruct (Randomizer.dict_get d k); [discriminate | now symmetry].
Qed.

Let well_formed (item : string * list Q) : Prop :=
  fst item ∈ (Randomizer._build_randomization_function_dict robot).*1 /\
  (2 <= length (snd item))%nat.

Lemma sample_parameter_well_formed (item : string * list Q) s s' :
  Randomizer.sample_parameter robot item s = Ok s' -> well_formed item.
Proof.
  destruct item as [name range], s as [self calls].
  unfold Randomizer.sample_parameter. intros H.
  inv_bind_as H f Hf. inv_bind_as H lb Hlb. inv_bind_as H ub Hub.
  split; [now apply getitem_known in Hf|]. simpl.
  apply (index_nat_inv range 1) in Hub. apply lookup_lt_Some in Hub. lia.
Qed.

Lemma first_pass_well_formed (items : list (string * list Q)) :
  forall s s',
    for_each (Randomizer.sample_and_register robot) items s = Ok s' ->
    Forall well_formed items.
Proof.
  induction items as [|item items IH]; intros s s' H; [constructor|].
  rewrite for_each_cons in H. inv_bind_as H mid Hmid.
  constructor; [|now apply (IH mid s')].
  unfold Randomizer.sample_and_register in Hmid. destruct s as [self calls].
  inv_bind_as Hmid out Hout.
  now apply sample_parameter_well_formed in Hout.
Qed.

End Configuration.

(** A [randomize_env] that is not suspended returns normally only if every
    configured parameter names one of the sixteen methods of
    [_build_randomization_function_dict] and carries at least two numbers;
    with a single parameter of another name it raises [KeyError] on that
    name before it touches the robot. *)
Theorem randomize_env_needs_known_parameters (robot : Randomizer.Robot)
    (fuel : nat) (self : Randomizer.ControllableEnvRandomizerFromConfig) :
  Randomizer._suspend_randomization self = false ->
  (forall s,
     Randomizer.randomize_env fuel self robot = Some (Ok s) ->
     Forall (fun item =>
               fst item ∈ (Randomizer._build_randomization_function_dict robot).*1
               /\ (2 <= length (snd item))%nat)
       (Randomizer._randomization_param_dict self)) /\
  (forall name range,
     Randomizer._randomization_param_dict self = [(name, range)] ->
     name ∉ (Randomizer._build_randomization_function_dict robot).*1 ->
     Randomizer.randomize_env fuel self robot = Some (Raise (KeyError name))).
Proof.
  intros Hs.
  assert (Hcfg : Randomizer._randomization_param_dict
                   (Randomizer.with_rejection_param_range []
                      match Randomizer._randomization_seed self with
                      | Some s =>
                          Randomizer.with_np_random
                            (Randomizer.seed s (Randomizer._np_random self))
                            self
                      | None => self
                      end)
                 = Randomizer._randomization_param_dict self).
  { destruct (Randomizer._randomization_seed self); reflexivity. }
  unfold Randomizer.randomize_env. rewrite Hs. cbn [negb]. cbv zeta.
  rewrite Hcfg. split.
  - intros s H.
    destruct (for_each _ _ _) as [s1|e] eqn:Hpass; [|discriminate].
    apply first_pass_well_formed in Hpass.
    unfold Randomizer.sorted_items in Hpass.
    now rewrite merge_sort_Permutation in Hpass.
  - intros name range Hone Hnot. rewrite Hone.
    change (Randomizer.sorted_items [(name, range)]) with [(name, range)].
    unfold for_each, Randomizer.sample_and_register,
      Randomizer.sample_parameter.
    now rewrite (getitem_unknown _ _ Hnot).
Qed.

Lemma randomize_env_needs_known_parameters_witness :
  Randomizer.randomize_env 1
    (Example.make_randomizer [("gravity", [0; 1])] ∅ false) Example.view
  = Some (Raise (KeyError "gravity")).
Proof.
  apply (proj2 (randomize_env_needs_known_parameters Example.view 1
                  (Example.make_randomizer [("gravity", [0; 1])] ∅ false)
                  eq_refl) "gravity" [0; 1] eq_refl).
  apply (bool_decide_unpack _). vm_compute. reflexivity.
Defined.

(** ** Sampled values stay in the configured range *)

Section Ranges.

Variable self : Randomizer.ControllableEnvRandomizerFromConfig.
Variables lo hi : Q.

Let lo_b := fst (Randomizer._param_bounds self).
Let hi_b := snd (Randomizer._param_bounds self).
Let u := Randomizer.stream (Randomizer._np_random self)
           (Randomizer.drawn (Randomizer._np_random self)).

Hypothesis proper_bounds : lo_b < hi_b.
Hypothesis proper_range : lo <= hi.
Hypothesis unit_variate : 0 <= u /\ u <= 1.

Lemma float_draw_within :
  exists sample rng value,
    Randomizer.float_sample self None = Ok (sample, rng) /\
    Randomizer.drawn rng = S (Randomizer.drawn (Randomizer._np_random self)) /\
    (lo_b <= sample /\ sample <= hi_b) /\
    Randomizer.transform self lo hi sample = Ok value /\
    (lo <= value /\ value <= hi).
Proof.
  unfold Randomizer.float_sample, Randomizer.uniform, Randomizer.random_sample.
  fold lo_b hi_b u. destruct unit_variate as [U0 U1].
  eexists. eexists. eexists. split; [reflexivity|]. split; [reflexivity|].
  split; [split; nra|].
  unfold Randomizer.transform. fold lo_b hi_b.
  rewrite truediv_ok by lra. simpl. split; [reflexivity|].
  assert (E : (lo_b + (hi_b - lo_b) * u - lo_b) / (hi_b - lo_b) == u)
    by (field; lra).
  rewrite E. split; nra.
Qed.

End Ranges.

(** With normalized bounds [lo_b < hi_b], a target range [lo <= hi] and a
    variate of the generator in [0, 1], the methods that randomize the
    control latency, the battery voltage, the motor damping and the foot
    restitution and friction draw one variate, store a sample within
    [lo_b, hi_b] and hand the robot a value within [lo, hi]. *)
Theorem sampled_value_within_range
    (self : Randomizer.ControllableEnvRandomizerFromConfig) (lo hi : Q) :
  let lo_b := fst (Randomizer._param_bounds self) in
  let hi_b := snd (Randomizer._param_bounds self) in
  let u := Randomizer.stream (Randomizer._np_random self)
             (Randomizer.drawn (Randomizer._np_random self)) in
  lo_b < hi_b -> lo <= hi -> 0 <= u /\ u <= 1 ->
  Forall (fun '(name, f, setter) =>
            exists self' sample value,
              (f : Randomizer.method) self lo hi None
              = Ok (self', [(setter : Q -> Randomizer.setter) value]) /\
              (lo <= value /\ value <= hi) /\
              Randomizer._randomization_param_value_dict self' !! (name : string)
              = Some (Randomizer.Float sample) /\
              (lo_b <= sample /\ sample <= hi_b) /\
              Randomizer.drawn (Randomizer._np_random self')
              = S (Randomizer.drawn (Randomizer._np_random self)))
    [ ("latency", fun self => Randomizer._randomize_latency self,
       Randomizer.set_ctrl_latency);
      ("battery", fun self => Randomizer._randomize_battery_level self,
       Randomizer.set_battery_voltage);
      ("motor friction", fun self => Randomizer._randomize_motor_friction self,
       Randomizer.set_motor_viscous_damping);
      ("restitution",
       fun self => Randomizer._randomize_contact_restitution self,
       Randomizer.set_foot_restitution);
      ("lateral friction",
       fun self => Randomizer._randomize_contact_friction self,
       Randomizer.set_foot_friction) ].
Proof.
  intros lo_b hi_b u Hb Hr Hu.
  destruct (float_draw_within self lo hi Hb Hr Hu)
    as (sample & rng & value & Hdraw & Hdrawn & Hsample & Ht & Hvalue).
  repeat (apply Forall_cons_2;
    [ eexists; exists sample, value;
      unfold Randomizer._randomize_latency, Randomizer._randomize_battery_level,
        Randomizer._randomize_motor_friction,
        Randomizer._randomize_contact_restitution,
        Randomizer._randomize_contact_friction;
      rewrite Hdraw; cbn [mbind result_bind]; rewrite Ht;
      split; [reflexivity|]; split; [exact Hvalue|];
      split; [apply lookup_insert_eq|]; split; [exact Hsample | exact Hdrawn]
    | ]).
  apply Forall_nil_2.
Qed.

Lemma sampled_value_within_range_witness :
  exists self' value,
    Randomizer._randomize_latency Example.rejecting 0 10 None
    = Ok (self', [Randomizer.set_ctrl_latency value]) /\
    0 <= value /\ value <= 10.
Proof.
  pose proof (sampled_value_within_range Example.rejecting 0 10) as H.
  cbv zeta in H.
  assert (H1 : fst (Randomizer._param_bounds Example.rejecting)
               < snd (Randomizer._param_bounds Example.rejecting))
    by reflexivity.
  assert (H2 : 0 <= 10) by discriminate.
  assert (H3 : 0 <= Randomizer.stream (Randomizer._np_random Example.rejecting)
                      (Randomizer.drawn (Randomizer._np_random Example.rejecting))
               /\ Randomizer.stream (Randomizer._np_random Example.rejecting)
                    (Randomizer.drawn (Randomizer._np_random Example.rejecting))
                  <= 1)
    by (split; discriminate).
  specialize (H H1 H2 H3).
  apply Forall_cons_1 in H as [(self' & sample & value & Hrun & Hv & _) _].
  exists self', value. split; [exact Hrun | exact Hv].
Defined.

(** ** The control step

    [_randomize_control_step] calls [robot.SetTimeSteps], a method the robot
    does not have. *)



(** ** Leg weakening *)

(** The strength ratios of "leg weaken" and "single leg weaken": one per
    motor; motor [k] gets the ratio when it is one of the [motor_per_leg]
    motors of the leg and 1 otherwise.  With fewer motors than legs
    [motor_per_leg] is 0 and no motor is weakened. *)
Theorem weakened_ratios_profile (minitaur : Randomizer.Robot)
    (leg_to_weaken : Z) (ratio : Q) :
  (0 <= leg_to_weaken)%Z ->
  let per_leg := Randomizer.motor_per_leg minitaur in
  let ratios : list Q :=
    Randomizer.weakened_ratios minitaur leg_to_weaken ratio in
  length ratios = Randomizer.num_motors minitaur /\
  (forall k : nat,
     (k < Randomizer.num_motors minitaur)%nat ->
     ratios !! k
     = Some (if ((leg_to_weaken * per_leg <=? Z.of_nat k)
                 && (Z.of_nat k <? (leg_to_weaken + 1) * per_leg))%Z
             then ratio else 1)) /\
  ((Z.of_nat (Randomizer.num_motors minitaur) < Randomizer.NUM_LEGS)%Z ->
   ratios = Np.ones (Randomizer.num_motors minitaur)).
Proof.
  intros Hleg per_leg ratios.
  assert (Hper : (0 <= per_leg)%Z).
  { unfold per_leg, Randomizer.motor_per_leg, Randomizer.NUM_LEGS.
    apply Z.div_pos; lia. }
  assert (Hlookup : forall k : nat,
             (k < Randomizer.num_motors minitaur)%nat ->
             ratios !! k
             = Some (if ((leg_to_weaken * per_leg <=? Z.of_nat k)
                         && (Z.of_nat k <? (leg_to_weaken + 1) * per_leg))%Z
                     then ratio else 1)).
  { intros k Hk. unfold ratios, Randomizer.weakened_ratios, Np.slice_assign,
      Np.ones. cbv zeta. fold per_leg.
    rewrite list_lookup_imap, length_replicate.
    rewrite (lookup_replicate_2 _ _ _ Hk). simpl. f_equal.
    unfold Np.slice_bound.
    set (n := Z.of_nat (Randomizer.num_motors minitaur)).
    assert (Hn : (Z.of_nat k < n)%Z) by (unfold n; lia).
    assert (H1 : (0 <= leg_to_weaken * per_leg)%Z) by nia.
    assert (H2 : (0 <= (leg_to_weaken + 1) * per_leg)%Z) by nia.
    destruct (leg_to_weaken * per_leg <? 0)%Z eqn:E1; [lia|].
    destruct ((leg_to_weaken + 1) * per_leg <? 0)%Z eqn:E2; [lia|].
    assert (C1 : (Z.max 0 (Z.min n (leg_to_weaken * per_leg)) <=? Z.of_nat k)%Z
                 = (leg_to_weaken * per_leg <=? Z.of_nat k)%Z).
    { destruct (Z.leb_spec (leg_to_weaken * per_leg) (Z.of_nat k));
        [apply Z.leb_le | apply Z.leb_gt]; lia. }
    assert (C2 : (Z.of_nat k
                  <? Z.max 0 (Z.min n ((leg_to_weaken + 1) * per_leg)))%Z
                 = (Z.of_nat k <? (leg_to_weaken + 1) * per_leg)%Z).
    { destruct (Z.ltb_spec (Z.of_nat k) ((leg_to_weaken + 1) * per_leg));
        [apply Z.ltb_lt | apply Z.ltb_ge]; lia. }
    now rewrite C1, C2. }
  assert (Hlen : length ratios = Randomizer.num_motors minitaur).
  { unfold ratios, Randomizer.weakened_ratios, Np.slice_assign, Np.ones.
    cbv zeta. now rewrite length_imap, length_replicate. }
  split; [exact Hlen|]. split; [exact Hlookup|].
  intros Hfew. apply list_eq. intros k.
  destruct (Nat.lt_ge_cases k (Randomizer.num_motors minitaur)) as [Hk|Hk].
  - rewrite (Hlookup k Hk). unfold Np.ones.
    rewrite (lookup_replicate_2 _ _ _ Hk).
    assert (E : per_leg = 0%Z).
    { unfold per_leg, Randomizer.motor_per_leg.
      apply Z.div_small. unfold Randomizer.NUM_LEGS in *. lia. }
    rewrite E, !Z.mul_0_r.
    destruct (Z.ltb_spec (Z.of_nat k) 0); [lia|].
    now rewrite andb_false_r.
  - rewrite !lookup_ge_None_2; [reflexivity | |].
    + unfold Np.ones. now rewrite length_replicate.
    + now rewrite Hlen.
Qed.

Lemma weakened_ratios_profile_witness :
  let ratios : list Q :=
    Randomizer.weakened_ratios Example.eight_motors 1 (1 # 2) in
  length ratios = 8%nat /\
  ratios !! 1%nat = Some 1 /\
  ratios !! 2%nat = Some (1 # 2) /\
  ratios !! 3%nat = Some (1 # 2) /\
  ratios !! 4%nat = Some 1 /\
  Randomizer.weakened_ratios Example.view 1 (1 # 2)
  = Np.ones (Randomizer.num_motors Example.view).
Proof.
  intros ratios.
  destruct (weakened_ratios_profile Example.eight_motors 1 (1 # 2))
    as (Hlen & Hlookup & _); [lia|].
  split; [exact Hlen|].
  split; [apply (Hlookup 1%nat); simpl; lia|].
  split; [apply (Hlookup 2%nat); simpl; lia|].
  split; [apply (Hlookup 3%nat); simpl; lia|].
  split; [apply (Hlookup 4%nat); simpl; lia|].
  apply (weakened_ratios_profile Example.view 1 (1 # 2)); [lia|].
  reflexivity.
Defined.

(** "leg weaken" stores the list [[leg, ratio]]; the test of the rejection
    loop compares it with a float.  So a configuration whose only parameter
    is "leg weaken" with a forbidden range makes [randomize_env] raise
    [TypeError] at the first test of the loop, after the parameter has been
    sampled and applied once. *)
Theorem leg_weaken_rejection_raises (robot : Randomizer.Robot)
    (self : Randomizer.ControllableEnvRandomizerFromConfig)
    (lo hi rl rh : Q) (fuel : nat) :
  Randomizer._suspend_randomization self = false ->
  Randomizer._randomization_param_dict self
  = [("leg weaken", [lo; hi; rl; rh])] ->
  ~ fst (Randomizer._param_bounds self) == snd (Randomizer._param_bounds self) ->
  Randomizer.randomize_env (S fuel) self robot = Some (Raise TypeError).
Proof.
  intros Hs Hcfg Hb.
  unfold Randomizer.randomize_env. rewrite Hs. simpl.
  assert (Hcfg' : Randomizer._randomization_param_dict
                    match Randomizer._randomization_seed self with
                    | Some s =>
                        Randomizer.with_np_random
                          (Randomizer.seed s (Randomizer._np_random self)) self
                    | None => self
                    end = [("leg weaken", [lo; hi; rl; rh])]).
  { destruct (Randomizer._randomization_seed self); exact Hcfg. }
  rewrite Hcfg'.
  assert (Hb' : Randomizer._param_bounds
                  match Randomizer._randomization_seed self with
                  | Some s =>
                      Randomizer.with_np_random
                        (Randomizer.seed s (Randomizer._np_random self)) self
                  | None => self
                  end = Randomizer._param_bounds self).
  { destruct (Randomizer._randomization_seed self); reflexivity. }
  set (seeded := match Randomizer._randomization_seed self with
                 | Some s => _
                 | None => self
                 end) in *.
  change (Randomizer.sorted_items [("leg weaken", [lo; hi; rl; rh])])
    with [("leg weaken", [lo; hi; rl; rh])].
  unfold for_each, Randomizer.sample_and_register, Randomizer.sample_parameter.
  change (Randomizer.getitem
            (Randomizer._build_randomization_function_dict robot) "leg weaken")
    with (Ok (fun self => Randomizer._randomize_leg_weakening self robot)).
  cbn [mbind result_bind]. change (index [lo; hi; rl; rh] 0) with (Ok lo).
  change (index [lo; hi; rl; rh] 1) with (Ok hi). cbn [mbind result_bind].
  unfold Randomizer._randomize_leg_weakening.
  destruct (Randomizer.randint _ _) as [leg rng1].
  destruct (Randomizer.uniform _ _ _) as [ratio rng2].
  cbn [mbind result_bind]. unfold Randomizer.transform.
  cbn [Randomizer._param_bounds Randomizer.with_rejection_param_range].
  rewrite Hb'. rewrite truediv_ok by (intros E; apply Hb; lra).
  cbn [mbind result_bind length Nat.eqb].
  change (index [lo; hi; rl; rh] 2) with (Ok rl).
  change (index [lo; hi; rl; rh] 3) with (Ok rh).
  cbn [mbind result_bind fst snd Randomizer._rejection_param_range
         Randomizer.with_rejection_param_range Randomizer.with_np_random
         Randomizer.record Randomizer.with_param_value_dict
         Randomizer.dict_set Randomizer.rejection_loop].
  unfold Randomizer._check_all_randomization_parameter_in_rejection_range.
  simpl (Randomizer._randomization_param_value_dict _).
  simpl (Randomizer._rejection_param_range _).
  change (Randomizer.sorted_items [("leg weaken", (rl, rh))])
    with [("leg weaken", (rl, rh))].
  cbn [Randomizer.check_in_rejection_range].
  rewrite lookup_insert_eq. reflexivity.
Qed.

Lemma leg_weaken_rejection_raises_witness :
  Randomizer.randomize_env 1
    (Example.make_randomizer [("leg weaken", [0; 1; 0; 1])] ∅ false)
    Example.view
  = Some (Raise TypeError).
Proof.
  apply (leg_weaken_rejection_raises Example.view _ 0 1 0 1 0%nat).
  - reflexivity.
  - reflexivity.
  - discriminate.
Defined.

(** ** Randomization engine: reproducible runs *)

Section Draws.

Lemma uniform_seeded (low high : Q) (r : Randomizer.RandomState) :
  Randomizer.seeded (snd (Randomizer.uniform low high r)) = Randomizer.seeded r.
Proof. reflexivity. Qed.

Lemma randint_seeded (high : Z) (r : Randomizer.RandomState) :
  Randomizer.seeded (snd (Randomizer.randint high r)) = Randomizer.seeded r.
Proof. reflexivity. Qed.

Lemma uniform_array_seeded (low high : Q) (size : nat) :
  forall r,
    Randomizer.seeded (snd (Randomizer.uniform_array low high size r))
    = Randomizer.seeded r.
Proof.
  induction size as [|size IH]; intros r; [reflexivity|].
  cbn [Randomizer.uniform_array].
  destruct (Randomizer.uniform low high r) as [x r1] eqn:E1.
  pose proof (uniform_seeded low high r) as H1. rewrite E1 in H1.
  specialize (IH r1).
  destruct (Randomizer.uniform_array low high size r1) as [xs r2].
  simpl in *. congruence.
Qed.

End Draws.

Section Shape.

(** A method that draws its sample reads the randomizer through the bounds
    and the generator only: on a randomizer with other stored samples it
    makes the same calls and stores the same sample. *)
Let draws_alike (name : string) (f : Randomizer.method) : Prop :=
  forall self lb ub self' calls,
    f self lb ub None = Ok (self', calls) ->
    exists sample rng,
      self' = Randomizer.with_np_random rng (Randomizer.record self name sample)
      /\ Randomizer.seeded rng = Randomizer.seeded (Randomizer._np_random self)
      /\ forall values,
           f (Randomizer.with_param_value_dict values self) lb ub None
           = Ok (Randomizer.with_np_random rng
                   (Randomizer.record
                      (Randomizer.with_param_value_dict values self)
                      name sample), calls).

Ltac open_method_in H :=
  unfold Randomizer._randomize_masses, Randomizer._randomize_individual_masses,
    Randomizer._randomize_basemass, Randomizer._randomize_inertia,
    Randomizer._randomize_individual_inertia, Randomizer._randomize_latency,
    Randomizer._randomize_joint_friction, Randomizer._randomize_motor_friction,
    Randomizer._randomize_contact_restitution,
    Randomizer._randomize_contact_friction, Randomizer._randomize_battery_level,
    Randomizer._randomize_motor_strength,
    Randomizer._randomize_global_motor_strength,
    Randomizer._randomize_control_step, Randomizer._randomize_leg_weakening,
    Randomizer._randomize_single_leg_weakening,
    Randomizer.float_sample, Randomizer.array_sample in H.

Ltac open_method_goal :=
  unfold Randomizer._randomize_masses, Randomizer._randomize_individual_masses,
    Randomizer._randomize_basemass, Randomizer._randomize_inertia,
    Randomizer._randomize_individual_inertia, Randomizer._randomize_latency,
    Randomizer._randomize_joint_friction, Randomizer._randomize_motor_friction,
    Randomizer._randomize_contact_restitution,
    Randomizer._randomize_contact_friction, Randomizer._randomize_battery_level,
    Randomizer._randomize_motor_strength,
    Randomizer._randomize_global_motor_strength,
    Randomizer._randomize_control_step, Randomizer._randomize_leg_weakening,
    Randomizer._randomize_single_leg_weakening,
    Randomizer.float_sample, Randomizer.array_sample.

Ltac name_draws H :=
  repeat match type of H with
    | context [Randomizer.uniform_array ?a ?b ?n ?r] =>
        let F := fresh "F" in
        let D := fresh "D" in
        pose proof (uniform_array_seeded a b n r) as F;
        destruct (Randomizer.uniform_array a b n r) eqn:D; simpl in F
    | context [Randomizer.randint ?n ?r] =>
        let F := fresh "F" in
        let D := fresh "D" in
        pose proof (randint_seeded n r) as F;
        destruct (Randomizer.randint n r) eqn:D; simpl in F
    | context [Randomizer.uniform ?a ?b ?r] =>
        let F := fresh "F" in
        let D := fresh "D" in
        pose proof (uniform_seeded a b r) as F;
        destruct (Randomizer.uniform a b r) eqn:D; simpl in F
    end.

Ltac same_steps :=
  repeat (cbn [mbind result_bind Randomizer._param_bounds
                 Randomizer._np_random Randomizer.with_param_value_dict];
          match goal with
          | E : Randomizer.transform ?s ?lb ?ub ?x = Ok _
            |- context [Randomizer.transform
                          (Randomizer.with_param_value_dict ?v ?s) ?lb ?ub ?x] =>
              rewrite (transform_bounds s
                         (Randomizer.with_param_value_dict v s) lb ub x
                         eq_refl), E;
              clear E
          | E : Randomizer.transform_array ?s ?lb ?ub ?x = Ok _
            |- context [Randomizer.transform_array
                          (Randomizer.with_param_value_dict ?v ?s) ?lb ?ub ?x] =>
              rewrite (transform_array_bounds s
                         (Randomizer.with_param_value_dict v s) lb ub x
                         eq_refl), E;
              clear E
          | E : _ = Ok _ |- _ => rewrite E; clear E
          | D : _ = (_, _) |- _ => rewrite D; clear D
          end).

Ltac method_draws_alike :=
  let H := fresh "H" in
  intros self lb ub self' calls H; open_method_in H;
  name_draws H; cbn [mbind result_bind] in H;
  repeat (inv_bind H; cbn [mbind result_bind] in H);
  first
    [ discriminate H
    | injection H as <- <-;
      eexists; eexists; split; [reflexivity|]; split; [congruence|];
      intros values; open_method_goal; same_steps; reflexivity ].

Lemma function_dict_draws_alike (robot : Randomizer.Robot) (name : string)
    (f : Randomizer.method) :
  Randomizer.getitem (Randomizer._build_randomization_function_dict robot) name
  = Ok f ->
  draws_alike name f.
Proof.
  unfold Randomizer.getitem, Randomizer.dict_get,
    Randomizer._build_randomization_function_dict.
  cbn [List.find fst snd].
  repeat match goal with
    | |- context [String.eqb ?k name] =>
        let E := fresh "E" in
        destruct (String.eqb k name) eqn:E;
        [ apply String.eqb_eq in E; subst name;
          cbn [fmap option_fmap option_map snd];
          intros [= <-]; method_draws_alike
        | ]
    end.
  discriminate.
Qed.

End Shape.

Section Reproducible.

Variable robot : Randomizer.Robot.

Let settled (a b : Randomizer.ControllableEnvRandomizerFromConfig) : Prop :=
  Randomizer._randomization_param_dict b = Randomizer._randomization_param_dict a /\
  Randomizer._randomization_seed b = Randomizer._randomization_seed a /\
  Randomizer._param_bounds b = Randomizer._param_bounds a /\
  Randomizer._suspend_randomization b = Randomizer._suspend_randomization a /\
  Randomizer.seeded (Randomizer._np_random b)
  = Randomizer.seeded (Randomizer._np_random a).

Let alike (body : string * list Q ->
                  Randomizer.ControllableEnvRandomizerFromConfig
                  * list Randomizer.setter ->
                  result (Randomizer.ControllableEnvRandomizerFromConfig
                          * list Randomizer.setter)) : Prop :=
  forall item self calls self' calls',
    body item (self, calls) = Ok (self', calls') ->
    settled self self' /\
    exists sample,
      Randomizer._randomization_param_value_dict self'
      = <[fst item := sample]> (Randomizer._randomization_param_value_dict self)
      /\ forall values,
           body item (Randomizer.with_param_value_dict values self, calls)
           = Ok (Randomizer.with_param_value_dict
                   (<[fst item := sample]> values) self', calls').

Lemma sample_parameter_alike : alike (Randomizer.sample_parameter robot).
Proof.
  intros [name range] self calls self' calls' H.
  unfold Randomizer.sample_parameter in H.
  inv_bind_as H f Hf. inv_bind_as H lb Hlb. inv_bind_as H ub Hub.
  inv_bind_as H out Hout. destruct out as [self1 new_calls].
  injection H as <- <-.
  destruct (function_dict_draws_alike robot name f Hf self lb ub self1
              new_calls Hout) as (sample & rng & -> & Hseeded & Hothers).
  split; [repeat split; exact Hseeded|].
  exists sample. split; [reflexivity|]. intros values.
  unfold Randomizer.sample_parameter. rewrite Hf. cbn [mbind result_bind].
  rewrite Hlb, Hub. cbn [mbind result_bind]. rewrite (Hothers values).
  reflexivity.
Qed.

Lemma sample_and_register_alike :
  alike (Randomizer.sample_and_register robot).
Proof.
  intros [name range] self calls self' calls' H.
  unfold Randomizer.sample_and_register in H.
  inv_bind_as H out Hout. destruct out as [self1 calls1].
  destruct (sample_parameter_alike (name, range) self calls self1 calls1 Hout)
    as ((Hc & Hsd & Hb & Hsu & Hr) & sample & Hv & Hothers).
  cbn [fst] in Hv, Hothers.
  destruct (length range =? 4)%nat eqn:E.
  - inv_bind_as H rl Hrl. inv_bind_as H rh Hrh. injection H as <- <-.
    split; [repeat split; assumption|].
    exists sample. split; [exact Hv|]. intros values.
    unfold Randomizer.sample_and_register. rewrite (Hothers values).
    cbn [mbind result_bind]. rewrite E, Hrl, Hrh. reflexivity.
  - injection H as <- <-. split; [repeat split; assumption|].
    exists sample. split; [exact Hv|]. intros values.
    unfold Randomizer.sample_and_register. rewrite (Hothers values).
    cbn [mbind result_bind]. rewrite E. reflexivity.
Qed.

Lemma pass_alike body (items : list (string * list Q)) :
  alike body ->
  forall self calls self' calls',
    for_each body items (self, calls) = Ok (self', calls') ->
    settled self self' /\
    (forall k, k ∉ items.*1 ->
       Randomizer._randomization_param_value_dict self' !! k
       = Randomizer._randomization_param_value_dict self !! k) /\
    forall values,
      exists values',
        for_each body items
          (Randomizer.with_param_value_dict values self, calls)
        = Ok (Randomizer.with_param_value_dict values' self', calls') /\
        (forall k, k ∈ items.*1 ->
           values' !! k = Randomizer._randomization_param_value_dict self' !! k)
        /\ (forall k, k ∉ items.*1 -> values' !! k = values !! k).
Proof.
  intros Hbody.
  induction items as [|item items IH]; intros self calls self' calls' H.
  - injection H as <- <-. split; [repeat split|]. split; [reflexivity|].
    intros values. exists values. split; [reflexivity|].
    split; [|reflexivity]. intros k Hk. simpl in Hk. now apply elem_of_nil in Hk.
  - rewrite for_each_cons in H. inv_bind_as H mid Hmid.
    destruct mid as [self1 calls1].
    destruct (Hbody item self calls self1 calls1 Hmid)
      as ((Hc1 & Hsd1 & Hb1 & Hsu1 & Hr1) & sample & Hv1 & Hothers).
    destruct (IH self1 calls1 self' calls' H)
      as ((Hc & Hsd & Hb & Hsu & Hr) & Hkeep & Hsim).
    split; [repeat split; congruence|]. split.
    + intros k Hk. simpl in Hk. apply not_elem_of_cons in Hk as [Hne Hk].
      rewrite (Hkeep k Hk), Hv1. now apply lookup_insert_ne.
    + intros values.
      destruct (Hsim (<[fst item := sample]> values))
        as (values' & Hrun & Hin & Hout).
      exists values'. split.
      * rewrite for_each_cons, (Hothers values). exact Hrun.
      * split.
        -- intros k Hk. simpl in Hk.
           destruct (decide (k ∈ items.*1)) as [Hrest|Hrest];
             [now apply Hin|].
           apply elem_of_cons in Hk as [->|Hk]; [|contradiction].
           rewrite (Hout _ Hrest), (Hkeep _ Hrest), Hv1.
           now rewrite !lookup_insert_eq.
        -- intros k Hk. simpl in Hk. apply not_elem_of_cons in Hk as [Hne Hk].
           rewrite (Hout k Hk). now apply lookup_insert_ne.
Qed.

Lemma sorted_keys {V : Type} (d : list (string * V)) (k : string) :
  k ∈ (Randomizer.sorted_items d).*1 <-> k ∈ d.*1.
Proof.
  unfold Randomizer.sorted_items. now rewrite merge_sort_Permutation.
Qed.

Lemma rejection_loop_settled (fuel : nat) :
  forall s s',
    Randomizer.rejection_loop fuel robot s = Some (Ok s') ->
    settled (fst s) (fst s') /\
    (forall k, k ∉ (Randomizer._randomization_param_dict (fst s)).*1 ->
       Randomizer._randomization_param_value_dict (fst s') !! k
       = Randomizer._randomization_param_value_dict (fst s) !! k).
Proof.
  induction fuel as [|fuel IH]; intros s s' H; [discriminate|].
  simpl in H.
  destruct (Randomizer._check_all_randomization_parameter_in_rejection_range _)
    as [[|]|e]; try discriminate.
  - destruct (for_each _ _ s) as [[self1 calls1]|e] eqn:Hpass; [|discriminate].
    destruct s as [self calls].
    destruct (pass_alike _ _ sample_parameter_alike _ _ _ _ Hpass)
      as ((Hc1 & Hsd1 & Hb1 & Hsu1 & Hr1) & Hkeep1 & _).
    destruct (IH _ _ H) as ((Hc & Hsd & Hb & Hsu & Hr) & Hkeep).
    simpl in *. split; [repeat split; congruence|].
    intros k Hk. rewrite Hkeep by (now rewrite Hc1).
    apply Hkeep1. now rewrite sorted_keys.
  - injection H as <-. split; [repeat split|]. reflexivity.
Qed.

End Reproducible.

(** With a randomization seed, [randomize_env] is reproducible: called
    again on the randomizer it has left, it reseeds the generator, makes the
    same setter calls with the same values and leaves the randomizer as it
    found it, whatever samples the earlier call has stored. *)
Theorem seeded_randomization_is_reproducible (robot : Randomizer.Robot)
    (fuel : nat) (self self1 : Randomizer.ControllableEnvRandomizerFromConfig)
    (sd : Z) (calls1 : list Randomizer.setter) :
  Randomizer._suspend_randomization self = false ->
  Randomizer._randomization_seed self = Some sd ->
  Randomizer.randomize_env fuel self robot = Some (Ok (self1, calls1)) ->
  Randomizer.randomize_env fuel self1 robot = Some (Ok (self1, calls1)).
Proof.
  intros Hs Hseed H.
  unfold Randomizer.randomize_env in H. rewrite Hs, Hseed in H.
  cbn [negb] in H. cbv zeta in H.
  set (first := Randomizer.with_rejection_param_range []
                  (Randomizer.with_np_random
                     (Randomizer.seed sd (Randomizer._np_random self)) self))
    in H.
  destruct (for_each _ _ (first, [])) as [[passed calls0]|e] eqn:Hpass;
    [|discriminate].
  destruct (pass_alike _ _ (sample_and_register_alike robot) _ _ _ _
              Hpass) as ((Hc0 & Hsd0 & Hb0 & Hsu0 & Hr0) & _ & Hsim).
  assert (Hleft :
            (Randomizer._randomization_param_dict self1
             = Randomizer._randomization_param_dict passed /\
             Randomizer._randomization_seed self1
             = Randomizer._randomization_seed passed /\
             Randomizer._param_bounds self1 = Randomizer._param_bounds passed /\
             Randomizer._suspend_randomization self1
             = Randomizer._suspend_randomization passed /\
             Randomizer.seeded (Randomizer._np_random self1)
             = Randomizer.seeded (Randomizer._np_random passed)) /\
            forall k,
              k ∉ (Randomizer._randomization_param_dict passed).*1 ->
              Randomizer._randomization_param_value_dict self1 !! k
              = Randomizer._randomization_param_value_dict passed !! k).
  { cbn [fst] in H. destruct (Randomizer._rejection_param_range passed).
    - injection H as <- <-. split; [repeat split|]. reflexivity.
    - exact (rejection_loop_settled robot fuel _ _ H). }
  destruct Hleft as ((Hc & Hsd & Hb & Hsu & Hr) & Hkeep).
  simpl in Hc0, Hsd0, Hb0, Hsu0, Hr0.
  unfold Randomizer.randomize_env.
  assert (Hs1 : Randomizer._suspend_randomization self1 = false) by congruence.
  assert (Hseed1 : Randomizer._randomization_seed self1 = Some sd)
    by congruence.
  rewrite Hs1, Hseed1. cbn [negb]. cbv zeta.
  assert (Hstart :
            Randomizer.with_rejection_param_range []
              (Randomizer.with_np_random
                 (Randomizer.seed sd (Randomizer._np_random self1)) self1)
            = Randomizer.with_param_value_dict
                (Randomizer._randomization_param_value_dict self1) first).
  { unfold first, Randomizer.with_rejection_param_range,
      Randomizer.with_np_random, Randomizer.with_param_value_dict,
      Randomizer.seed.
    cbn. f_equal; try congruence; f_equal; congruence. }
  rewrite Hstart.
  destruct (Hsim (Randomizer._randomization_param_value_dict self1))
    as (values' & Hrun & Hin & Hout).
  assert (Hsame : Randomizer.with_param_value_dict values' passed = passed).
  { assert (values' = Randomizer._randomization_param_value_dict passed) as ->.
    { apply map_eq. intros k.
      destruct (decide (k ∈ (Randomizer.sorted_items
                               (Randomizer._randomization_param_dict first)).*1))
        as [Hk|Hk]; [now apply Hin|].
      rewrite (Hout k Hk). apply Hkeep.
      rewrite sorted_keys in Hk. now rewrite Hc0. }
    now destruct passed. }
  rewrite Hsame in Hrun.
  change (Randomizer._randomization_param_dict
            (Randomizer.with_param_value_dict
               (Randomizer._randomization_param_value_dict self1) first))
    with (Randomizer._randomization_param_dict first).
  rewrite Hrun. exact H.
Qed.

Lemma seeded_randomization_is_reproducible_witness :
  let seeded :=
    {| Randomizer._randomization_param_dict := Example.two_params;
       Randomizer._randomization_param_value_dict := ∅;
       Randomizer._randomization_seed := Some 7%Z;
       Randomizer._param_bounds := (-1, 1);
       Randomizer._suspend_randomization := false;
       Randomizer._np_random := Example.halves;
       Randomizer._rejection_param_range := [] |} in
  exists self1 calls1,
    Randomizer.randomize_env 1 seeded Example.view = Some (Ok (self1, calls1))
    /\ Randomizer.randomize_env 1 self1 Example.view
       = Some (Ok (self1, calls1)).
Proof.
  intros seeded.
  destruct (Randomizer.randomize_env 1 seeded Example.view)
    as [[[self1 calls1]|e]|] eqn:E;
    [|vm_compute in E; discriminate..].
  exists self1, calls1. split; [reflexivity|].
  exact (seeded_randomization_is_reproducible Example.view 1 seeded self1 7%Z
           calls1 eq_refl eq_refl E).
Defined.
